(** * elastic-serverless-forwarder: decoding pipeline and Elasticsearch shipper

    A shallow embedding of
      - storage/decorator.py    (by_lines, multi_line, json_collector, inflate)
      - shippers/es.py          (ElasticsearchShipper)
      - handlers/aws/utils.py   (_from_s3_uri_to_bucket_name_and_object_key,
                                 _get_trigger_type)
    together with the part of the Python runtime these functions call
    (bytes and str methods, UTF-8, SHA-256, dictionaries, exceptions). *)

From Stdlib Require Import String Ascii.
From Stdlib.Strings Require Import Byte.
From Stdlib Require Import ZArith List Lia Bool.
Import ListNotations.
Local Open Scope Z_scope.
Set Warnings "-register-all".

(* ===================================================================== *)
(** ** The Python values the code manipulates *)
(* ===================================================================== *)

Module Py.

(** [bytes] objects are lists of bytes; [str] objects are lists of Unicode
    code points. *)
Definition bytes : Type := list byte.
Definition str : Type := list Z.

Definition byte_val (x : byte) : Z := Z.of_N (Byte.to_N x).

Definition byte_of (z : Z) : byte :=
  match Byte.of_N (Z.to_N z) with
  | Some x => x
  | None => x00
  end.

(** Literals: [b "abc"] is the bytes literal [b"abc"], [u "abc"] the str
    literal ["abc"] (ASCII text only). *)
Definition b (s : string) : bytes := list_byte_of_string s.
Definition u (s : string) : str := map byte_val (list_byte_of_string s).

Definition LF : byte := x0a.
Definition CR : byte := x0d.
Definition DQ : byte := x22.

(** [len(x)] *)
Definition len {A : Type} (l : list A) : Z := Z.of_nat (length l).

(** *** UTF-8 *)

Definition is_cont (x : byte) : bool :=
  (0x80 <=? byte_val x) && (byte_val x <=? 0xBF).

Definition in_range (lo hi : Z) (x : byte) : bool :=
  (lo <=? byte_val x) && (byte_val x <=? hi).

Definition cont_val (x : byte) : Z := byte_val x - 0x80.

(** [bytes.decode("utf-8")] in strict mode: [None] stands for
    UnicodeDecodeError.  Well-formed sequences are those of the Unicode
    standard (no overlong forms, no surrogates, nothing above U+10FFFF). *)
Fixpoint utf8_decode (bs : bytes) : option str :=
  match bs with
  | [] => Some []
  | b0 :: r0 =>
    let v0 := byte_val b0 in
    if v0 <? 0x80 then option_map (cons v0) (utf8_decode r0)
    else if in_range 0xC2 0xDF b0 then
      match r0 with
      | b1 :: r1 =>
        if is_cont b1
        then option_map (cons ((v0 - 0xC0) * 64 + cont_val b1)) (utf8_decode r1)
        else None
      | _ => None
      end
    else if in_range 0xE0 0xEF b0 then
      match r0 with
      | b1 :: b2 :: r2 =>
        if in_range (if v0 =? 0xE0 then 0xA0 else 0x80)
                    (if v0 =? 0xED then 0x9F else 0xBF) b1 && is_cont b2
        then option_map
               (cons ((v0 - 0xE0) * 4096 + cont_val b1 * 64 + cont_val b2))
               (utf8_decode r2)
        else None
      | _ => None
      end
    else if in_range 0xF0 0xF4 b0 then
      match r0 with
      | b1 :: b2 :: b3 :: r3 =>
        if in_range (if v0 =? 0xF0 then 0x90 else 0x80)
                    (if v0 =? 0xF4 then 0x8F else 0xBF) b1
           && is_cont b2 && is_cont b3
        then option_map
               (cons ((v0 - 0xF0) * 262144 + cont_val b1 * 4096
                      + cont_val b2 * 64 + cont_val b3))
               (utf8_decode r3)
        else None
      | _ => None
      end
    else None
  end.

(** One code point of [str.encode("utf-8")]: [None] stands for
    UnicodeEncodeError (surrogates cannot be encoded). *)
Definition utf8_encode_cp (c : Z) : option bytes :=
  if c <? 0 then None
  else if c <? 0x80 then Some [byte_of c]
  else if c <? 0x800 then Some [byte_of (0xC0 + c / 64); byte_of (0x80 + c mod 64)]
  else if (0xD800 <=? c) && (c <=? 0xDFFF) then None
  else if c <? 0x10000 then
    Some [byte_of (0xE0 + c / 4096); byte_of (0x80 + (c / 64) mod 64);
          byte_of (0x80 + c mod 64)]
  else if c <? 0x110000 then
    Some [byte_of (0xF0 + c / 262144); byte_of (0x80 + (c / 4096) mod 64);
          byte_of (0x80 + (c / 64) mod 64); byte_of (0x80 + c mod 64)]
  else None.

Fixpoint utf8_encode (s : str) : option bytes :=
  match s with
  | [] => Some []
  | c :: r =>
    match utf8_encode_cp c, utf8_encode r with
    | Some x, Some y => Some (x ++ y)
    | _, _ => None
    end
  end.

(** *** Methods of [bytes] *)

Definition byte_eqb (x y : byte) : bool := Byte.eqb x y.

Fixpoint startswith (l p : bytes) : bool :=
  match p, l with
  | [], _ => true
  | x :: p', y :: l' => byte_eqb x y && startswith l' p'
  | _ :: _, [] => false
  end.

(** [l.find(sub) > -1] *)
Fixpoint contains (l sub : bytes) : bool :=
  startswith l sub ||
  match l with
  | [] => false
  | _ :: l' => contains l' sub
  end.

Fixpoint bytes_eqb (l m : bytes) : bool :=
  match l, m with
  | [], [] => true
  | x :: l', y :: m' => byte_eqb x y && bytes_eqb l' m'
  | _, _ => false
  end.

(** [l.endswith(suffix)]: some tail of [l] is [suffix]. *)
Fixpoint endswith (l suffix : bytes) : bool :=
  match l with
  | [] => bytes_eqb [] suffix
  | _ :: l' => bytes_eqb l suffix || endswith l' suffix
  end.

Definition mem_byte (x : byte) (chars : bytes) : bool :=
  existsb (byte_eqb x) chars.

(** [l.lstrip(chars)], [l.rstrip(chars)], [l.strip(chars)]: the argument is
    a set of bytes, not a prefix or suffix. *)
Fixpoint lstrip (l chars : bytes) : bytes :=
  match l with
  | [] => []
  | x :: l' => if mem_byte x chars then lstrip l' chars else l
  end.

Fixpoint rstrip (l chars : bytes) : bytes :=
  match l with
  | [] => []
  | x :: l' =>
    match rstrip l' chars with
    | [] => if mem_byte x chars then [] else [x]
    | r => x :: r
    end
  end.

Definition strip (l chars : bytes) : bytes := rstrip (lstrip l chars) chars.

(** [l.count(sub)] for a non-empty [sub]: occurrences that do not overlap,
    found from the left. *)
Fixpoint count_from (fuel : nat) (l sub : bytes) : Z :=
  match fuel with
  | O => 0
  | S fuel' =>
    match l with
    | [] => 0
    | _ :: l' =>
      if startswith l sub
      then 1 + count_from fuel' (skipn (length sub) l) sub
      else count_from fuel' l' sub
    end
  end.

Definition count (l sub : bytes) : Z :=
  match sub with
  | [] => len l + 1
  | _ => count_from (length l) l sub
  end.

(** *** Methods of [str] *)

(** The line boundaries of [str.splitlines()]. *)
Definition is_linebreak (c : Z) : bool :=
  (c =? 0x0A) || (c =? 0x0D) || (c =? 0x0B) || (c =? 0x0C) ||
  (c =? 0x1C) || (c =? 0x1D) || (c =? 0x1E) || (c =? 0x85) ||
  (c =? 0x2028) || (c =? 0x2029).

(** [s.splitlines()]: the lines of [s] without their line boundaries; a
    carriage return followed by a line feed is one boundary, and no empty
    line is reported after a final boundary. *)
Fixpoint splitlines (s : str) : list str :=
  match s with
  | [] => []
  | c :: r =>
    if is_linebreak c then
      match r with
      | c' :: r' =>
        if (c =? 0x0D) && (c' =? 0x0A) then [] :: splitlines r'
        else [] :: splitlines r
      | [] => [[]]
      end
    else
      match splitlines r with
      | [] => [[c]]
      | l :: ls => (c :: l) :: ls
      end
  end.

(** The characters [str.isspace()] accepts, removed by [s.lstrip()]. *)
Definition is_space (c : Z) : bool :=
  ((0x09 <=? c) && (c <=? 0x0D)) || ((0x1C <=? c) && (c <=? 0x20)) ||
  (c =? 0x85) || (c =? 0xA0) || (c =? 0x1680) ||
  ((0x2000 <=? c) && (c <=? 0x200A)) || (c =? 0x2028) || (c =? 0x2029) ||
  (c =? 0x202F) || (c =? 0x205F) || (c =? 0x3000).

Fixpoint str_lstrip (s : str) : str :=
  match s with
  | [] => []
  | c :: s' => if is_space c then str_lstrip s' else s
  end.


Fixpoint str_eqb (s t : str) : bool :=
  match s, t with
  | [], [] => true
  | c :: s', d :: t' => (c =? d) && str_eqb s' t'
  | _, _ => false
  end.

(** *** Objects *)

(** A [float] is an IEEE 754 binary64 value: not a number, an infinity,
    or [m * 2 ^ e] with its sign, [m] not negative (both zeros are
    there). *)
Inductive float64 : Type :=
| FNan
| FInf (negative : bool)
| FNum (negative : bool) (m e : Z).

(** The objects that events and parsed JSON documents are made of.  A
    [dict] keeps its keys in insertion order. *)
Inductive pyval : Type :=
| PNone
| PBool (v : bool)
| PInt (v : Z)
| PFloat (v : float64)
| PStr (v : str)
| PList (v : list pyval)
| PDict (v : list (str * pyval)).

Definition dict : Type := list (str * pyval).

(** The exceptions raised by the modelled code.  [NotModelled] marks an
    outcome this development does not describe (it is no Python
    exception); no statement below relies on it. *)
Inductive exn : Type :=
| UnicodeDecodeError
| UnicodeEncodeError
| KeyError (key : pyval)
| IndexError
| TypeError
| AssertionError
| ValueError (msg : str)
| Exception (msg : str)
| NotModelled.

(** A computation that returns a value or raises. *)
Definition result (A : Type) : Type := (A + exn)%type.

Definition bind {A B : Type} (m : result A) (k : A -> result B) : result B :=
  match m with
  | inl x => k x
  | inr e => inr e
  end.

Declare Scope result_scope.
Delimit Scope result_scope with result.
Notation "x <- m ;; k" := (bind m (fun x => k))
  (at level 61, m at next level, right associativity) : result_scope.

(** [d.get(k)], [k in d] *)
Fixpoint dict_get (d : dict) (k : str) : option pyval :=
  match d with
  | [] => None
  | (k', v) :: d' => if str_eqb k' k then Some v else dict_get d' k
  end.

Definition dict_in (k : str) (d : dict) : bool :=
  match dict_get d k with Some _ => true | None => false end.

(** [d[k] = v]: an existing key keeps its position. *)
Fixpoint dict_set (d : dict) (k : str) (v : pyval) : dict :=
  match d with
  | [] => [(k, v)]
  | (k', v') :: d' =>
    if str_eqb k' k then (k', v) :: d' else (k', v') :: dict_set d' k v
  end.

(** Numbers compare by value, whatever their types: [m1 * 2 ^ e1] and
    [m2 * 2 ^ e2] are compared exactly; an [int] has the exponent 0, a
    [bool] is the [int] 0 or 1.  Not a number equals nothing, itself
    included; the two zeros are equal. *)
Definition signed (negative : bool) (m : Z) : Z := if negative then - m else m.

Definition scaled_eqb (m1 e1 m2 e2 : Z) : bool :=
  let k := Z.min e1 e2 in
  m1 * 2 ^ (e1 - k) =? m2 * 2 ^ (e2 - k).

Definition float_eqb (x y : float64) : bool :=
  match x, y with
  | FNum s m e, FNum t n f => scaled_eqb (signed s m) e (signed t n) f
  | FInf s, FInf t => Bool.eqb s t
  | _, _ => false
  end.

Definition int_float_eqb (z : Z) (y : float64) : bool :=
  match y with
  | FNum t n f => scaled_eqb z 0 (signed t n) f
  | _ => false
  end.

(** [x == y] on objects.  Dictionaries compare without regard to order;
    [True == 1] and [1 == 1.0].  Values have no identity here: inside a
    list or a dictionary Python takes an object to be equal to itself
    before it asks [==], which shows for a not-a-number only; here such
    an element makes the two containers differ. *)
Fixpoint py_eq (x y : pyval) {struct x} : bool :=
  match x, y with
  | PNone, PNone => true
  | PBool a, PBool c => Bool.eqb a c
  | PBool a, PInt n => (if a then 1 else 0) =? n
  | PInt n, PBool a => (if a then 1 else 0) =? n
  | PInt a, PInt c => a =? c
  | PBool a, PFloat c => int_float_eqb (if a then 1 else 0) c
  | PFloat c, PBool a => int_float_eqb (if a then 1 else 0) c
  | PInt a, PFloat c => int_float_eqb a c
  | PFloat c, PInt a => int_float_eqb a c
  | PFloat a, PFloat c => float_eqb a c
  | PStr a, PStr c => str_eqb a c
  | PList a, PList c =>
    (fix go (a c : list pyval) {struct a} : bool :=
       match a, c with
       | [], [] => true
       | v :: a', w :: c' => py_eq v w && go a' c'
       | _, _ => false
       end) a c
  | PDict a, PDict c =>
    (length a =? length c)%nat &&
    (fix go (a : list (str * pyval)) {struct a} : bool :=
       match a with
       | [] => true
       | (k, v) :: a' =>
         match dict_get c k with
         | Some w => py_eq v w
         | None => false
         end && go a'
       end) a
  | _, _ => false
  end.

Definition hashable (k : pyval) : bool :=
  match k with
  | PList _ | PDict _ => false
  | _ => true
  end.

Fixpoint str_startswith (s p : str) : bool :=
  match p, s with
  | [], _ => true
  | c :: p', d :: s' => (c =? d) && str_startswith s' p'
  | _ :: _, [] => false
  end.

(** [sub in s] for two [str] *)
Fixpoint str_contains (s sub : str) : bool :=
  str_startswith s sub ||
  match s with
  | [] => false
  | _ :: s' => str_contains s' sub
  end.

(** [len(v)] *)
Definition py_len (v : pyval) : result Z :=
  match v with
  | PStr s => inl (len s)
  | PList l => inl (len l)
  | PDict d => inl (len d)
  | _ => inr TypeError
  end.

(** [v[k]] *)
Definition py_getitem (v k : pyval) : result pyval :=
  match v with
  | PDict d =>
    match k with
    | PStr key =>
      match dict_get d key with
      | Some x => inl x
      | None => inr (KeyError k)
      end
    | _ => if hashable k then inr (KeyError k) else inr TypeError
    end
  | PList l =>
    let at_index (i : Z) : result pyval :=
      let i := if i <? 0 then i + len l else i in
      if i <? 0 then inr IndexError
      else match nth_error l (Z.to_nat i) with
           | Some x => inl x
           | None => inr IndexError
           end in
    match k with
    | PInt i => at_index i
    | PBool c => at_index (if c then 1 else 0)
    | _ => inr TypeError
    end
  | PStr s =>
    let at_index (i : Z) : result pyval :=
      let i := if i <? 0 then i + len s else i in
      if i <? 0 then inr IndexError
      else match nth_error s (Z.to_nat i) with
           | Some c => inl (PStr [c])
           | None => inr IndexError
           end in
    match k with
    | PInt i => at_index i
    | PBool c => at_index (if c then 1 else 0)
    | _ => inr TypeError
    end
  | _ => inr TypeError
  end.

(** [k in v] *)
Definition py_in (k v : pyval) : result bool :=
  match v with
  | PDict d =>
    match k with
    | PStr key => inl (dict_in key d)
    | _ => if hashable k then inl false else inr TypeError
    end
  | PList l => inl (existsb (py_eq k) l)
  | PStr s =>
    match k with
    | PStr sub => inl (str_contains s sub)
    | _ => inr TypeError
    end
  | _ => inr TypeError
  end.

Definition str_mem (c : Z) (chars : str) : bool := existsb (Z.eqb c) chars.

(** [s.lstrip(chars)], [s.rstrip(chars)], [s.strip(chars)] with an
    argument: [chars] is a set of characters, every leading (trailing)
    character that belongs to it is removed. *)
Fixpoint str_lstrip_chars (s chars : str) : str :=
  match s with
  | [] => []
  | c :: s' => if str_mem c chars then str_lstrip_chars s' chars else s
  end.

Fixpoint str_rstrip_chars (s chars : str) : str :=
  match s with
  | [] => []
  | c :: s' =>
    match str_rstrip_chars s' chars with
    | [] => if str_mem c chars then [] else [c]
    | r => c :: r
    end
  end.

Definition str_strip_chars (s chars : str) : str :=
  str_rstrip_chars (str_lstrip_chars s chars) chars.

(** [s.split(sep, 1)] for a non-empty [sep]: at most one split, at the
    first occurrence of [sep]. *)
Fixpoint str_split1 (s sep : str) : list str :=
  match s with
  | [] => [[]]
  | c :: s' =>
    if str_startswith s sep then [[]; skipn (length sep) s]
    else
      match str_split1 s' sep with
      | x :: rest => (c :: x) :: rest
      | [] => [[c]]
      end
  end.

(** [s.split(sep)] for a separator of one character: the pieces between
    its occurrences, one piece more than there are occurrences. *)
Fixpoint str_split_char (s : str) (sep : Z) : list str :=
  match s with
  | [] => [[]]
  | c :: s' =>
    if c =? sep then [] :: str_split_char s' sep
    else
      match str_split_char s' sep with
      | x :: rest => (c :: x) :: rest
      | [] => [[c]]
      end
  end.

(** [s.replace(old, new)] for an [old] of one character. *)
Definition str_replace1 (s : str) (old : Z) (new : str) : str :=
  flat_map (fun c => if c =? old then new else [c]) s.

(** The decimal digits of a natural number. *)
Fixpoint digits_of (fuel : nat) (n : Z) (acc : str) : str :=
  match fuel with
  | O => acc
  | S fuel' =>
    let acc := (0x30 + n mod 10) :: acc in
    if n <? 10 then acc else digits_of fuel' (n / 10) acc
  end.

Definition decimal (n : Z) : str := digits_of (S (Z.to_nat (Z.log2 n))) n [].

(** [format(v, "012d")] for an [int]: the sign, then the digits padded
    with zeros on the left so that the whole has at least twelve
    characters. *)
Definition format_012d (v : Z) : str :=
  let sign := if v <? 0 then u "-" else [] in
  let digits := decimal (Z.abs v) in
  sign ++ repeat 0x30 (12 - length sign - length digits) ++ digits.

(** *** A JSON parser *)

Definition is_json_ws (c : Z) : bool :=
  (c =? 0x20) || (c =? 0x09) || (c =? 0x0A) || (c =? 0x0D).

Fixpoint skip_ws (s : str) : str :=
  match s with
  | c :: s' => if is_json_ws c then skip_ws s' else s
  | [] => []
  end.

Definition is_digit (c : Z) : bool := (0x30 <=? c) && (c <=? 0x39).

Definition hex_val (c : Z) : option Z :=
  if is_digit c then Some (c - 0x30)
  else if (0x61 <=? c) && (c <=? 0x66) then Some (c - 0x61 + 10)
  else if (0x41 <=? c) && (c <=? 0x46) then Some (c - 0x41 + 10)
  else None.

Definition hex4 (s : str) : option (Z * str) :=
  match s with
  | a :: b :: c :: d :: r =>
    match hex_val a, hex_val b, hex_val c, hex_val d with
    | Some a, Some b, Some c, Some d => Some (a * 4096 + b * 256 + c * 16 + d, r)
    | _, _, _, _ => None
    end
  | _ => None
  end.

(** The characters of a string after its opening quote, up to the closing
    quote: escapes are decoded (a surrogate pair of [\u] escapes is one
    character), raw control characters are refused. *)
Fixpoint parse_string (fuel : nat) (s : str) : option (str * str) :=
  match fuel with
  | O => None
  | S fuel' =>
    match s with
    | [] => None
    | c :: r =>
      if c =? 0x22 then Some ([], r)
      else if c <? 0x20 then None
      else if c =? 0x5C then
        match r with
        | [] => None
        | e :: r' =>
          let simple (x : Z) :=
            match parse_string fuel' r' with
            | Some (t, rest) => Some (x :: t, rest)
            | None => None
            end in
          if e =? 0x22 then simple 0x22
          else if e =? 0x5C then simple 0x5C
          else if e =? 0x2F then simple 0x2F
          else if e =? 0x62 then simple 0x08
          else if e =? 0x66 then simple 0x0C
          else if e =? 0x6E then simple 0x0A
          else if e =? 0x72 then simple 0x0D
          else if e =? 0x74 then simple 0x09
          else if e =? 0x75 then
            match hex4 r' with
            | None => None
            | Some (h, r2) =>
              let single :=
                match parse_string fuel' r2 with
                | Some (t, rest) => Some (h :: t, rest)
                | None => None
                end in
              if (0xD800 <=? h) && (h <=? 0xDBFF) then
                match r2 with
                | 0x5C :: 0x75 :: r3 =>
                  match hex4 r3 with
                  | Some (l, r4) =>
                    if (0xDC00 <=? l) && (l <=? 0xDFFF) then
                      match parse_string fuel' r4 with
                      | Some (t, rest) =>
                        Some (0x10000 + (h - 0xD800) * 1024 + (l - 0xDC00) :: t, rest)
                      | None => None
                      end
                    else single
                  | None => single
                  end
                | _ => single
                end
              else single
            end
          else None
        end
      else
        match parse_string fuel' r with
        | Some (t, rest) => Some (c :: t, rest)
        | None => None
        end
    end
  end.

Fixpoint take_digits (s : str) : str * str :=
  match s with
  | c :: r =>
    if is_digit c then let '(d, rest) := take_digits r in (c :: d, rest)
    else ([], s)
  | [] => ([], [])
  end.

Definition digits_val (d : str) : Z :=
  fold_left (fun acc c => acc * 10 + (c - 0x30)) d 0.

(** [float(text)] for the decimal [digits * 10 ^ exponent]: the nearest
    binary64 value, a tie going to the even significand, and infinity
    beyond the largest finite value. *)
Definition float_of_decimal (negative : bool) (digits exponent : Z) : float64 :=
  if digits <=? 0 then FNum negative 0 0
  else
    let num := if 0 <=? exponent then digits * 10 ^ exponent else digits in
    let den := if 0 <=? exponent then 1 else 10 ^ (- exponent) in
    let l := Z.log2 num - Z.log2 den in
    let b :=
      if (if 0 <=? l then den * 2 ^ l <=? num else den <=? num * 2 ^ (- l))
      then l else l - 1 in
    let e := Z.max (b - 52) (-1074) in
    let a := if e <? 0 then num * 2 ^ (- e) else num in
    let d := if e <? 0 then den else den * 2 ^ e in
    let q := a / d in
    let r := a mod d in
    let m := if (d <? 2 * r) || ((2 * r =? d) && Z.odd q) then q + 1 else q in
    if (971 <? e) || ((e =? 971) && (2 ^ 53 <=? m)) then FInf negative
    else FNum negative m e.

(** A number: an optional minus sign, an integer part without leading
    zero, an optional fraction and an optional exponent; without fraction
    and exponent it is an [int], otherwise a [float]. *)
Definition parse_number (s : str) : option (pyval * str) :=
  let '(neg, s1) :=
    match s with
    | c :: r => if c =? 0x2D then (true, r) else (false, s)
    | [] => (false, s)
    end in
  let '(ip, s2) := take_digits s1 in
  match ip with
  | [] => None
  | d0 :: ds =>
    if (d0 =? 0x30) && negb (len ds =? 0) then None
    else
      let frac : option (option str * str) :=
        match s2 with
        | c :: r =>
          if c =? 0x2E then
            match take_digits r with
            | ([], _) => None
            | (fd, rest) => Some (Some fd, rest)
            end
          else Some (None, s2)
        | [] => Some (None, s2)
        end in
      match frac with
      | None => None
      | Some (fp, s3) =>
        let expo : option (option Z * str) :=
          match s3 with
          | c :: r =>
            if (c =? 0x65) || (c =? 0x45) then
              let '(minus, r') :=
                match r with
                | g :: r1 =>
                  if g =? 0x2B then (false, r1)
                  else if g =? 0x2D then (true, r1)
                  else (false, r)
                | [] => (false, r)
                end in
              match take_digits r' with
              | ([], _) => None
              | (ed, rest) =>
                Some (Some (if minus : bool then - digits_val ed
                            else digits_val ed), rest)
              end
            else Some (None, s3)
          | [] => Some (None, s3)
          end in
        match expo with
        | None => None
        | Some (ep, s4) =>
          match fp, ep with
          | None, None =>
            Some (PInt (if neg then - digits_val ip else digits_val ip), s4)
          | _, _ =>
            let fd := match fp with Some fd => fd | None => [] end in
            let e := match ep with Some e => e | None => 0 end in
            Some (PFloat (float_of_decimal neg (digits_val (ip ++ fd))
                                           (e - len fd)), s4)
          end
        end
      end
  end.

Fixpoint expect (lit s : str) : option str :=
  match lit, s with
  | [], _ => Some s
  | c :: lit', d :: s' => if c =? d then expect lit' s' else None
  | _ :: _, [] => None
  end.

(** One JSON value at the head of [s] (after white space) and the text
    that follows it.  [fuel] bounds the nesting depth and the number of
    members of a container. *)
Fixpoint parse_value (fuel : nat) (s : str) : option (pyval * str) :=
  match fuel with
  | O => None
  | S fuel' =>
    let elements :=
      fix elements (n : nat) (s : str) (acc : list pyval) {struct n}
        : option (pyval * str) :=
        match n with
        | O => None
        | S n' =>
          match parse_value fuel' s with
          | None => None
          | Some (v, r) =>
            match skip_ws r with
            | c :: r' =>
              if c =? 0x2C then elements n' r' (acc ++ [v])
              else if c =? 0x5D then Some (PList (acc ++ [v]), r')
              else None
            | [] => None
            end
          end
        end in
    let members :=
      fix members (n : nat) (s : str) (acc : dict) {struct n}
        : option (pyval * str) :=
        match n with
        | O => None
        | S n' =>
          match skip_ws s with
          | q :: r =>
            if q =? 0x22 then
              match parse_string (length r) r with
              | None => None
              | Some (k, r1) =>
                match skip_ws r1 with
                | c :: r2 =>
                  if c =? 0x3A then
                    match parse_value fuel' r2 with
                    | None => None
                    | Some (v, r3) =>
                      match skip_ws r3 with
                      | c' :: r4 =>
                        if c' =? 0x2C then members n' r4 (dict_set acc k v)
                        else if c' =? 0x7D then Some (PDict (dict_set acc k v), r4)
                        else None
                      | [] => None
                      end
                    end
                  else None
                | [] => None
                end
              end
            else None
          | [] => None
          end
        end in
    match skip_ws s with
    | [] => None
    | c :: r =>
      if c =? 0x7B then
        match skip_ws r with
        | c' :: r' => if c' =? 0x7D then Some (PDict [], r') else members fuel' r []
        | [] => None
        end
      else if c =? 0x5B then
        match skip_ws r with
        | c' :: r' => if c' =? 0x5D then Some (PList [], r') else elements fuel' r []
        | [] => None
        end
      else if c =? 0x22 then
        match parse_string (length r) r with
        | Some (t, rest) => Some (PStr t, rest)
        | None => None
        end
      else if c =? 0x74 then
        option_map (pair (PBool true)) (expect (u "true") (c :: r))
      else if c =? 0x66 then
        option_map (pair (PBool false)) (expect (u "false") (c :: r))
      else if c =? 0x6E then
        option_map (pair PNone) (expect (u "null") (c :: r))
      else parse_number (c :: r)
    end
  end.

(** Modelled from the spec: [json_parser] is imported from the package
    [share], which is not among the modelled files.  The spec has the
    collector "attempt to parse [the buffer] as JSON" and treats the parser
    as an injected capability, so the stages below take the parser as a
    parameter; [json_loads] is the reference parser used to run them.  It
    accepts exactly one JSON value (RFC 8259) surrounded by optional white
    space, given as UTF-8; [None] stands for ValueError. *)
Definition json_loads_str (s : str) : option pyval :=
  match parse_value (S (length s)) s with
  | Some (v, rest) =>
    match skip_ws rest with
    | [] => Some v
    | _ :: _ => None
    end
  | None => None
  end.

Definition json_loads (data : bytes) : option pyval :=
  match utf8_decode data with
  | None => None
  | Some s => json_loads_str s
  end.

End Py.

(* ===================================================================== *)
(** ** hashlib.sha256 *)
(* ===================================================================== *)

(** SHA-256 (FIPS 180-4) over 32-bit words kept in [Z], every sum reduced
    modulo [2^32]. *)
Module Hashlib.
Import Py.

Definition w32 : Z := 0x100000000.

Definition add32 (x y : Z) : Z := (x + y) mod w32.

Definition rotr (n x : Z) : Z :=
  Z.lor (Z.shiftr x n) (Z.shiftl x (32 - n) mod w32).

Definition not32 (x : Z) : Z := Z.lxor x 0xFFFFFFFF.

Definition Ch (x y z : Z) : Z := Z.lxor (Z.land x y) (Z.land (not32 x) z).

Definition Maj (x y z : Z) : Z :=
  Z.lxor (Z.lxor (Z.land x y) (Z.land x z)) (Z.land y z).

Definition Sigma0 (x : Z) : Z := Z.lxor (Z.lxor (rotr 2 x) (rotr 13 x)) (rotr 22 x).
Definition Sigma1 (x : Z) : Z := Z.lxor (Z.lxor (rotr 6 x) (rotr 11 x)) (rotr 25 x).
Definition sigma0 (x : Z) : Z := Z.lxor (Z.lxor (rotr 7 x) (rotr 18 x)) (Z.shiftr x 3).
Definition sigma1 (x : Z) : Z := Z.lxor (Z.lxor (rotr 17 x) (rotr 19 x)) (Z.shiftr x 10).

(** The constants of the standard: the first 32 bits of the fractional
    parts of the cube roots (for [K]) and of the square roots (for [H0]) of
    the first primes. *)
Fixpoint next_primes (fuel : nat) (n : Z) (found : list Z) (k : nat) : list Z :=
  match fuel, k with
  | S fuel', S k' =>
    if forallb (fun q => negb (n mod q =? 0)) found
    then next_primes fuel' (n + 1) (found ++ [n]) k'
    else next_primes fuel' (n + 1) found k
  | _, _ => found
  end.

Definition primes (k : nat) : list Z := next_primes 400 2 [] k.

(** The largest [r] between [lo] and [hi] with [r ^ 3 <= n]. *)
Fixpoint cube_root (fuel : nat) (lo hi n : Z) : Z :=
  match fuel with
  | O => lo
  | S fuel' =>
    let mid := (lo + hi) / 2 in
    if mid =? lo then lo
    else if mid * mid * mid <=? n then cube_root fuel' mid hi n
    else cube_root fuel' lo mid n
  end.

Definition K : list Z :=
  Eval vm_compute in
    map (fun q => cube_root 64 0 (2 ^ 36) (q * 2 ^ 96) mod w32) (primes 64).

Definition H0 : list Z :=
  Eval vm_compute in map (fun q => Z.sqrt (q * 2 ^ 64) mod w32) (primes 8).

(** The message followed by the bit 1, zeros, and its length in bits as a
    64-bit big-endian number, a multiple of 64 bytes in all. *)
Definition be_bytes (width : nat) (v : Z) : bytes :=
  map (fun i => byte_of (Z.shiftr v (8 * Z.of_nat i) mod 256))
      (rev (seq 0 width)).

Definition pad (msg : bytes) : bytes :=
  let l := len msg in
  let zeros := Z.to_nat ((55 - l) mod 64) in
  msg ++ [x80] ++ repeat x00 zeros ++ be_bytes 8 (8 * l).

Fixpoint words (fuel : nat) (bs : bytes) : list Z :=
  match fuel, bs with
  | S fuel', b0 :: b1 :: b2 :: b3 :: r =>
    (byte_val b0 * 0x1000000 + byte_val b1 * 0x10000 + byte_val b2 * 0x100
     + byte_val b3) :: words fuel' r
  | _, _ => []
  end.

(** The words 16..63 of the message schedule; [win] holds the sixteen
    words before the next one, oldest first. *)
Fixpoint schedule (n : nat) (win : list Z) : list Z :=
  match n with
  | O => []
  | S n' =>
    let w := add32 (add32 (sigma1 (nth 14 win 0)) (nth 9 win 0))
                   (add32 (sigma0 (nth 1 win 0)) (nth 0 win 0)) in
    w :: schedule n' (tl win ++ [w])
  end.

Definition round (st : list Z) (kw : Z * Z) : list Z :=
  match st with
  | [a; b; c; d; e; f; g; h] =>
    let t1 := add32 (add32 (add32 h (Sigma1 e)) (add32 (Ch e f g) (fst kw))) (snd kw) in
    let t2 := add32 (Sigma0 a) (Maj a b c) in
    [add32 t1 t2; a; b; c; add32 d t1; e; f; g]
  | _ => st
  end.

Fixpoint zip_add (xs ys : list Z) : list Z :=
  match xs, ys with
  | x :: xs', y :: ys' => add32 x y :: zip_add xs' ys'
  | _, _ => []
  end.

Definition compress (h : list Z) (block : list Z) : list Z :=
  let w := block ++ schedule 48 block in
  zip_add h (fold_left round (combine K w) h).

Fixpoint blocks (fuel : nat) (ws : list Z) (h : list Z) : list Z :=
  match fuel, ws with
  | S fuel', _ :: _ => blocks fuel' (skipn 16 ws) (compress h (firstn 16 ws))
  | _, _ => h
  end.

(** [hashlib.sha256(msg).digest()] *)
Definition sha256 (msg : bytes) : bytes :=
  let p := pad msg in
  let ws := words (length p) p in
  concat (map (be_bytes 4) (blocks (length ws) ws H0)).

Definition hex_digit (v : Z) : Z := if v <? 10 then 0x30 + v else 0x61 + (v - 10).

(** [hashlib.sha256(msg).hexdigest()] *)
Definition sha256_hexdigest (msg : bytes) : str :=
  concat (map (fun x => [hex_digit (byte_val x / 16); hex_digit (byte_val x mod 16)])
              (sha256 msg)).

End Hashlib.

(* ===================================================================== *)
(** ** storage/decorator.py *)
(* ===================================================================== *)

Module Decorator.
Import Py.

(** A generator is modelled by what it yields, in order, and how it ends:
    [None] when it is exhausted, [Some e] when it raises [e] after the
    yields.  A consumer sees the yielded values before the exception. *)
Definition gen (A : Type) : Type := (list A * option exn)%type.

(** The state of a [for] loop inside a generator: what was yielded so far
    and either the loop variables or the exception that ended the loop. *)
Definition loop (S A : Type) : Type := (list A * (S + exn))%type.

(** [for x in xs: body] *)
Fixpoint for_each {X S A : Type} (body : S -> X -> loop S A)
         (xs : list X) (s : S) : loop S A :=
  match xs with
  | [] => ([], inl s)
  | x :: xs' =>
    match body s x with
    | (out, inl s') =>
      let '(out', r) := for_each body xs' s' in (out ++ out', r)
    | (out, inr e) => (out, inr e)
    end
  end.

(** [for x in iterator: body] over a generator: an exception of the
    iterator reaches the loop after its last yielded value. *)
Definition for_gen {X S A : Type} (body : S -> X -> loop S A)
           (it : gen X) (s : S) : loop S A :=
  match for_each body (fst it) s, snd it with
  | (out, inl _), Some e => (out, inr e)
  | r, _ => r
  end.

(** How a generator whose body is one loop ends. *)
Definition gen_of_loop {S A : Type} (r : loop S A) : gen A :=
  match r with
  | (out, inl _) => (out, None)
  | (out, inr e) => (out, Some e)
  end.

(** The tuples every stage yields:
    [(data, starting_offset, ending_offset, newline, event_expanded_offset)]. *)
Definition item : Type := (bytes * Z * Z * bytes * option Z)%type.

(** The capabilities of the storage the stages look at.  The storage
    classes, [ProtocolMultiline] and [ExpandEventListFromField] are not
    part of the modelled files: a multiline processor is its [collect]
    method as a function of the feed, an expander is its [expand] method. *)
Definition ProtocolMultiline : Type :=
  gen (bytes * bytes) -> gen (bytes * Z * bytes).

Definition ExpandEventListFromField : Type :=
  bytes -> option pyval -> Z -> Z -> gen (bytes * Z * Z * option Z).

Record Storage : Type := {
  multiline_processor : option ProtocolMultiline;
  json_content_type : str;
  event_list_from_field_expander : option ExpandEventListFromField;
}.

Definition GetByLinesCallable : Type :=
  Storage -> Z -> bytes -> bool -> gen item.

(** *** by_lines *)

(** [for line in lines: ... yield line_encoded, starting_offset,
    ending_offset, newline, None] *)
Definition by_lines_yield (newline : bytes) (ending_offset : Z) (line : str)
  : loop Z item :=
  match utf8_encode line with
  | None => ([], inr UnicodeEncodeError)
  | Some line_encoded =>
    let starting_offset := ending_offset in
    let ending_offset := ending_offset + (len line_encoded + len newline) in
    ([(line_encoded, starting_offset, ending_offset, newline, None)],
     inl ending_offset)
  end.

(** The body of [for data, _, _, _, _ in iterator:]; the loop variables
    are [(ending_offset, unfinished_line)]. *)
Definition by_lines_body (st : Z * bytes) (it : item) : loop (Z * bytes) item :=
  let '(ending_offset, unfinished_line) := st in
  let '(data, _, _, _, _) := it in
  let unfinished_line := unfinished_line ++ data in
  match utf8_decode unfinished_line with
  | None => ([], inr UnicodeDecodeError)
  | Some decoded =>
    let lines := splitlines decoded in
    if len lines =? 0 then ([], inl (ending_offset, unfinished_line))
    else
      let newline :=
        if contains unfinished_line [CR; LF] then [CR; LF]
        else if contains unfinished_line [LF] then [LF]
        else [] in
      (* lines.pop() *)
      let popped := last lines [] in
      let lines := removelast lines in
      match utf8_encode popped with
      | None => ([], inr UnicodeEncodeError)
      | Some popped_encoded =>
        let unfinished_line :=
          if endswith unfinished_line newline
          then popped_encoded ++ newline
          else popped_encoded in
        match for_each (by_lines_yield newline) lines ending_offset with
        | (out, inl ending_offset) => (out, inl (ending_offset, unfinished_line))
        | (out, inr e) => (out, inr e)
        end
      end
  end.

(** [if len(unfinished_line) > 0: ...] after the loop. *)
Definition by_lines_rest (st : Z * bytes) : list item :=
  let '(ending_offset, unfinished_line) := st in
  if 0 <? len unfinished_line then
    let newline :=
      if endswith unfinished_line [CR; LF] then [CR; LF]
      else if endswith unfinished_line [LF] then [LF]
      else [] in
    let unfinished_line := rstrip unfinished_line newline in
    let starting_offset := ending_offset in
    let ending_offset := ending_offset + (len unfinished_line + len newline) in
    [(unfinished_line, starting_offset, ending_offset, newline, None)]
  else [].

Definition by_lines (func : GetByLinesCallable) : GetByLinesCallable :=
  fun storage range_start body is_gzipped =>
    let ending_offset := range_start in
    let unfinished_line : bytes := [] in
    let iterator := func storage range_start body is_gzipped in
    match for_gen by_lines_body iterator (ending_offset, unfinished_line) with
    | (out, inl st) => (out ++ by_lines_rest st, None)
    | (out, inr e) => (out, Some e)
    end.

(** *** multi_line *)

Definition multi_line (func : GetByLinesCallable) : GetByLinesCallable :=
  fun storage range_start body is_gzipped =>
    match multiline_processor storage with
    | None =>
      let iterator := func storage range_start body is_gzipped in
      gen_of_loop
        (for_gen (fun (_ : unit) (it : item) =>
                    let '(data, starting_offset, ending_offset, newline,
                          event_expanded_offset) := it in
                    ([(data, starting_offset, ending_offset, newline,
                       event_expanded_offset)], inl tt))
                 iterator tt)
    | Some collect =>
      let ending_offset := range_start in
      let iterator_to_multiline_feed : gen (bytes * bytes) :=
        let '(items, e) := func storage range_start body is_gzipped in
        (map (fun it : item =>
                let '(data, _, _, newline, _) := it in (data, newline)) items,
         e) in
      gen_of_loop
        (for_gen (fun (ending_offset : Z) (m : bytes * Z * bytes) =>
                    let '(multiline_data, multiline_ending_offset, newline) := m in
                    let starting_offset := ending_offset in
                    let ending_offset := ending_offset + multiline_ending_offset in
                    ([(multiline_data, starting_offset, ending_offset, newline,
                       None)], inl ending_offset))
                 (collect iterator_to_multiline_feed) ending_offset)
    end.

(** *** json_collector *)

Module JsonCollectorState.

Record t : Type := mk {
  storage : Storage;
  starting_offset : Z;
  ending_offset : Z;
  unfinished_line : bytes;
  has_an_object_start : bool;
  is_a_json_object : bool;
  is_a_json_object_circuit_broken : bool;
  is_a_json_object_circuit_breaker : Z;
}.

(** [JsonCollectorState(storage=storage)] *)
Definition init (storage : Storage) : t :=
  mk storage 0 0 [] false false false 0.

(** Attribute assignments. *)
Definition set_starting_offset (s : t) (v : Z) : t :=
  mk (storage s) v (ending_offset s) (unfinished_line s)
     (has_an_object_start s) (is_a_json_object s)
     (is_a_json_object_circuit_broken s) (is_a_json_object_circuit_breaker s).

Definition set_ending_offset (s : t) (v : Z) : t :=
  mk (storage s) (starting_offset s) v (unfinished_line s)
     (has_an_object_start s) (is_a_json_object s)
     (is_a_json_object_circuit_broken s) (is_a_json_object_circuit_breaker s).

Definition set_unfinished_line (s : t) (v : bytes) : t :=
  mk (storage s) (starting_offset s) (ending_offset s) v
     (has_an_object_start s) (is_a_json_object s)
     (is_a_json_object_circuit_broken s) (is_a_json_object_circuit_breaker s).

Definition set_has_an_object_start (s : t) (v : bool) : t :=
  mk (storage s) (starting_offset s) (ending_offset s) (unfinished_line s)
     v (is_a_json_object s)
     (is_a_json_object_circuit_broken s) (is_a_json_object_circuit_breaker s).

Definition set_is_a_json_object (s : t) (v : bool) : t :=
  mk (storage s) (starting_offset s) (ending_offset s) (unfinished_line s)
     (has_an_object_start s) v
     (is_a_json_object_circuit_broken s) (is_a_json_object_circuit_breaker s).

Definition set_is_a_json_object_circuit_broken (s : t) (v : bool) : t :=
  mk (storage s) (starting_offset s) (ending_offset s) (unfinished_line s)
     (has_an_object_start s) (is_a_json_object s)
     v (is_a_json_object_circuit_breaker s).

Definition set_is_a_json_object_circuit_breaker (s : t) (v : Z) : t :=
  mk (storage s) (starting_offset s) (ending_offset s) (unfinished_line s)
     (has_an_object_start s) (is_a_json_object s)
     (is_a_json_object_circuit_broken s) v.

End JsonCollectorState.

Section JsonCollector.
Import JsonCollectorState.

(** [json_parser] of the package [share]: [None] stands for ValueError. *)
Variable json_parser : bytes -> option pyval.

Definition _handle_offset (offset_skew : Z) (json_collector_state : t) : t :=
  let s := set_starting_offset json_collector_state
                               (ending_offset json_collector_state) in
  set_ending_offset s (ending_offset s + offset_skew).

(** [_collector]: the state after the call and the (at most one) pair it
    yields.  Every assignment to the state precedes the [yield]. *)
Definition _collector (data newline : bytes) (json_collector_state : t)
  : t * list (bytes * option pyval) :=
  let s := set_unfinished_line json_collector_state
             (unfinished_line json_collector_state ++ (data ++ newline)) in
  match json_parser (unfinished_line s) with
  | Some json_object =>
    let data_to_yield := unfinished_line s in
    let s := set_unfinished_line s [] in
    let s := _handle_offset (len data_to_yield) s in
    let s :=
      if negb (len newline =? 0)
      then set_is_a_json_object_circuit_breaker s
             (is_a_json_object_circuit_breaker s - (count data_to_yield newline - 1))
      else set_is_a_json_object_circuit_breaker s
             (is_a_json_object_circuit_breaker s - 1) in
    let data_to_yield := strip (strip data_to_yield [CR; LF]) [LF] in
    let s := set_is_a_json_object s true in
    (s, [(data_to_yield, Some json_object)])
  | None =>
    if (if is_a_json_object s
        then len (strip (strip (unfinished_line s) [CR; LF]) [LF]) =? 0
        else false)
    then
      let s := set_unfinished_line s [] in
      let s := _handle_offset (len newline) s in
      (s, [([], None)])
    else
      let s := set_is_a_json_object_circuit_breaker s
                 (is_a_json_object_circuit_breaker s + 1) in
      let s :=
        if 1000 <? is_a_json_object_circuit_breaker s
        then set_is_a_json_object_circuit_broken s true
        else s in
      (s, [])
  end.

(** [_by_lines_fallback]: each line the inner [by_lines] yields, with its
    newline and the state as it is at that [yield] (the caller reads the
    offsets of the state before the generator is resumed). *)
Definition _by_lines_fallback (json_collector_state : t)
  : loop t (bytes * bytes * t) :=
  let wrapper : GetByLinesCallable :=
    by_lines (fun storage range_start body is_gzipped =>
                let data_to_yield := body in
                ([(data_to_yield, 0, range_start, [], None)], None)) in
  for_gen (fun (s : t) (it : item) =>
             let '(line, _, _, newline, _) := it in
             let s := _handle_offset (len line + len newline) s in
             let s := set_unfinished_line s [] in
             let s := set_has_an_object_start s false in
             ([(line, newline, s)], inl s))
          (wrapper (storage json_collector_state)
                   (ending_offset json_collector_state)
                   (unfinished_line json_collector_state)
                   false)
          json_collector_state.

(** [for line, _, _, newline, _ in _by_lines_fallback(json_collector_state):
       yield line, json_collector_state.starting_offset,
             json_collector_state.ending_offset, newline, None] *)
Definition yield_fallback (json_collector_state : t) : loop t item :=
  let '(lines, r) := _by_lines_fallback json_collector_state in
  (map (fun x : bytes * bytes * t =>
          let '(line, newline, s) := x in
          (line, starting_offset s, ending_offset s, newline, None)) lines,
   r).

(** The body of the [for] loop of the ndjson branch of [wrapper]. *)
Definition collect_body (event_list_from_field_expander : option ExpandEventListFromField)
           (json_collector_state : t) (it : item) : loop t item :=
  let '(data, starting_offset', ending_offset', newline, _) := it in
  let forwarded : loop t item :=
    if negb (has_an_object_start json_collector_state) then
      match utf8_decode data with
      | None => ([], inr UnicodeDecodeError)
      | Some decoded =>
        let stripped_data := str_lstrip decoded in
        let s :=
          if (0 <? len stripped_data) && (hd 0 stripped_data =? 0x7B)
          then set_has_an_object_start json_collector_state true
          else json_collector_state in
        if negb (has_an_object_start s) then
          ([(data, starting_offset', ending_offset', newline, None)],
           inl (_handle_offset (len data + len newline) s))
        else ([], inl s)
      end
    else ([], inl json_collector_state) in
  match forwarded with
  | (out, inr e) => (out, inr e)
  | (out, inl s) =>
    if has_an_object_start s then
      let '(s, collected) := _collector data newline s in
      let yielded : loop unit item :=
        for_each
          (fun (_ : unit) (c : bytes * option pyval) =>
             let '(data_to_yield, json_object) := c in
             match event_list_from_field_expander with
             | Some expand =>
               let '(expanded, e) :=
                 expand data_to_yield json_object
                        (starting_offset s) (ending_offset s) in
               (map (fun x : bytes * Z * Z * option Z =>
                       let '(expanded_log_event, expanded_starting_offset,
                             expanded_ending_offset, expanded_event_n) := x in
                       (expanded_log_event, expanded_starting_offset,
                        expanded_ending_offset, newline, expanded_event_n))
                    expanded,
                match e with Some e => inr e | None => inl tt end)
             | None =>
               ([(data_to_yield, starting_offset s, ending_offset s, newline,
                  None)], inl tt)
             end)
          collected tt in
      match yielded with
      | (out', inr e) => (out ++ out', inr e)
      | (out', inl _) =>
        if is_a_json_object_circuit_broken s then
          let '(out'', r) := yield_fallback s in
          (out ++ out' ++ out'', r)
        else (out ++ out', inl s)
      end
    else (out, inl s)
  end.

(** [newline.join(parts)] *)
Fixpoint join (newline : bytes) (parts : list bytes) : bytes :=
  match parts with
  | [] => []
  | [x] => x
  | x :: rest => x ++ newline ++ join newline rest
  end.

Definition is_some {A : Type} (o : option A) : bool :=
  match o with Some _ => true | None => false end.

Definition json_collector (func : GetByLinesCallable) : GetByLinesCallable :=
  fun storage range_start body is_gzipped =>
    let json_collector_state := init storage in
    let multiline_processor := multiline_processor storage in
    if str_eqb (json_content_type storage) (u "disabled")
       || is_some multiline_processor
    then
      let iterator := func storage range_start body is_gzipped in
      gen_of_loop
        (for_gen (fun (_ : unit) (it : item) =>
                    let '(data, starting_offset, ending_offset, newline, _) := it in
                    ([(data, starting_offset, ending_offset, newline, None)],
                     inl tt))
                 iterator tt)
    else
      let event_list_from_field_expander := event_list_from_field_expander storage in
      let json_collector_state :=
        set_ending_offset json_collector_state range_start in
      let iterator := func storage range_start body is_gzipped in
      let collected : loop t item :=
        if str_eqb (json_content_type storage) (u "single")
           && negb (is_some event_list_from_field_expander)
        then
          match iterator with
          | (_, Some e) => ([], inr e)
          | (single, None) =>
            match single with
            | [] => ([], inr IndexError)
            | (_, starting_offset, _, newline, _) :: _ =>
              let '(_, _, ending_offset, _, _) :=
                last single ([], 0, 0, [], None) in
              let data_to_yield :=
                join newline
                     (map (fun x : item => let '(d, _, _, _, _) := x in d) single) in
              ([(data_to_yield, starting_offset, ending_offset, newline, None)],
               inl json_collector_state)
            end
          end
        else
          for_gen (collect_body event_list_from_field_expander)
                  iterator json_collector_state in
      match collected with
      | (out, inr e) => (out, Some e)
      | (out, inl json_collector_state) =>
        if negb (is_a_json_object json_collector_state) then
          let '(out', r) := yield_fallback json_collector_state in
          (out ++ out', match r with inr e => Some e | inl _ => None end)
        else (out, None)
      end.

End JsonCollector.

(** *** inflate *)

Section Inflate.

(** [gzip.GzipFile(fileobj=data)], [seek(range_start)] and the loop of
    [read(CHUNK_SIZE)] until an empty chunk: the inflated chunks from
    [range_start] on.  The gzip format itself is outside this development. *)
Variable gzip_chunks : bytes -> Z -> gen bytes.

Definition inflate (func : GetByLinesCallable) : GetByLinesCallable :=
  fun storage range_start body is_gzipped =>
    let iterator := func storage range_start body is_gzipped in
    gen_of_loop
      (for_gen (fun (_ : unit) (it : item) =>
                  let '(data, _, _, _, _) := it in
                  if is_gzipped then
                    let '(chunks, e) := gzip_chunks data range_start in
                    (map (fun inflated_chunk : bytes =>
                            (inflated_chunk, 0, 0, [], None)) chunks,
                     match e with Some e => inr e | None => inl tt end)
                  else ([(data, 0, 0, [], None)], inl tt))
               iterator tt).

End Inflate.

End Decorator.

(* ===================================================================== *)
(** ** handlers/aws/utils.py *)
(* ===================================================================== *)

Module Utils.
Import Py.
Local Open Scope result_scope.

Definition _available_triggers : list (str * str) :=
  [(u "aws:sqs", u "sqs")].

Definition _from_s3_uri_to_bucket_name_and_object_key (s3_uri : str)
  : result (str * str) :=
  if negb (str_startswith s3_uri (u "s3://")) then
    inr (ValueError (u "Invalid s3 uri provided: " ++ s3_uri))
  else
    let s3_uri := str_strip_chars s3_uri (u "s3://") in
    let bucket_name_and_object_key := str_split1 s3_uri (u "/") in
    if negb (len bucket_name_and_object_key =? 2) then
      inr (ValueError (u "Invalid s3 uri provided: " ++ s3_uri))
    else
      inl (nth 0 bucket_name_and_object_key [],
           nth 1 bucket_name_and_object_key []).

(** [_enrich_event]: the event dictionary is changed in place; the model
    returns the dictionary as the call leaves it, and how the call ends. *)
Definition _enrich_event (event : dict) (event_type dataset namespace : str)
  : dict * result unit :=
  let event :=
    dict_set event (u "data_stream")
             (PDict [(u "type", PStr event_type);
                     (u "dataset", PStr dataset);
                     (u "namespace", PStr namespace)]) in
  match (fields <- py_getitem (PDict event) (PStr (u "fields")) ;;
         py_getitem fields (PStr (u "message"))) with
  | inr e => (event, inr e)
  | inl message =>
    let event :=
      dict_set event (u "event")
               (PDict [(u "dataset", PStr dataset); (u "original", message)]) in
    let event :=
      dict_set event (u "tags")
               (PList [PStr (u "preserve_original_event"); PStr (u "forwarded");
                       PStr (str_replace1 dataset 0x2E (u "-"))]) in
    (event, inl tt)
  end.

(** [bucket_arn.split(":")[-1]] *)
Definition _get_bucket_name_from_arn (bucket_arn : str) : str :=
  last (str_split_char bucket_arn 0x3A) [].

(** [k in _available_triggers] and [_available_triggers[k]] *)
Fixpoint trigger_lookup (l : list (str * str)) (k : str) : option str :=
  match l with
  | [] => None
  | (k', v) :: l' => if str_eqb k' k then Some v else trigger_lookup l' k
  end.

Definition _get_trigger_type (event : dict) : result str :=
  (* if "Records" not in event and len(event["Records"]) < 1 *)
  guard <-
    (if negb (dict_in (u "Records") event) then
       records <- py_getitem (PDict event) (PStr (u "Records")) ;;
       n <- py_len records ;;
       inl (n <? 1)
     else inl false) ;;
  if guard : bool then inr (Exception (u "Not supported trigger"))
  else
    records <- py_getitem (PDict event) (PStr (u "Records")) ;;
    record <- py_getitem records (PInt 0) ;;
    has_source <- py_in (PStr (u "eventSource")) record ;;
    if negb has_source then inr (Exception (u "Not supported trigger"))
    else
      records <- py_getitem (PDict event) (PStr (u "Records")) ;;
      record <- py_getitem records (PInt 0) ;;
      event_source <- py_getitem record (PStr (u "eventSource")) ;;
      (* event_source not in _available_triggers *)
      known <-
        match event_source with
        | PStr k => inl (trigger_lookup _available_triggers k)
        | _ => if hashable event_source then inl None else inr TypeError
        end ;;
      match known with
      | None => inr (Exception (u "Not supported trigger"))
      | Some trigger_type =>
        if negb (str_eqb trigger_type (u "sqs")) then inl trigger_type
        else
          record <- py_getitem records (PInt 0) ;;
          has_attributes <- py_in (PStr (u "messageAttributes")) record ;;
          if negb has_attributes then inl trigger_type
          else
            attributes <- py_getitem record (PStr (u "messageAttributes")) ;;
            has_original <- py_in (PStr (u "originalEventSource")) attributes ;;
            if negb has_original then inl trigger_type
            else inl (u "self_sqs")
      end.

End Utils.

(* ===================================================================== *)
(** ** shippers/es.py *)
(* ===================================================================== *)

Module Es.
Import Py.

(** Event dictionaries are objects the caller and the shipper share: they
    live in a heap and are passed by reference. *)
Definition ref : Type := nat.

(** What the shipper does to the outside: a bulk request (the actions as
    they are when the request is made, and the keyword arguments), and a
    call of the replay handler. *)
Inductive effect : Type :=
| EsBulk (actions : list dict) (kwargs : dict)
| Replay (handler : nat) (shipper_kind : str) (replay_args : dict) (action : dict).

(** The attributes of an [ElasticsearchShipper].  [_es_index] is [None]
    as long as the attribute does not exist; a replay handler is known by
    a name. *)
Record ElasticsearchShipper : Type := mkShipper {
  _bulk_actions : list ref;
  _bulk_batch_size : Z;
  _bulk_kwargs : dict;
  _replay_args : dict;
  _replay_handler : option nat;
  _dataset : str;
  _namespace : str;
  _tags : list str;
  _es_index : option str;
}.

Definition set_bulk_actions (s : ElasticsearchShipper) (v : list ref) :=
  mkShipper v (_bulk_batch_size s) (_bulk_kwargs s) (_replay_args s)
            (_replay_handler s) (_dataset s) (_namespace s) (_tags s) (_es_index s).

Definition set_replay_args (s : ElasticsearchShipper) (v : dict) :=
  mkShipper (_bulk_actions s) (_bulk_batch_size s) (_bulk_kwargs s) v
            (_replay_handler s) (_dataset s) (_namespace s) (_tags s) (_es_index s).

Definition set_replay_handler_attr (s : ElasticsearchShipper) (v : option nat) :=
  mkShipper (_bulk_actions s) (_bulk_batch_size s) (_bulk_kwargs s) (_replay_args s)
            v (_dataset s) (_namespace s) (_tags s) (_es_index s).

Definition set_dataset (s : ElasticsearchShipper) (v : str) :=
  mkShipper (_bulk_actions s) (_bulk_batch_size s) (_bulk_kwargs s) (_replay_args s)
            (_replay_handler s) v (_namespace s) (_tags s) (_es_index s).

Definition set_es_index (s : ElasticsearchShipper) (v : option str) :=
  mkShipper (_bulk_actions s) (_bulk_batch_size s) (_bulk_kwargs s) (_replay_args s)
            (_replay_handler s) (_dataset s) (_namespace s) (_tags s) v.

Record World : Type := mkWorld {
  self : ElasticsearchShipper;
  heap : list dict;
  trace : list effect;
}.

(** Methods run in a state monad with exceptions: what was assigned
    before an exception stays assigned. *)
Definition M (A : Type) : Type := World -> World * result A.

Definition ret {A : Type} (x : A) : M A := fun w => (w, inl x).
Definition raise {A : Type} (e : exn) : M A := fun w => (w, inr e).
Definition lift {A : Type} (r : result A) : M A := fun w => (w, r).

Definition mbind {A B : Type} (m : M A) (k : A -> M B) : M B :=
  fun w =>
    match m w with
    | (w', inl x) => k x w'
    | (w', inr e) => (w', inr e)
    end.

Declare Scope shipper_scope.
Delimit Scope shipper_scope with shipper.
Notation "x <- m ;; k" := (mbind m (fun x => k))
  (at level 61, m at next level, right associativity) : shipper_scope.
Notation "m ;; k" := (mbind m (fun _ => k))
  (at level 61, right associativity) : shipper_scope.
Local Open Scope shipper_scope.

Definition get_self : M ElasticsearchShipper := fun w => (w, inl (self w)).

Definition put_self (s : ElasticsearchShipper) : M unit :=
  fun w => (mkWorld s (heap w) (trace w), inl tt).

Definition load (r : ref) : M dict := fun w => (w, inl (nth r (heap w) [])).

Fixpoint update (h : list dict) (r : ref) (d : dict) : list dict :=
  match h, r with
  | [], _ => []
  | _ :: h', O => d :: h'
  | x :: h', S r' => x :: update h' r' d
  end.

Definition store (r : ref) (d : dict) : M unit :=
  fun w => (mkWorld (self w) (update (heap w) r d) (trace w), inl tt).

Definition emit (e : effect) : M unit :=
  fun w => (mkWorld (self w) (heap w) (trace w ++ [e]), inl tt).

(** [obj[key] = value] on a dictionary of the heap *)
Definition setitem (r : ref) (key : str) (value : pyval) : M unit :=
  d <- load r ;; store r (dict_set d key value).

(** [for x in xs: body] *)
Fixpoint for_M {X : Type} (body : X -> M unit) (xs : list X) : M unit :=
  match xs with
  | [] => ret tt
  | x :: xs' => body x ;; for_M body xs'
  end.

(** [[x for x in xs if cond]] *)
Fixpoint filter_M {X : Type} (cond : X -> M bool) (xs : list X) : M (list X) :=
  match xs with
  | [] => ret []
  | x :: xs' =>
    c <- cond x ;;
    rest <- filter_M cond xs' ;;
    ret (if c : bool then x :: rest else rest)
  end.

Definition key (s : string) : pyval := PStr (u s).

(** The keyword arguments the client of the [elasticsearch] package is
    constructed with; a field is [None] when the keyword is not passed. *)
Record ClientKwargs : Type := mkClientKwargs {
  kw_hosts : option (list str);
  kw_cloud_id : option str;
  kw_http_auth : option (str * str);
  kw_api_key : option str;
  kw_timeout : option Z;
  kw_max_retries : option Z;
  kw_retry_on_timeout : option bool;
}.

Section Client.

(** [Elasticsearch], the constructor of the client class, called with
    keyword arguments: it returns the client or raises, for instance on a
    cloud id it cannot read.  The client it returns is what [es_bulk]
    below talks to. *)
Variable Elasticsearch : ClientKwargs -> result unit.

(** [_elasticsearch_client] *)
Definition _elasticsearch_client (es_client_kwargs : ClientKwargs) : result unit :=
  Elasticsearch
    (mkClientKwargs (kw_hosts es_client_kwargs) (kw_cloud_id es_client_kwargs)
                    (kw_http_auth es_client_kwargs) (kw_api_key es_client_kwargs)
                    (Some 30) (Some 10) (Some true)).

(** [__init__]: the shipper as constructed, or the exception raised. *)
Definition __init__ (elasticsearch_url username password cloud_id api_key
                     dataset namespace : str) (tags : list str)
           (batch_max_actions batch_max_bytes : Z)
  : result ElasticsearchShipper :=
  let _bulk_kwargs : dict :=
    [(u "max_retries", PInt 10); (u "stats_only", PBool false);
     (u "raise_on_error", PBool false); (u "raise_on_exception", PBool false);
     (u "max_chunk_bytes", PInt batch_max_bytes)] in
  let _bulk_kwargs :=
    if 0 <? batch_max_actions
    then dict_set _bulk_kwargs (u "chunk_size") (PInt batch_max_actions)
    else _bulk_kwargs in
  (es_client_kwargs <-
     (if 0 <? len elasticsearch_url then
        inl (mkClientKwargs (Some [elasticsearch_url]) None None None None None None)
      else if 0 <? len cloud_id then
        inl (mkClientKwargs None (Some cloud_id) None None None None None)
      else
        inr (ValueError
               (u "You must provide one between elasticsearch_url or cloud_id"))) ;;
   es_client_kwargs <-
     (if 0 <? len username then
        inl (mkClientKwargs (kw_hosts es_client_kwargs) (kw_cloud_id es_client_kwargs)
                            (Some (username, password)) None None None None)
      else if 0 <? len api_key then
        inl (mkClientKwargs (kw_hosts es_client_kwargs) (kw_cloud_id es_client_kwargs)
                            None (Some api_key) None None None)
      else
        inr (ValueError
               (u "You must provide one between username and password or api_key"))) ;;
   _ <- _elasticsearch_client es_client_kwargs ;;
   inl (mkShipper [] batch_max_actions _bulk_kwargs [] None
                  dataset namespace tags None))%result.

End Client.

(** [v[k]] for a key that is a literal *)
Definition at_ (v : pyval) (k : string) : result pyval := py_getitem v (key k).

(** [_s3_object_id]: a static method, it reads the event and nothing else.
    The f-string that joins [bucket_arn] and [object_key] is modelled for
    [str] values, which is what the annotations of the source make them. *)
Definition _s3_object_id (event_payload : dict) : result str :=
 (offset <- bind (bind (at_ (PDict event_payload) "fields")
                       (fun v => at_ v "log"))
                 (fun v => at_ v "offset") ;;
  bucket_arn <- bind (bind (bind (bind (at_ (PDict event_payload) "fields")
                                       (fun v => at_ v "aws"))
                                 (fun v => at_ v "s3"))
                           (fun v => at_ v "bucket"))
                     (fun v => at_ v "arn") ;;
  object_key <- bind (bind (bind (bind (at_ (PDict event_payload) "fields")
                                       (fun v => at_ v "aws"))
                                 (fun v => at_ v "s3"))
                           (fun v => at_ v "object"))
                     (fun v => at_ v "key") ;;
  src <- match bucket_arn, object_key with
         | PStr a, PStr k => inl (a ++ k)
         | _, _ => inr NotModelled
         end ;;
  encoded <- match utf8_encode src with
             | Some x => inl x
             | None => inr UnicodeEncodeError
             end ;;
  let hex_prefix := firstn 10 (Hashlib.sha256_hexdigest encoded) in
  formatted <- match offset with
               | PInt v => inl (format_012d v)
               | PBool v => inl (format_012d (if v then 1 else 0))
               | PStr _ =>
                 inr (ValueError (u "Unknown format code 'd' for object of type 'str'"))
               | PFloat _ =>
                 inr (ValueError (u "Unknown format code 'd' for object of type 'float'"))
               | _ => inr TypeError
               end ;;
  inl (hex_prefix ++ u "-" ++ formatted))%result.

(** [_enrich_event] *)
Definition _enrich_event (event_payload : ref) : M unit :=
  s <- get_self ;;
  setitem event_payload (u "data_stream")
          (PDict [(u "type", PStr (u "logs"));
                  (u "dataset", PStr (_dataset s));
                  (u "namespace", PStr (_namespace s))]) ;;
  e <- load event_payload ;;
  message <- lift (bind (at_ (PDict e) "fields") (fun v => at_ v "message")) ;;
  setitem event_payload (u "event")
          (PDict [(u "dataset", PStr (_dataset s)); (u "original", message)]) ;;
  setitem event_payload (u "tags")
          (PList (map PStr ([u "preserve_original_event"; u "forwarded";
                             str_replace1 (_dataset s) 0x2E (u "-")]
                            ++ _tags s))).

Definition set_replay_handler (replay_handler : nat) : M unit :=
  s <- get_self ;;
  put_self (set_replay_handler_attr s (Some replay_handler)).

Section Bulk.

(** [elasticsearch.helpers.bulk]: what the cluster answers to a bulk
    request, [(success, errors)]; with [stats_only=False] the second
    component is a list. *)
Variable es_bulk : list dict -> dict -> Z * list pyval.

(** [es_bulk(self._es_client, self._bulk_actions, **self._bulk_kwargs)] *)
Definition call_es_bulk : M (Z * list pyval) :=
  s <- get_self ;;
  actions <- (fun w => (w, inl (map (fun r => nth r (heap w) []) (_bulk_actions s)))) ;;
  emit (EsBulk actions (_bulk_kwargs s)) ;;
  ret (es_bulk actions (_bulk_kwargs s)).

(** [_handle_outcome] *)
Definition _handle_outcome (errors : Z * list pyval) : M unit :=
  let success := fst errors in
  let failed := len (snd errors) in
  for_M (fun error : pyval =>
           s <- get_self ;;
           action_failed <-
             filter_M (fun action : ref =>
                         a <- load action ;;
                         lift (bind (at_ (PDict a) "_id") (fun id =>
                               bind (bind (at_ error "create")
                                          (fun c => at_ c "_id")) (fun error_id =>
                               inl (py_eq id error_id)))))
                      (_bulk_actions s) ;;
           if negb (len action_failed =? 1) then raise AssertionError
           else
             match _replay_handler s with
             | Some handler =>
               a <- load (hd O action_failed) ;;
               emit (Replay handler (u "elasticsearch") (_replay_args s) a)
             | None => ret tt
             end)
        (snd errors).

(** [send] *)
Definition send (event : ref) : M unit :=
  s <- get_self ;;
  put_self (set_replay_args s (dict_set (_replay_args s) (u "dataset")
                                        (PStr (_dataset s)))) ;;
  _enrich_event event ;;
  s <- get_self ;;
  if match _es_index s with
     | None => true
     | Some index => str_eqb index []
     end
  then raise (ValueError (u "Elasticsearch index cannot be empty"))
  else
    setitem event (u "_op_type") (PStr (u "create")) ;;
    e <- load event ;;
    (if negb (dict_in (u "_index") e)
     then setitem event (u "_index")
                  (PStr (match _es_index s with Some i => i | None => [] end))
     else ret tt) ;;
    e <- load event ;;
    (if negb (dict_in (u "_id") e)
     then id <- lift (_s3_object_id e) ;; setitem event (u "_id") (PStr id)
     else ret tt) ;;
    s <- get_self ;;
    put_self (set_bulk_actions s (_bulk_actions s ++ [event])) ;;
    s <- get_self ;;
    if len (_bulk_actions s) <? _bulk_batch_size s then ret tt
    else
      errors <- call_es_bulk ;;
      _handle_outcome errors ;;
      s <- get_self ;;
      put_self (set_bulk_actions s []).

(** [flush] *)
Definition flush : M unit :=
  s <- get_self ;;
  (if 0 <? len (_bulk_actions s)
   then errors <- call_es_bulk ;; _handle_outcome errors
   else ret tt) ;;
  s <- get_self ;;
  put_self (set_bulk_actions s []).

End Bulk.

(** [sub in v] for a literal [sub]; [x or y] *)
Definition has_in (v : pyval) (sub : string) : result bool := py_in (key sub) v.

Definition any2 (x y : result bool) : result bool :=
  bind x (fun c => if c : bool then inl true else y).

Section Json.

(** [json.loads] of the standard library: the object it returns for the
    body, or the exception it raises. *)
Variable json_loads : pyval -> result pyval.

(** [discover_dataset] *)
Definition discover_dataset (event : dict) : M unit :=
  s <- get_self ;;
  (if str_eqb (_dataset s) [] then
     body <- lift (bind (bind (at_ (PDict event) "Records")
                              (fun v => py_getitem v (PInt 0)))
                        (fun v => at_ v "body")) ;;
     json_body <- lift (json_loads body) ;;
     has_records <- lift (bind (py_in (key "Records") json_body) (fun c =>
                          if c : bool
                          then bind (bind (at_ json_body "Records") py_len)
                                    (fun n => inl (0 <? n))
                          else inl false)) ;;
     s3_object_key <-
       (if has_records : bool then
          has_s3 <- lift (bind (bind (at_ json_body "Records")
                                     (fun v => py_getitem v (PInt 0)))
                               (py_in (key "s3"))) ;;
          if has_s3 : bool then
            lift (bind (bind (bind (bind (at_ json_body "Records")
                                         (fun v => py_getitem v (PInt 0)))
                                   (fun v => at_ v "s3"))
                             (fun v => at_ v "object"))
                       (fun v => at_ v "key"))
          else ret (PStr [])
        else ret (PStr [])) ;;
     if py_eq s3_object_key (PStr []) then put_self (set_dataset s (u "generic"))
     else
       dataset <- lift
         (bind (any2 (has_in s3_object_key "/CloudTrail/")
                     (any2 (has_in s3_object_key "/CloudTrail-Digest/") (has_in s3_object_key "/CloudTrail-Insight/")))
               (fun c => if c : bool then inl (u "aws.cloudtrail") else
          bind (any2 (has_in s3_object_key "exportedlogs") (has_in s3_object_key "awslogs"))
               (fun c => if c : bool then inl (u "aws.cloudwatch_logs") else
          bind (has_in s3_object_key "/elasticloadbalancing/")
               (fun c => if c : bool then inl (u "aws.elb_logs") else
          bind (has_in s3_object_key "/network-firewall/")
               (fun c => if c : bool then inl (u "aws.firewall_logs") else
          bind (has_in s3_object_key "lambda")
               (fun c => if c : bool then inl (u "aws.lambda") else
          bind (has_in s3_object_key "/SMSUsageReports/")
               (fun c => if c : bool then inl (u "aws.sns") else
          bind (has_in s3_object_key "/StorageLens/")
               (fun c => if c : bool then inl (u "aws.s3_storage_lens") else
          bind (has_in s3_object_key "/vpcflowlogs/")
               (fun c => if c : bool then inl (u "aws.vpcflow") else
          bind (has_in s3_object_key "/WAFLogs/")
               (fun c => if c : bool then inl (u "aws.waf")
                         else inl (u "generic"))))))))))) ;;
       put_self (set_dataset s dataset)
   else ret tt) ;;
  s <- get_self ;;
  put_self (set_es_index s
              (Some (u "logs-" ++ _dataset s ++ u "-" ++ _namespace s))).

End Json.

End Es.

(* ===================================================================== *)
(** ** Inputs of the scenarios *)
(* ===================================================================== *)

Module Scenarios.
Import Py Es Decorator.

(** *** The decoding stack *)

(** A storage whose reader yields the given chunks of an object that is
    not gzipped, and the stack of decorators over it. *)
Definition reader (chunks : list bytes) : GetByLinesCallable :=
  fun _ _ _ _ => (map (fun c : bytes => (c, 0, 0, [], None)) chunks, None).

Definition no_gzip : bytes -> Z -> gen bytes := fun _ _ => ([], None).

Definition storage_of (json_content_type : string) : Storage :=
  {| multiline_processor := None;
     json_content_type := u json_content_type;
     event_list_from_field_expander := None |}.

Definition get_by_lines (json_parser : bytes -> option pyval)
           (json_content_type : string) (chunks : list bytes)
           (range_start : Z) : gen item :=
  json_collector json_parser
    (multi_line (by_lines (inflate no_gzip (reader chunks))))
    (storage_of json_content_type) range_start [] false.

(** The loop of the ndjson branch of [json_collector] (no expander) over
    the records of the stages below, from the state the wrapper starts
    with. *)
Definition upstream (chunks : list bytes) (range_start : Z) : gen item :=
  multi_line (by_lines (inflate no_gzip (reader chunks)))
             (storage_of "ndjson") range_start [] false.

Definition collector_start (range_start : Z) : JsonCollectorState.t :=
  JsonCollectorState.set_ending_offset
    (JsonCollectorState.init (storage_of "ndjson")) range_start.

Definition collector_run (json_parser : bytes -> option pyval)
           (chunks : list bytes) (range_start : Z)
  : loop JsonCollectorState.t item :=
  for_gen (collect_body json_parser None) (upstream chunks range_start)
          (collector_start range_start).

Definition item_data (it : item) : bytes := let '(d, _, _, _, _) := it in d.
Definition item_start (it : item) : Z := let '(_, s, _, _, _) := it in s.
Definition item_end (it : item) : Z := let '(_, _, e, _, _) := it in e.
Definition item_newline (it : item) : bytes := let '(_, _, _, n, _) := it in n.

(** The records follow each other from [start]: each starts where the one
    before ended and ends [len(payload) + len(newline)] further. *)
Fixpoint chained (start : Z) (items : list item) : Prop :=
  match items with
  | [] => True
  | it :: rest =>
    item_start it = start
    /\ item_end it = item_start it + (len (item_data it) + len (item_newline it))
    /\ chained (item_end it) rest
  end.

(** The sum of [len(payload) + len(newline)] over the records. *)
Definition span (items : list item) : Z :=
  fold_right (fun it acc => len (item_data it) + len (item_newline it) + acc)
             0 items.

(** The terminator [by_lines] gives to every line it splits off a buffer. *)
Definition detected_newline (buffer : bytes) : bytes :=
  if contains buffer [CR; LF] then [CR; LF]
  else if contains buffer [LF] then [LF]
  else [].

(** Text in UTF-8 whose only line boundary is the line feed. *)
Definition lf_only (s : str) : bool :=
  forallb (fun c => negb (is_linebreak c) || (c =? 0x0A)) s.

Definition lf_text (chunk : bytes) : bool :=
  match utf8_decode chunk with
  | Some s => lf_only s
  | None => false
  end.

(** [bs] is the UTF-8 form of the character [c]: [str.encode] writes it,
    [bytes.decode] reads it back in front of any text, and only an ASCII
    character has a byte below 128. *)
Definition encodes (bs : bytes) (c : Z) : Prop :=
  utf8_encode_cp c = Some bs
  /\ (forall rest, utf8_decode (bs ++ rest) = option_map (cons c) (utf8_decode rest))
  /\ ((0 <= c < 128 /\ bs = [byte_of c])
      \/ (128 <= c /\ Forall (fun x => 128 <= byte_val x) bs)).

(** [l] is the UTF-8 form of the text [s], character by character. *)
Inductive Utf8 : bytes -> str -> Prop :=
| Utf8_nil : Utf8 [] []
| Utf8_cons (bs : bytes) (c : Z) (l : bytes) (s : str) :
    encodes bs c -> Utf8 l s -> Utf8 (bs ++ l) (c :: s).

(** The lines of a buffer whose only line boundary is the line feed,
    split on the bytes. *)
Fixpoint lines_lf (l : bytes) : list bytes :=
  match l with
  | [] => []
  | x :: r =>
    if byte_eqb x LF then [] :: lines_lf r
    else
      match lines_lf r with
      | [] => [[x]]
      | a :: ls => (x :: a) :: ls
      end
  end.

(** [a LF bb CR LF ccc], the two lines of ndjson, and a line that only looks
    like JSON. *)
Definition mixed_newlines : bytes :=
  b "a" ++ [LF] ++ b "bb" ++ [CR; LF] ++ b "ccc".

Definition object_x : bytes := b "{" ++ [DQ] ++ b "x" ++ [DQ] ++ b ":1}".
Definition object_y : bytes := b "{" ++ [DQ] ++ b "y" ++ [DQ] ++ b ":2}".
Definition two_objects : bytes := object_x ++ [LF] ++ object_y ++ [LF].

Definition not_json : bytes := b "{not json at all".

Fixpoint times (n : nat) (x : bytes) : bytes :=
  match n with
  | O => []
  | S n' => x ++ times n' x
  end.

(** 2000 lines that only look like JSON, and the records the spec expects
    for them. *)
Definition not_json_2000 : bytes := times 2000 (not_json ++ [LF]).

Definition not_json_records (n : nat) : list item :=
  map (fun i => (not_json, 17 * Z.of_nat i, 17 * Z.of_nat i + 17, [LF], None))
      (seq 0 n).

(** The state of the collector when these 2000 lines have been read. *)
Definition not_json_final : JsonCollectorState.t :=
  JsonCollectorState.mk (storage_of "ndjson") 33983 34000 []
                        false false true 2000.

(** 1100 objects [{}] and then 2000 lines [{], all ended by a carriage
    return alone; the records of the objects, the state of the collector
    after the objects, and its state at the end. *)
Definition cr_objects_then_braces : bytes :=
  times 1100 (b "{}" ++ [CR]) ++ times 2000 (b "{" ++ [CR]).

Definition cr_object_records : list item :=
  map (fun i => (b "{}", 2 * Z.of_nat i, 2 * Z.of_nat i + 2, [], None))
      (seq 0 1100).

Definition after_cr_objects : JsonCollectorState.t :=
  JsonCollectorState.mk (storage_of "ndjson") 2198 2200 []
                        true true false (-1100).

Definition after_cr_braces : JsonCollectorState.t :=
  JsonCollectorState.mk (storage_of "ndjson") 2198 2200 (times 2000 (b "{"))
                        true true false 900.

(** *** The trigger events of the classifier's border cases *)
Definition no_records : dict := [].
Definition empty_records : dict := [(u "Records", PList [])].

Definition sqs_record (attributes : option dict) : dict :=
  (u "eventSource", PStr (u "aws:sqs")) ::
  match attributes with
  | Some a => [(u "messageAttributes", PDict a)]
  | None => []
  end.

Definition trigger_event (record : dict) : dict :=
  [(u "Records", PList [PDict record])].

(** An event document as the handler builds it for a line of an S3
    object. *)
Definition s3_event (bucket_arn object_key : string) (offset : Z)
           (message : string) : dict :=
  [(u "fields",
    PDict [(u "message", PStr (u message));
           (u "log", PDict [(u "offset", PInt offset)]);
           (u "aws",
            PDict [(u "s3",
                    PDict [(u "bucket", PDict [(u "arn", PStr (u bucket_arn))]);
                           (u "object", PDict [(u "key", PStr (u object_key))])])])])].

(** [v[k1][k2]...] *)
Fixpoint path (v : pyval) (keys : list string) : result pyval :=
  match keys with
  | [] => inl v
  | k :: keys' => bind (Es.at_ v k) (fun x => path x keys')
  end.

(** The spec's "zero-padded to [width] decimal digits". *)
Definition zero_pad (width : nat) (digits : str) : str :=
  repeat 0x30 (width - length digits) ++ digits.

(** The event after [_enrich_event] of shipper [s]. *)
Definition enriched (s : Es.ElasticsearchShipper) (e : dict) (message : pyval)
  : dict :=
  dict_set
    (dict_set
       (dict_set e (u "data_stream")
                 (PDict [(u "type", PStr (u "logs"));
                         (u "dataset", PStr (Es._dataset s));
                         (u "namespace", PStr (Es._namespace s))]))
       (u "event")
       (PDict [(u "dataset", PStr (Es._dataset s)); (u "original", message)]))
    (u "tags")
    (PList (map PStr ([u "preserve_original_event"; u "forwarded";
                       str_replace1 (Es._dataset s) 0x2E (u "-")]
                      ++ Es._tags s))).

(** The bulk requests of a trace, oldest first. *)
Definition bulk_requests (t : list Es.effect) : list (list dict) :=
  flat_map (fun e => match e with
                     | Es.EsBulk actions _ => [actions]
                     | Es.Replay _ _ _ _ => []
                     end) t.

(** [send] up to [self._bulk_actions.append(event)], and from there on. *)
Definition send_prepare (event : Es.ref) : Es.M unit :=
  (s <- Es.get_self ;;
   Es.put_self (Es.set_replay_args s (dict_set (Es._replay_args s) (u "dataset")
                                               (PStr (Es._dataset s)))) ;;
   Es._enrich_event event ;;
   s <- Es.get_self ;;
   if match Es._es_index s with
      | None => true
      | Some index => str_eqb index []
      end
   then Es.raise (ValueError (u "Elasticsearch index cannot be empty"))
   else
     Es.setitem event (u "_op_type") (PStr (u "create")) ;;
     e <- Es.load event ;;
     (if negb (dict_in (u "_index") e)
      then Es.setitem event (u "_index")
                      (PStr (match Es._es_index s with Some i => i | None => [] end))
      else Es.ret tt) ;;
     e <- Es.load event ;;
     (if negb (dict_in (u "_id") e)
      then id <- Es.lift (Es._s3_object_id e) ;;
           Es.setitem event (u "_id") (PStr id)
      else Es.ret tt) ;;
     s <- Es.get_self ;;
     Es.put_self (Es.set_bulk_actions s (Es._bulk_actions s ++ [event])))%shipper.

Definition send_finish (es_bulk : list dict -> dict -> Z * list pyval)
  : Es.M unit :=
  (s <- Es.get_self ;;
   if len (Es._bulk_actions s) <? Es._bulk_batch_size s then Es.ret tt
   else
     errors <- Es.call_es_bulk es_bulk ;;
     Es._handle_outcome errors ;;
     s <- Es.get_self ;;
     Es.put_self (Es.set_bulk_actions s []))%shipper.

(** The actions of the batch as they are in the heap. *)
Definition batch (w : Es.World) : list dict :=
  map (fun r => nth r (Es.heap w) []) (Es._bulk_actions (Es.self w)).

(** A lower bound of the bytes of a batch: the UTF-8 length of the
    messages of its actions (a serialized action holds its message). *)
Definition message_bytes (e : dict) : Z :=
  match path (PDict e) ["fields"; "message"]%string with
  | inl (PStr m) =>
    match utf8_encode m with
    | Some x => len x
    | None => 0
    end
  | _ => 0
  end.

Definition batch_message_bytes (w : Es.World) : Z :=
  fold_right (fun e acc => message_bytes e + acc) 0 (batch w).

(** A shipper with a user name, a password and a URL. *)
Definition shipper (dataset namespace : string)
           (batch_max_actions batch_max_bytes : Z) (index : option str)
  : Es.ElasticsearchShipper :=
  Es.mkShipper []
    batch_max_actions
    [(u "max_retries", PInt 10); (u "stats_only", PBool false);
     (u "raise_on_error", PBool false); (u "raise_on_exception", PBool false);
     (u "max_chunk_bytes", PInt batch_max_bytes);
     (u "chunk_size", PInt batch_max_actions)]
    [] None (u dataset) (u namespace) [] index.

Definition world (s : ElasticsearchShipper) (events : list dict) : World :=
  mkWorld s events [].

(** A shipper before [discover_dataset]; one with its index, a batch of
    500 actions and a batch of ten bytes; one with a replay handler and a
    batch of two actions. *)
Definition shipper_without_index : ElasticsearchShipper :=
  shipper "generic" "default" 500 10485760 None.

Definition shipper_ten_bytes : ElasticsearchShipper :=
  shipper "generic" "default" 500 10 (Some (u "logs-generic-default")).

Definition shipper_of_two : ElasticsearchShipper :=
  set_replay_handler_attr
    (shipper "generic" "default" 2 10485760 (Some (u "logs-generic-default")))
    (Some 7%nat).

(** The same line of the same object delivered twice, and two lines of
    two objects whose bucket ARN and key concatenate to the same text. *)
Definition delivered_twice : list dict :=
  [s3_event "arn:aws:s3:::b" "k" 42 "line";
   s3_event "arn:aws:s3:::b" "k" 42 "line"].

Definition colliding_objects : list dict :=
  [s3_event "arn:aws:s3:::logs" "a/x.log" 0 "first";
   s3_event "arn:aws:s3:::logsa" "/x.log" 0 "second"].

(** A cluster that accepts every action. *)
Definition es_accepts_all : list dict -> dict -> Z * list pyval :=
  fun actions _ => (len actions, []).

(** A cluster that follows the [create] operation: an action whose [_id]
    was already created by an earlier action of the request is rejected
    with a conflict, reported under its [_id]. *)
Fixpoint es_create_from (seen : list pyval) (actions : list dict)
  : Z * list pyval :=
  match actions with
  | [] => (0, [])
  | a :: rest =>
    let id := match dict_get a (u "_id") with Some i => i | None => PNone end in
    let '(success, errors) := es_create_from (id :: seen) rest in
    if existsb (py_eq id) seen
    then (success,
          PDict [(u "create", PDict [(u "_id", id); (u "status", PInt 409)])]
          :: errors)
    else (success + 1, errors)
  end.

Definition es_create : list dict -> dict -> Z * list pyval :=
  fun actions _ => es_create_from [] actions.

(** *** The notification of a new S3 object, as the queue delivers it *)
Definition quoted (s : string) : str := [0x22] ++ u s ++ [0x22].

Definition s3_notification_body (object_key : string) : str :=
  u "{" ++ quoted "Records" ++ u ":[{" ++ quoted "s3" ++ u ":{"
    ++ quoted "object" ++ u ":{" ++ quoted "key" ++ u ":"
    ++ quoted object_key ++ u "}}}]}".

Definition s3_notification (object_key : string) : dict :=
  trigger_event ((u "body", PStr (s3_notification_body object_key))
                 :: sqs_record None).

(** [json.loads] on the texts of RFC 8259, by the parser above; the text
    of the message of its exception is not modelled. *)
Definition json_loads_reference (body : pyval) : result pyval :=
  match body with
  | PStr text =>
    match json_loads_str text with
    | Some v => inl v
    | None => inr (ValueError (u "Expecting value"))
    end
  | _ => inr TypeError
  end.

(** A client constructor that accepts what it is given, and one that
    cannot read the cloud id. *)
Definition client_accepts : ClientKwargs -> result unit := fun _ => inl tt.

Definition client_rejects_cloud_id : ClientKwargs -> result unit :=
  fun kwargs =>
    match kw_cloud_id kwargs with
    | Some _ => inr (Exception (u "ImproperlyConfigured"))
    | None => inl tt
    end.

Definition shipper_without_dataset : ElasticsearchShipper :=
  shipper "" "default" 500 10485760 None.

(** *** A batch of two actions and the report of a rejected one *)
Definition failed_create (id : string) : pyval :=
  PDict [(u "create", PDict [(u "_id", PStr (u id)); (u "status", PInt 409)])].

Definition batch_of_two : World :=
  mkWorld (set_bulk_actions shipper_of_two [0%nat; 1%nat])
          [[(u "_id", PStr (u "a"))]; [(u "_id", PStr (u "b"))]] [].

(** What the records stand for in the stream: each payload followed by
    its newline. *)
Definition content (items : list item) : bytes :=
  flat_map (fun it => item_data it ++ item_newline it) items.

(** The records follow each other from [start], whatever their lengths. *)
Fixpoint follow (start : Z) (items : list item) : Prop :=
  match items with
  | [] => True
  | it :: rest => item_start it = start /\ follow (item_end it) rest
  end.

(** A multiline processor for which every line is an event of its own. *)
Definition every_line_an_event : ProtocolMultiline :=
  fun feed =>
    (map (fun x : bytes * bytes => (fst x, len (fst x) + len (snd x), snd x))
         (fst feed),
     snd feed).

Definition storage_with_multiline (collect : ProtocolMultiline) : Storage :=
  {| multiline_processor := Some collect;
     json_content_type := u "ndjson";
     event_list_from_field_expander := None |}.

(** A payload that decodes and whose first character, leading white space
    apart, is not an opening brace: the collector does not take it for the
    start of an object. *)
Definition plain_line (data : bytes) : bool :=
  match utf8_decode data with
  | Some decoded =>
    negb ((0 <? len (str_lstrip decoded)) && (hd 0 (str_lstrip decoded) =? 0x7B))
  | None => false
  end.

(** A payload that decodes and whose first character, leading white space
    apart, is an opening brace: the collector takes it for the start of an
    object. *)
Definition starts_object (data : bytes) : bool :=
  match utf8_decode data with
  | Some decoded =>
    (0 <? len (str_lstrip decoded)) && (hd 0 (str_lstrip decoded) =? 0x7B)
  | None => false
  end.

(** What the collector has to emit when every line is an object: a
    record per line, its payload the line and its newline without the
    surrounding CR and LF, spanning the bytes of both from the end of the
    record before. *)
Fixpoint one_object_per_line (start : Z) (lines : list item) : list item :=
  match lines with
  | [] => []
  | line :: rest =>
    let buffer := item_data line ++ item_newline line in
    (strip (strip buffer [CR; LF]) [LF], start, start + len buffer,
     item_newline line, None)
    :: one_object_per_line (start + len buffer) rest
  end.

(** The object [{"x": 1}] written over two lines. *)
Definition object_over_two_lines : bytes :=
  b "{" ++ [DQ] ++ b "x" ++ [DQ] ++ b ":" ++ [LF] ++ b "1}" ++ [LF].

End Scenarios.

(* ===================================================================== *)
(** ** Properties of the Python values *)
(* ===================================================================== *)

Module PyFacts.
Import Py.

Lemma str_eqb_refl (s : str) : str_eqb s s = true.
Proof.
  induction s as [|c s IH]; simpl; [reflexivity|].
  now rewrite Z.eqb_refl, IH.
Qed.

Lemma str_eqb_eq (s t : str) : str_eqb s t = true <-> s = t.
Proof.
  split; [|intros ->; apply str_eqb_refl].
  revert t; induction s as [|c s IH]; intros [|d t]; simpl; try discriminate; auto.
  intros H. apply andb_true_iff in H as [Hc Hs].
  apply Z.eqb_eq in Hc. f_equal; auto.
Qed.

Lemma str_eqb_neq (s t : str) : str_eqb s t = false <-> s <> t.
Proof.
  destruct (str_eqb s t) eqn:E.
  - apply str_eqb_eq in E. split; [discriminate|congruence].
  - split; [|reflexivity]. intros _ H. apply str_eqb_eq in H. congruence.
Qed.

(** Reading a dictionary after an assignment. *)
Lemma dict_get_set (d : dict) (k : str) (v : pyval) (k' : str) :
  dict_get (dict_set d k v) k'
  = if str_eqb k k' then Some v else dict_get d k'.
Proof.
  induction d as [|[k0 v0] d IH]; simpl.
  - reflexivity.
  - destruct (str_eqb k0 k) eqn:E0; simpl.
    + apply str_eqb_eq in E0. subst k0.
      destruct (str_eqb k k'); reflexivity.
    + rewrite IH.
      destruct (str_eqb k0 k') eqn:E1; [|reflexivity].
      apply str_eqb_eq in E1. subst k'.
      rewrite (proj2 (str_eqb_neq k k0)); [reflexivity|].
      apply str_eqb_neq in E0. congruence.
Qed.


(** Inverting a sequence that returned. *)
Lemma bind_inl {A B : Type} (m : result A) (k : A -> result B) (y : B) :
  bind m k = inl y -> exists x, m = inl x /\ k x = inl y.
Proof. destruct m as [x|e]; cbn; [eauto|discriminate]. Qed.

(** Inverting a sequence that raised: the first part raised, or it
    returned and the rest raised. *)
Lemma bind_inr {A B : Type} (m : result A) (k : A -> result B) (e : exn) :
  bind m k = inr e -> m = inr e \/ exists x, m = inl x /\ k x = inr e.
Proof. destruct m as [x|e']; cbn; [eauto|intros H; left; congruence]. Qed.

(** The exceptions of the two subscript operations. *)
Lemma py_in_raises (k v : pyval) (e : exn) :
  py_in k v = inr e -> e = TypeError.
Proof.
  destruct v; cbn; try congruence.
  - destruct k; cbn; congruence.
  - destruct k; cbn; congruence.
Qed.

Lemma py_getitem_raises (v k : pyval) (e : exn) :
  py_getitem v k = inr e -> e = KeyError k \/ e = IndexError \/ e = TypeError.
Proof.
  assert (Hat : forall (A : Type) (l : list A) (f : A -> pyval) (i : Z),
    (let i := if i <? 0 then i + len l else i in
     if i <? 0 then inr IndexError
     else match nth_error l (Z.to_nat i) with
          | Some x => inl (f x)
          | None => inr IndexError
          end) = inr e -> e = IndexError).
  { intros A l f i. cbv zeta.
    destruct (_ <? 0); [congruence|].
    destruct (nth_error _ _); congruence. }
  destruct v; cbn [py_getitem]; try (intros H; right; right; congruence).
  - destruct k; try (intros H; right; right; congruence);
      intros H; right; left; eapply (Hat _ _ (fun c => PStr [c])); exact H.
  - destruct k; try (intros H; right; right; congruence);
      intros H; right; left; eapply (Hat _ _ (fun x => x)); exact H.
  - destruct k; cbn [hashable]; try (intros H; left; congruence);
      try (intros H; right; right; congruence).
    destruct (dict_get _ _); intros H; [discriminate|left; congruence].
Qed.

(** A [str] equals only the [str] of the same characters. *)
Lemma py_eq_str (a : str) (y : pyval) : py_eq (PStr a) y = true -> y = PStr a.
Proof.
  destruct y; cbn [py_eq]; try discriminate.
  intros H. apply str_eqb_eq in H. now subst.
Qed.

End PyFacts.

(* ===================================================================== *)
(** ** Properties of handlers/aws/utils.py *)
(* ===================================================================== *)

Module UtilsFacts.
Import Py Utils Scenarios PyFacts.

(** What [strip] leaves starts with a character outside the set: every
    leading character of the set is gone, whatever its position. *)
Lemma str_lstrip_chars_head (s chars : str) (c : Z) (r : str) :
  str_lstrip_chars s chars = c :: r -> str_mem c chars = false.
Proof.
  induction s as [|d s IH]; simpl; [discriminate|].
  destruct (str_mem d chars) eqn:E; auto.
  intros H; injection H as -> _; exact E.
Qed.

(** C9. There is a well-formed URI [s3://<bucket>/<key>] for which
    [_from_s3_uri_to_bucket_name_and_object_key] does not return
    [(<bucket>, <key>)]: for [s3://s3bucket/key] it returns
    [("bucket", "key")], because [strip("s3://")] removes every leading
    character of the set [{s, 3, :, /}] and so eats the [s3] the bucket
    name begins with. *)
Theorem s3_uri_strip_eats_bucket_prefix :
  _from_s3_uri_to_bucket_name_and_object_key (u "s3://s3bucket/key")
    = inl (u "bucket", u "key")
  /\ str_strip_chars (u "s3://s3bucket/key") (u "s3://") = u "bucket/key"
  /\ exists bucket key : str,
       bucket <> [] /\ str_mem 0x2F bucket = false /\
       _from_s3_uri_to_bucket_name_and_object_key
         (u "s3://" ++ bucket ++ u "/" ++ key) <> inl (bucket, key).
Proof.
  split; [reflexivity|]. split; [reflexivity|].
  exists (u "s3bucket"), (u "key").
  split; [discriminate|]. split; [reflexivity|].
  vm_compute. discriminate.
Qed.

(** The parts of the classifier that hold as the spec has them. *)
Lemma get_trigger_type_no_event_source (record : dict) :
  dict_in (u "eventSource") record = false ->
  _get_trigger_type (trigger_event record)
    = inr (Exception (u "Not supported trigger")).
Proof.
  intros H. unfold _get_trigger_type, trigger_event. simpl.
  now rewrite H.
Qed.

Lemma get_trigger_type_unknown_source (record : dict) (source : str) :
  dict_get record (u "eventSource") = Some (PStr source) ->
  str_eqb (u "aws:sqs") source = false ->
  _get_trigger_type (trigger_event record)
    = inr (Exception (u "Not supported trigger")).
Proof.
  intros H Hs. unfold _get_trigger_type, trigger_event. simpl.
  unfold dict_in. rewrite H. simpl. simpl in Hs. now rewrite Hs.
Qed.

Lemma get_trigger_type_sqs :
  _get_trigger_type (trigger_event (sqs_record None)) = inl (u "sqs").
Proof. reflexivity. Qed.

Lemma get_trigger_type_self_sqs (attributes : dict) :
  dict_in (u "originalEventSource") attributes = true ->
  _get_trigger_type (trigger_event (sqs_record (Some attributes)))
    = inl (u "self_sqs").
Proof.
  intros H. unfold _get_trigger_type, trigger_event, sqs_record. simpl.
  now rewrite H.
Qed.

(** C7. On an event without [Records] the guard
    ["Records" not in event and len(event["Records"]) < 1] evaluates
    [event["Records"]] and raises KeyError, and on an empty [Records]
    list the guard is false and [event["Records"][0]] raises IndexError:
    neither is the exception "Not supported trigger". *)
Theorem get_trigger_type_guard_uses_and :
  _get_trigger_type no_records = inr (KeyError (PStr (u "Records")))
  /\ _get_trigger_type empty_records = inr IndexError
  /\ _get_trigger_type no_records <> inr (Exception (u "Not supported trigger"))
  /\ _get_trigger_type empty_records <> inr (Exception (u "Not supported trigger")).
Proof.
  repeat split; try reflexivity; vm_compute; discriminate.
Qed.

Lemma available_triggers_lookup (k : str) :
  trigger_lookup _available_triggers k
  = if str_eqb (u "aws:sqs") k then Some (u "sqs") else None.
Proof. reflexivity. Qed.

(** X1. Whenever [_get_trigger_type] returns, the event has a [Records]
    entry whose first item carries [eventSource] equal to ["aws:sqs"],
    and the value returned is ["sqs"] or ["self_sqs"]; it is
    ["self_sqs"] exactly when that first item has [messageAttributes]
    containing [originalEventSource]. *)
Theorem get_trigger_type_returns (event : dict) (r : str) :
  _get_trigger_type event = inl r ->
  exists records record : pyval,
    dict_get event (u "Records") = Some records
    /\ py_getitem records (PInt 0) = inl record
    /\ py_getitem record (PStr (u "eventSource")) = inl (PStr (u "aws:sqs"))
    /\ (r = u "sqs" \/ r = u "self_sqs")
    /\ (r = u "self_sqs" <->
        exists attributes,
          py_in (PStr (u "messageAttributes")) record = inl true
          /\ py_getitem record (PStr (u "messageAttributes")) = inl attributes
          /\ py_in (PStr (u "originalEventSource")) attributes = inl true).
Proof.
  unfold _get_trigger_type. intros H.
  apply bind_inl in H as (guard & Hg & H).
  destruct guard; [discriminate|].
  apply bind_inl in H as (records & Hrecords & H).
  apply bind_inl in H as (record & Hrecord & H).
  apply bind_inl in H as (has_source & Hsource & H).
  destruct has_source; cbn [negb] in H; [|discriminate].
  apply bind_inl in H as (records' & Hrecords' & H).
  rewrite Hrecords in Hrecords'. injection Hrecords' as <-.
  apply bind_inl in H as (record' & Hrecord' & H).
  rewrite Hrecord in Hrecord'. injection Hrecord' as <-.
  apply bind_inl in H as (event_source & Hes & H).
  apply bind_inl in H as (known & Hknown & H).
  exists records, record.
  assert (Hrec : dict_get event (u "Records") = Some records).
  { cbn [py_getitem] in Hrecords.
    destruct (dict_get event (u "Records")); [congruence|discriminate]. }
  destruct event_source as [| | | |source| |];
    try (cbn in Hknown;
         first [discriminate | injection Hknown as <-; cbn in H; discriminate]).
  assert (Hk : known = trigger_lookup _available_triggers source)
    by (cbv beta iota in Hknown; congruence).
  rewrite Hk, available_triggers_lookup in H. clear Hk Hknown.
  destruct (str_eqb (u "aws:sqs") source) eqn:Esrc;
    cbv beta iota in H; [|discriminate].
  apply PyFacts.str_eqb_eq in Esrc. subst source.
  replace (negb (str_eqb (u "sqs") (u "sqs"))) with false in H by reflexivity.
  cbv iota in H.
  split; [exact Hrec|]. split; [exact Hrecord|]. split; [exact Hes|].
  apply bind_inl in H as (record' & Hrecord' & H).
  rewrite Hrecord in Hrecord'. injection Hrecord' as <-.
  apply bind_inl in H as (has_attributes & Hattr & H).
  destruct has_attributes; cbn [negb] in H.
  - apply bind_inl in H as (attributes & Hattrs & H).
    apply bind_inl in H as (has_original & Horig & H).
    destruct has_original; cbn [negb] in H; injection H as <-.
    + split; [right; reflexivity|]. split; [|reflexivity].
      intros _. exists attributes. auto.
    + split; [left; reflexivity|]. split; [discriminate|].
      intros (attributes' & _ & Ha & Ho). congruence.
  - injection H as <-. split; [left; reflexivity|]. split; [discriminate|].
    intros (attributes' & Ha & _). congruence.
Qed.

Lemma get_trigger_type_returns_example :
  exists records record : pyval,
    dict_get (trigger_event (sqs_record None)) (u "Records") = Some records
    /\ py_getitem records (PInt 0) = inl record
    /\ py_getitem record (PStr (u "eventSource")) = inl (PStr (u "aws:sqs"))
    /\ (u "sqs" = u "sqs" \/ u "sqs" = u "self_sqs")
    /\ (u "sqs" = u "self_sqs" <->
        exists attributes,
          py_in (PStr (u "messageAttributes")) record = inl true
          /\ py_getitem record (PStr (u "messageAttributes")) = inl attributes
          /\ py_in (PStr (u "originalEventSource")) attributes = inl true).
Proof.
  exact (get_trigger_type_returns (trigger_event (sqs_record None)) (u "sqs")
           eq_refl).
Defined.

Local Open Scope result_scope.
(** X2. Whenever [_get_trigger_type] raises the exception
    "Not supported trigger", the event does have a [Records] entry with a
    first item, and that item either lacks [eventSource] or carries one
    that is not ["aws:sqs"]: the first [raise] of the function, guarded by
    ["Records" not in event and len(event["Records"]) < 1], is never the
    one that fires. *)
Theorem get_trigger_type_not_supported (event : dict) :
  _get_trigger_type event = inr (Exception (u "Not supported trigger")) ->
  exists records record : pyval,
    dict_get event (u "Records") = Some records
    /\ py_getitem records (PInt 0) = inl record
    /\ (py_in (PStr (u "eventSource")) record = inl false
        \/ exists source,
             py_getitem record (PStr (u "eventSource")) = inl source
             /\ hashable source = true
             /\ source <> PStr (u "aws:sqs")).
Proof.
  unfold _get_trigger_type. intros H.
  assert (Hguard :
    (if negb (dict_in (u "Records") event) then
       records <- py_getitem (PDict event) (PStr (u "Records")) ;;
       n <- py_len records ;;
       inl (n <? 1)
     else inl false)
    = match dict_get event (u "Records") with
      | Some _ => inl false
      | None => inr (KeyError (PStr (u "Records")))
      end).
  { unfold dict_in. cbn [py_getitem].
    destruct (dict_get event (u "Records")); reflexivity. }
  rewrite Hguard in H. clear Hguard.
  cbn [py_getitem] in H.
  destruct (dict_get event (u "Records")) as [records|] eqn:Hrec;
    cbn [bind] in H; [|discriminate].
  exists records.
  destruct (py_getitem records (PInt 0)) as [record|e] eqn:Hrecord;
    cbn [bind] in H.
  2:{ exfalso. injection H as ->.
      apply py_getitem_raises in Hrecord as [|[|]]; discriminate. }
  exists record. split; [reflexivity|]. split; [reflexivity|].
  destruct (py_in (PStr (u "eventSource")) record) as [has_source|e] eqn:Hsource;
    cbn [bind] in H.
  2:{ exfalso. injection H as ->.
      apply py_in_raises in Hsource. discriminate. }
  destruct has_source; cbn [negb] in H; [|left; reflexivity].
  right.
  destruct (py_getitem record (PStr (u "eventSource"))) as [source|e] eqn:Hes;
    cbn [bind] in H.
  2:{ exfalso. injection H as ->.
      apply py_getitem_raises in Hes as [|[|]]; discriminate. }
  exists source. split; [reflexivity|].
  destruct source as [| | | |source| |]; cbn [hashable] in H |- *;
    try discriminate; try (split; [reflexivity|discriminate]).
  split; [reflexivity|]. intros Heq. injection Heq as ->.
  rewrite available_triggers_lookup in H.
  replace (str_eqb (u "aws:sqs") (u "aws:sqs")) with true in H by reflexivity.
  cbn [bind] in H.
  replace (negb (str_eqb (u "sqs") (u "sqs"))) with false in H by reflexivity.
  cbv iota in H.
  destruct (py_in (PStr (u "messageAttributes")) record) as [has|e] eqn:Hattr;
    cbn [bind] in H.
  2:{ injection H as ->. apply py_in_raises in Hattr. discriminate. }
  destruct has; cbn [negb] in H; [|discriminate].
  destruct (py_getitem record (PStr (u "messageAttributes")))
    as [attributes|e] eqn:Hattrs; cbn [bind] in H.
  2:{ injection H as ->.
      apply py_getitem_raises in Hattrs as [|[|]]; discriminate. }
  destruct (py_in (PStr (u "originalEventSource")) attributes)
    as [has|e] eqn:Horig; cbn [bind] in H.
  2:{ injection H as ->. apply py_in_raises in Horig. discriminate. }
  destruct has; discriminate.
Qed.

Lemma get_trigger_type_not_supported_example :
  exists records record : pyval,
    dict_get (trigger_event []) (u "Records") = Some records
    /\ py_getitem records (PInt 0) = inl record
    /\ (py_in (PStr (u "eventSource")) record = inl false
        \/ exists source,
             py_getitem record (PStr (u "eventSource")) = inl source
             /\ hashable source = true
             /\ source <> PStr (u "aws:sqs")).
Proof.
  exact (get_trigger_type_not_supported (trigger_event []) eq_refl).
Defined.

Lemma str_split1_slash_cons (c : Z) (s : str) :
  str_split1 (c :: s) (u "/")
  = if 0x2F =? c then [[]; s]
    else match str_split1 s (u "/") with
         | x :: rest => (c :: x) :: rest
         | [] => [[c]]
         end.
Proof.
  change (str_split1 (c :: s) (u "/"))
    with (if (0x2F =? c) && str_startswith s [] then [[]; s]
          else match str_split1 s (u "/") with
               | x :: rest => (c :: x) :: rest
               | [] => [[c]]
               end).
  replace (str_startswith s []) with true by (destruct s; reflexivity).
  now rewrite andb_true_r.
Qed.

(** [split("/", 1)]: either the separator does not occur and the string
    comes back whole, or the two pieces are what stands before and after
    its first occurrence. *)
Lemma str_split1_slash (s : str) :
  (str_split1 s (u "/") = [s] /\ ~ In 0x2F s)
  \/ exists x y, str_split1 s (u "/") = [x; y]
                 /\ s = x ++ 0x2F :: y /\ ~ In 0x2F x.
Proof.
  induction s as [|c s IH].
  - left. split; [reflexivity|]. intros [].
  - rewrite str_split1_slash_cons.
    destruct (0x2F =? c) eqn:E.
    + apply Z.eqb_eq in E. subst c. right. exists [], s.
      split; [reflexivity|]. split; [reflexivity|]. intros [].
    + apply Z.eqb_neq in E.
      destruct IH as [[-> Hn]|(x & y & -> & -> & Hn)].
      * left. split; [reflexivity|]. intros [H|H]; [congruence|auto].
      * right. exists (c :: x), y. split; [reflexivity|].
        split; [reflexivity|]. intros [H|H]; [congruence|auto].
Qed.

Lemma str_rstrip_chars_last (s chars : str) (d : Z) :
  str_mem d chars = false ->
  str_rstrip_chars (s ++ [d]) chars = s ++ [d].
Proof.
  intros Hd. induction s as [|c s IH]; cbn [str_rstrip_chars app].
  - now rewrite Hd.
  - rewrite IH. destruct s; reflexivity.
Qed.

(** X3. Whenever [_from_s3_uri_to_bucket_name_and_object_key] returns a
    pair, the argument starts with [s3://], the first component holds no
    [/], and the two components joined by [/] are the argument after
    [strip("s3://")], that is, without its leading and trailing characters
    from the set of [s], [3], [:] and [/]. *)
Theorem s3_uri_returns (s3_uri bucket key : str) :
  _from_s3_uri_to_bucket_name_and_object_key s3_uri = inl (bucket, key) ->
  str_startswith s3_uri (u "s3://") = true
  /\ ~ In 0x2F bucket
  /\ str_strip_chars s3_uri (u "s3://") = bucket ++ u "/" ++ key.
Proof.
  unfold _from_s3_uri_to_bucket_name_and_object_key.
  destruct (str_startswith s3_uri (u "s3://")); cbn [negb]; [|discriminate].
  destruct (str_split1_slash (str_strip_chars s3_uri (u "s3://")))
    as [[-> Hn]|(x & y & -> & Hs & Hn)]; cbn [len length nth].
  - discriminate.
  - intros H. cbn in H. injection H as <- <-. auto.
Qed.

Lemma s3_uri_returns_example :
  str_startswith (u "s3://bucket/a/b") (u "s3://") = true
  /\ ~ In 0x2F (u "bucket")
  /\ str_strip_chars (u "s3://bucket/a/b") (u "s3://") = u "bucket" ++ u "/" ++ u "a/b".
Proof.
  exact (s3_uri_returns (u "s3://bucket/a/b") (u "bucket") (u "a/b") eq_refl).
Defined.

Lemma str_rstrip_chars_drop (p chars : str) (x : Z) :
  str_mem x chars = true ->
  str_rstrip_chars (p ++ [x]) chars = str_rstrip_chars p chars.
Proof.
  intros Hx. induction p as [|c p IH]; cbn [app str_rstrip_chars].
  - now rewrite Hx.
  - now rewrite IH.
Qed.

Lemma str_rstrip_chars_none (p chars : str) (d : Z) :
  p <> [] -> str_mem (last p d) chars = false -> str_rstrip_chars p chars = p.
Proof.
  intros Hne Hl.
  destruct (exists_last Hne) as (q & x & ->).
  rewrite last_last in Hl. now apply str_rstrip_chars_last.
Qed.

Lemma s3_uri_well_formed_cons (c d : Z) (bucket key : str) :
  str_mem c (u "s3://") = false ->
  str_mem d (u "s3://") = false ->
  ~ In 0x2F bucket ->
  _from_s3_uri_to_bucket_name_and_object_key
    (u "s3://" ++ (c :: bucket) ++ u "/" ++ key ++ [d])
  = inl (c :: bucket, key ++ [d]).
Proof.
  intros Hc Hd Hn.
  unfold _from_s3_uri_to_bucket_name_and_object_key.
  replace (str_startswith (u "s3://" ++ (c :: bucket) ++ u "/" ++ key ++ [d])
                          (u "s3://")) with true by reflexivity.
  cbn [negb].
  assert (Hshape : (c :: bucket) ++ u "/" ++ key ++ [d]
                   = ((c :: bucket) ++ 0x2F :: key) ++ [d]).
  { rewrite <- app_assoc. reflexivity. }
  assert (Hstrip :
    str_strip_chars (u "s3://" ++ (c :: bucket) ++ u "/" ++ key ++ [d]) (u "s3://")
    = (c :: bucket) ++ 0x2F :: key ++ [d]).
  { unfold str_strip_chars.
    replace (str_lstrip_chars
               (u "s3://" ++ (c :: bucket) ++ u "/" ++ key ++ [d]) (u "s3://"))
      with (str_lstrip_chars ((c :: bucket) ++ u "/" ++ key ++ [d]) (u "s3://"))
      by reflexivity.
    rewrite Hshape. cbn [app str_lstrip_chars]. rewrite Hc.
    change (c :: (bucket ++ 0x2F :: key) ++ [d])
      with ((c :: bucket ++ 0x2F :: key) ++ [d]).
    rewrite str_rstrip_chars_last by exact Hd.
    cbn [app]. rewrite <- app_assoc. reflexivity. }
  rewrite Hstrip.
  assert (Hsplit : forall x : str, ~ In 0x2F x ->
            str_split1 (x ++ 0x2F :: key ++ [d]) (u "/") = [x; key ++ [d]]).
  { induction x as [|c0 x IH]; intros Hx.
    - cbn [app]. now rewrite str_split1_slash_cons.
    - cbn [app]. rewrite str_split1_slash_cons.
      destruct (0x2F =? c0) eqn:E.
      + apply Z.eqb_eq in E. subst c0. exfalso. apply Hx. left. reflexivity.
      + rewrite IH; [reflexivity|].
        intros H. apply Hx. right. exact H. }
  rewrite Hsplit.
  - reflexivity.
  - intros [H|H]; [|exact (Hn H)]. subst c. discriminate.
Qed.

(** X4. For a bucket name that is not empty, holds no [/] and does not
    start with one of [s], [3], [:], [/]:
    [_from_s3_uri_to_bucket_name_and_object_key] returns the bucket name
    and the key of [s3://<bucket>/<key>] for every key that is not empty
    and does not end with one of these characters, further [/] of the key
    included; and for the empty key, when the bucket name does not end
    with one of them either, it raises ValueError with a message that
    carries the URI as [strip] left it, that is, the bucket name. *)
Theorem s3_uri_well_formed (bucket : str) :
  bucket <> [] ->
  str_mem (hd 0 bucket) (u "s3://") = false ->
  ~ In 0x2F bucket ->
  (forall key : str,
      key <> [] ->
      str_mem (last key 0) (u "s3://") = false ->
      _from_s3_uri_to_bucket_name_and_object_key
        (u "s3://" ++ bucket ++ u "/" ++ key)
      = inl (bucket, key))
  /\ (str_mem (last bucket 0) (u "s3://") = false ->
      _from_s3_uri_to_bucket_name_and_object_key (u "s3://" ++ bucket ++ u "/")
      = inr (ValueError (u "Invalid s3 uri provided: " ++ bucket))).
Proof.
  intros Hne Hhd Hn. destruct bucket as [|c bucket]; [congruence|].
  cbn [hd] in Hhd. split.
  - intros key Hk Hlast.
    destruct (exists_last Hk) as (k & d & ->).
    rewrite last_last in Hlast.
    apply s3_uri_well_formed_cons; [exact Hhd|exact Hlast|].
    intros H. apply Hn. right. exact H.
  - intros Hlast.
    unfold _from_s3_uri_to_bucket_name_and_object_key.
    replace (str_startswith (u "s3://" ++ (c :: bucket) ++ u "/") (u "s3://"))
      with true by reflexivity.
    cbn [negb].
    assert (Hstrip : str_strip_chars (u "s3://" ++ (c :: bucket) ++ u "/")
                                     (u "s3://") = c :: bucket).
    { unfold str_strip_chars.
      replace (str_lstrip_chars (u "s3://" ++ (c :: bucket) ++ u "/") (u "s3://"))
        with (str_lstrip_chars ((c :: bucket) ++ u "/") (u "s3://"))
        by reflexivity.
      cbn [app str_lstrip_chars]. rewrite Hhd.
      change (c :: bucket ++ u "/") with ((c :: bucket) ++ [0x2F]).
      rewrite str_rstrip_chars_drop by reflexivity.
      apply (str_rstrip_chars_none _ _ 0); [discriminate|exact Hlast]. }
    rewrite Hstrip.
    destruct (str_split1_slash (c :: bucket))
      as [[-> _]|(x & y & _ & Hs & Hx)]; [reflexivity|].
    exfalso. apply Hn. rewrite Hs. apply in_or_app. right. left. reflexivity.
Qed.

Lemma s3_uri_well_formed_example :
  (forall key : str,
      key <> [] ->
      str_mem (last key 0) (u "s3://") = false ->
      _from_s3_uri_to_bucket_name_and_object_key
        (u "s3://" ++ u "bucket" ++ u "/" ++ key)
      = inl (u "bucket", key))
  /\ (str_mem (last (u "bucket") 0) (u "s3://") = false ->
      _from_s3_uri_to_bucket_name_and_object_key (u "s3://" ++ u "bucket" ++ u "/")
      = inr (ValueError (u "Invalid s3 uri provided: " ++ u "bucket"))).
Proof.
  apply (s3_uri_well_formed (u "bucket")).
  - discriminate.
  - reflexivity.
  - vm_compute. intuition discriminate.
Defined.

(** [split(sep)]: there is at least one piece, no piece holds the
    separator, and the pieces put back with the separator after each but
    the last give the string. *)
Lemma str_split_char_spec (s : str) (sep : Z) :
  str_split_char s sep <> []
  /\ Forall (fun p => ~ In sep p) (str_split_char s sep)
  /\ s = concat (map (fun p => p ++ [sep]) (removelast (str_split_char s sep)))
         ++ last (str_split_char s sep) [].
Proof.
  induction s as [|c s (Hne & Hall & Hs)]; cbn [str_split_char].
  - split; [discriminate|]. split; [|reflexivity].
    constructor; [intros []|constructor].
  - destruct (str_split_char s sep) as [|x rest] eqn:E; [congruence|].
    destruct (c =? sep) eqn:Ec.
    + apply Z.eqb_eq in Ec. subst c.
      split; [discriminate|]. split.
      * constructor; [intros []|exact Hall].
      * change (removelast ([] :: x :: rest)) with ([] :: removelast (x :: rest)).
        change (last ([] :: x :: rest) []) with (last (x :: rest) []).
        cbn [map concat app]. now rewrite <- Hs.
    + apply Z.eqb_neq in Ec.
      split; [discriminate|]. split.
      * inversion Hall as [|? ? Hx Hrest]; subst.
        constructor; [|exact Hrest].
        intros [H|H]; [congruence|auto].
      * destruct rest as [|y rest].
        -- cbn in Hs |- *. now rewrite Hs.
        -- change (removelast ((c :: x) :: y :: rest))
             with ((c :: x) :: removelast (y :: rest)).
           change (removelast (x :: y :: rest))
             with (x :: removelast (y :: rest)) in Hs.
           change (last ((c :: x) :: y :: rest) []) with (last (y :: rest) []).
           change (last (x :: y :: rest) []) with (last (y :: rest) []) in Hs.
           cbn [map concat app] in Hs |- *. now rewrite Hs at 1.
Qed.

(** X5. For every ARN, [_get_bucket_name_from_arn] returns the part of
    it after its last colon: a suffix of the ARN that holds no colon and
    that is either the whole ARN or preceded by a colon. *)
Theorem get_bucket_name_from_arn_spec (bucket_arn : str) :
  ~ In 0x3A (_get_bucket_name_from_arn bucket_arn)
  /\ exists prefix : str,
       bucket_arn = prefix ++ _get_bucket_name_from_arn bucket_arn
       /\ (prefix = [] \/ exists p, prefix = p ++ [0x3A]).
Proof.
  unfold _get_bucket_name_from_arn.
  destruct (str_split_char_spec bucket_arn 0x3A) as (Hne & Hall & Hs).
  split.
  - rewrite Forall_forall in Hall. apply Hall.
    destruct (str_split_char bucket_arn 0x3A) as [|x rest]; [congruence|].
    destruct (exists_last (l := x :: rest) ltac:(discriminate)) as (l & z & E).
    rewrite E, last_last. apply in_or_app. right. left. reflexivity.
  - eexists. split; [exact Hs|].
    destruct (removelast (str_split_char bucket_arn 0x3A)) as [|x rest];
      [left; reflexivity|right].
    destruct (exists_last (l := x :: rest) ltac:(discriminate)) as (l & z & E).
    rewrite E, map_app, concat_app.
    cbn [map concat]. rewrite app_nil_r, app_assoc. eauto.
Qed.

End UtilsFacts.

(* ===================================================================== *)
(** ** Properties of shippers/es.py *)
(* ===================================================================== *)

Module EsFacts.
Import Py Hashlib Es Scenarios.

(** The model of SHA-256 on the test vectors of the standard. *)
Example sha256_abc :
  sha256_hexdigest (b "abc")
  = u "ba7816bf8f01cfea414140de5dae2223b00361a396177a9cb410ff61f20015ad".
Proof. vm_compute. reflexivity. Qed.

Example sha256_empty :
  sha256_hexdigest []
  = u "e3b0c44298fc1c149afbf4c8996fb92427ae41e4649b934ca495991b7852b855".
Proof. vm_compute. reflexivity. Qed.

Example sha256_two_blocks :
  sha256_hexdigest (b "abcdbcdecdefdefgefghfghighijhijkijkljklmklmnlmnomnopnopq")
  = u "248d6a61d20638b8e5c026930c3e6039a33ce45964ff2167f6ecedd419db06c1".
Proof. vm_compute. reflexivity. Qed.

(** *** The document id *)

Lemma digits_of_length (fuel : nat) :
  forall (k : nat) (n : Z) (acc : str),
    (1 <= k)%nat -> 0 <= n < 10 ^ Z.of_nat k ->
    (length (digits_of fuel n acc) <= length acc + k)%nat.
Proof.
  induction fuel as [|fuel IH]; intros k n acc Hk Hn; simpl; [lia|].
  destruct (n <? 10) eqn:E.
  - simpl. lia.
  - apply Z.ltb_ge in E.
    destruct k as [|k]; [lia|].
    destruct k as [|k].
    + simpl in Hn. lia.
    + specialize (IH (S k) (n / 10) ((48 + n mod 10) :: acc)).
      simpl length in IH.
      assert (0 <= n / 10 < 10 ^ Z.of_nat (S k)).
      { split; [apply Z.div_pos; lia|].
        apply Z.div_lt_upper_bound; [lia|].
        replace (Z.of_nat (S (S k))) with (Z.of_nat (S k) + 1) in Hn by lia.
        rewrite Z.pow_add_r in Hn by lia. lia. }
      specialize (IH ltac:(lia) H). lia.
Qed.

Lemma decimal_length (n : Z) :
  0 <= n < 10 ^ 12 -> (length (decimal n) <= 12)%nat.
Proof.
  intros H. unfold decimal.
  apply (digits_of_length _ 12 n []); [lia|exact H].
Qed.

Lemma format_012d_nonneg (v : Z) :
  0 <= v -> format_012d v = zero_pad 12 (decimal v).
Proof.
  intros H. unfold format_012d, zero_pad.
  replace (v <? 0) with false by (symmetry; apply Z.ltb_ge; lia).
  rewrite Z.abs_eq by lia. reflexivity.
Qed.

(** C3. For an event that carries [fields.log.offset] (a non-negative
    [int]), [fields.aws.s3.bucket.arn] and [fields.aws.s3.object.key] (two
    [str] that UTF-8 can encode), the document id is the first ten
    hexadecimal characters of the SHA-256 of the encoded concatenation
    [bucket_arn ++ object_key], a hyphen, and the offset padded with zeros
    to twelve decimal digits (exactly twelve below [10^12]); it depends on
    the event through these three values only. *)
Theorem s3_object_id_spec (event : dict) (bucket_arn object_key : str)
        (offset : Z) (encoded : bytes) :
  path (PDict event) ["fields"; "log"; "offset"]%string = inl (PInt offset) ->
  path (PDict event) ["fields"; "aws"; "s3"; "bucket"; "arn"]%string
    = inl (PStr bucket_arn) ->
  path (PDict event) ["fields"; "aws"; "s3"; "object"; "key"]%string
    = inl (PStr object_key) ->
  utf8_encode (bucket_arn ++ object_key) = Some encoded ->
  0 <= offset ->
  _s3_object_id event
    = inl (firstn 10 (sha256_hexdigest encoded) ++ u "-"
           ++ zero_pad 12 (decimal offset))
  /\ (offset < 10 ^ 12 -> length (zero_pad 12 (decimal offset)) = 12%nat).
Proof.
  intros Hoff Harn Hkey Henc Hpos. split.
  - unfold _s3_object_id. cbn [path bind] in Hoff, Harn, Hkey.
    destruct (at_ (PDict event) "fields") as [fields|]; cbn [bind] in *;
      [|discriminate].
    destruct (at_ fields "log") as [log|]; cbn [bind] in *; [|discriminate].
    destruct (at_ log "offset") as [o|]; cbn [bind] in *; [|discriminate].
    injection Hoff as ->.
    destruct (at_ fields "aws") as [aws|]; cbn [bind] in *; [|discriminate].
    destruct (at_ aws "s3") as [s3|]; cbn [bind] in *; [|discriminate].
    destruct (at_ s3 "bucket") as [bucket|]; cbn [bind] in *; [|discriminate].
    destruct (at_ bucket "arn") as [arn|]; cbn [bind] in *; [|discriminate].
    injection Harn as ->.
    destruct (at_ s3 "object") as [object|]; cbn [bind] in *; [|discriminate].
    destruct (at_ object "key") as [k|]; cbn [bind] in *; [|discriminate].
    injection Hkey as ->. cbn [bind].
    rewrite Henc. cbn [bind].
    rewrite format_012d_nonneg by exact Hpos. reflexivity.
  - intros Hlt. unfold zero_pad.
    pose proof (decimal_length offset ltac:(lia)) as Hlen.
    rewrite length_app, repeat_length. lia.
Qed.

(** The spec's example: bucket [arn:aws:s3:::b], key [k], offset 42. *)
Lemma s3_object_id_example :
  _s3_object_id (s3_event "arn:aws:s3:::b" "k" 42 "m")
    = inl (firstn 10 (sha256_hexdigest (b "arn:aws:s3:::bk"))
           ++ u "-000000000042")
  /\ (42 < 10 ^ 12 -> length (zero_pad 12 (decimal 42)) = 12%nat).
Proof.
  exact (s3_object_id_spec (s3_event "arn:aws:s3:::b" "k" 42 "m")
           (u "arn:aws:s3:::b") (u "k") 42 (b "arn:aws:s3:::bk")
           eq_refl eq_refl eq_refl eq_refl ltac:(lia)).
Defined.

Lemma s3_object_id_example_value :
  _s3_object_id (s3_event "arn:aws:s3:::b" "k" 42 "m")
    = inl (u "13c8a0d901-000000000042").
Proof. vm_compute. reflexivity. Qed.

Lemma update_update (h : list dict) (r : ref) (d d' : dict) :
  update (update h r d) r d' = update h r d'.
Proof.
  revert r; induction h as [|x h IH]; intros [|r]; simpl; auto.
  now rewrite IH.
Qed.

Lemma nth_error_update (h : list dict) (r : ref) (d d0 : dict) :
  nth_error h r = Some d0 -> nth_error (update h r d) r = Some d.
Proof.
  revert r; induction h as [|x h IH]; intros [|r] H; simpl in *;
    try discriminate; auto.
Qed.

Lemma mbind_run {A B : Type} (m : M A) (k : A -> M B) (w w1 : World) (x : A) :
  m w = (w1, inl x) -> mbind m k w = k x w1.
Proof. intros H. unfold mbind. now rewrite H. Qed.

Lemma mbind_raise {A B : Type} (m : M A) (k : A -> M B) (w w1 : World) (e : exn) :
  m w = (w1, inr e) -> mbind m k w = (w1, inr e).
Proof. intros H. unfold mbind. now rewrite H. Qed.

Lemma load_run (r : ref) (w : World) (d : dict) :
  nth_error (heap w) r = Some d -> load r w = (w, inl d).
Proof.
  intros H. unfold load. do 2 f_equal. apply nth_error_nth. exact H.
Qed.

Lemma setitem_run (r : ref) (k : str) (v : pyval) (w : World) (d : dict) :
  nth_error (heap w) r = Some d ->
  setitem r k v w
  = (mkWorld (self w) (update (heap w) r (dict_set d k v)) (trace w), inl tt).
Proof.
  intros H. unfold setitem.
  rewrite (mbind_run _ _ _ _ _ (load_run r w d H)). reflexivity.
Qed.

Lemma path_fields_message_set (e : dict) (k : str) (v message : pyval) :
  str_eqb k (u "fields") = false ->
  path (PDict e) ["fields"; "message"]%string = inl message ->
  bind (at_ (PDict (dict_set e k v)) "fields") (fun x => at_ x "message")
  = inl message.
Proof.
  intros Hk H. cbn [path] in H.
  unfold at_ at 1. unfold at_ at 1 in H. cbn [key py_getitem] in *.
  rewrite PyFacts.dict_get_set, Hk.
  destruct (dict_get e (u "fields")) as [f|]; cbn [bind] in *; [|discriminate].
  destruct (at_ f "message"); cbn [bind] in H; congruence.
Qed.

Lemma enrich_event_run (w : World) (event : ref) (e : dict) (message : pyval) :
  nth_error (heap w) event = Some e ->
  path (PDict e) ["fields"; "message"]%string = inl message ->
  _enrich_event event w
  = (mkWorld (self w) (update (heap w) event (enriched (self w) e message))
             (trace w), inl tt).
Proof.
  intros He Hm. unfold _enrich_event.
  rewrite (mbind_run _ _ w w (self w)) by reflexivity.
  erewrite mbind_run by (apply setitem_run; exact He).
  erewrite mbind_run
    by (apply load_run; cbn [heap]; eapply nth_error_update; exact He).
  erewrite mbind_run.
  2:{ unfold lift. rewrite (path_fields_message_set _ _ _ message); [reflexivity|reflexivity|exact Hm]. }
  erewrite mbind_run
    by (apply setitem_run; cbn [heap]; eapply nth_error_update; exact He).
  erewrite setitem_run
    by (cbn [heap]; rewrite update_update; eapply nth_error_update; exact He).
  cbn [self heap trace]. rewrite !update_update. reflexivity.
Qed.


Lemma mbind_assoc {A B C : Type} (m : M A) (f : A -> M B) (g : B -> M C) (w : World) :
  mbind (mbind m f) g w = mbind m (fun x => mbind (f x) g) w.
Proof. unfold mbind. destruct (m w) as [w1 [x|e]]; reflexivity. Qed.

Lemma mbind_ext {A B : Type} (m : M A) (f g : A -> M B) (w : World) :
  (forall x w', f x w' = g x w') -> mbind m f w = mbind m g w.
Proof. intros H. unfold mbind. destruct (m w) as [w1 [x|e]]; auto. Qed.

Lemma mbind_ret_r {A : Type} (m : M A) (w : World) :
  mbind m (fun x => ret x) w = m w.
Proof. unfold mbind, ret. destruct (m w) as [w1 [x|e]]; reflexivity. Qed.

Ltac monad_norm :=
  repeat first
    [ reflexivity
    | rewrite mbind_assoc
    | apply mbind_ext; intros; cbv beta
    | match goal with
      | |- (if ?c then _ else _) _ = mbind (if ?c then _ else _) _ _ =>
        destruct c
      end ].

Lemma send_split es_bulk (event : ref) (w : World) :
  send es_bulk event w = mbind (send_prepare event) (fun _ => send_finish es_bulk) w.
Proof.
  unfold send, send_prepare, send_finish.
  monad_norm.
Qed.

Ltac break_match_hyp H :=
  repeat match type of H with
         | context [match ?x with _ => _ end] =>
           lazymatch x with
           | context [match _ with _ => _ end] => fail
           | _ => destruct x eqn:?
           end
         | context [if ?x then _ else _] =>
           lazymatch x with
           | context [match _ with _ => _ end] => fail
           | _ => destruct x eqn:?
           end
         end.

Lemma send_prepare_frame (event : ref) (w w1 : World) (r : result unit) :
  send_prepare event w = (w1, r) ->
  trace w1 = trace w
  /\ _bulk_batch_size (self w1) = _bulk_batch_size (self w)
  /\ _bulk_kwargs (self w1) = _bulk_kwargs (self w)
  /\ _bulk_actions (self w1)
     = _bulk_actions (self w) ++ match r with inl _ => [event] | inr _ => [] end.
Proof.
  unfold send_prepare, _enrich_event, setitem, mbind, get_self, put_self,
    load, store, lift, raise, ret.
  cbn [self heap trace].
  intros H.
  break_match_hyp H; injection H as <- <-; cbn; rewrite ?app_nil_r; auto.
Qed.

Lemma bulk_requests_app (t t' : list effect) :
  bulk_requests (t ++ t') = bulk_requests t ++ bulk_requests t'.
Proof. unfold bulk_requests. apply flat_map_app. Qed.

Lemma call_es_bulk_run es_bulk (w : World) :
  call_es_bulk es_bulk w
  = (mkWorld (self w) (heap w)
             (trace w ++ [EsBulk (batch w) (_bulk_kwargs (self w))]),
     inl (es_bulk (batch w) (_bulk_kwargs (self w)))).
Proof. reflexivity. Qed.

(** [_handle_outcome] calls the replay handler and nothing else: the
    shipper, the heap and the bulk requests made so far stay as they are. *)
Lemma filter_M_frame {X : Type} (cond : X -> M bool) :
  (forall x w, fst (cond x w) = w) ->
  forall xs w, fst (filter_M cond xs w) = w.
Proof.
  intros Hc xs. induction xs as [|x xs IH]; intros w; simpl; [reflexivity|].
  unfold mbind. specialize (Hc x w).
  destruct (cond x w) as [w1 [c|e]]; simpl in Hc; subst w1; [|reflexivity].
  specialize (IH w).
  destruct (filter_M cond xs w) as [w2 [l|e]]; simpl in IH; subst w2; reflexivity.
Qed.

Lemma for_M_frame {X : Type} (P : World -> World -> Prop) (body : X -> M unit) :
  (forall w, P w w) ->
  (forall w w1 w2, P w w1 -> P w1 w2 -> P w w2) ->
  (forall x w w1 r, body x w = (w1, r) -> P w w1) ->
  forall xs w w1 r, for_M body xs w = (w1, r) -> P w w1.
Proof.
  intros Hrefl Htrans Hbody xs.
  induction xs as [|x xs IH]; intros w w1 r H; cbn [for_M] in H.
  - injection H as <- <-. apply Hrefl.
  - unfold mbind in H. destruct (body x w) as [w2 [[]|e]] eqn:E.
    + eapply Htrans; [eapply Hbody; exact E|eapply IH; exact H].
    + injection H as <- <-. eapply Hbody; exact E.
Qed.

Lemma handle_outcome_frame (errors : Z * list pyval) (w w1 : World) (r : result unit) :
  _handle_outcome errors w = (w1, r) ->
  self w1 = self w /\ heap w1 = heap w
  /\ bulk_requests (trace w1) = bulk_requests (trace w).
Proof.
  unfold _handle_outcome.
  apply (for_M_frame (fun w w1 => self w1 = self w /\ heap w1 = heap w
           /\ bulk_requests (trace w1) = bulk_requests (trace w))).
  - auto.
  - intros ? ? ? (-> & -> & ->) (-> & -> & ->). auto.
  - clear. intros error w w1 r H.
    unfold mbind at 1 in H. unfold get_self at 1 in H.
    unfold mbind at 1 in H.
    match type of H with
    | context [filter_M ?c ?xs ?w0] =>
      pose proof (filter_M_frame c
                    ltac:(intros x w'; unfold mbind, load, lift;
                          destruct (bind _ _); reflexivity) xs w0) as Hf;
      destruct (filter_M c xs w0) as [w2 [failed|e]]; cbn [fst] in Hf; subst w2
    end.
    2:{ injection H as <- <-. auto. }
    destruct (negb (len failed =? 1)).
    + unfold raise in H. injection H as <- <-. auto.
    + destruct (_replay_handler (self w)) as [handler|].
      * unfold mbind, load, emit in H. injection H as <- <-.
        cbn [self heap trace]. repeat split.
        rewrite bulk_requests_app. cbn. apply app_nil_r.
      * unfold ret in H. injection H as <- <-. auto.
Qed.

Lemma send_finish_run es_bulk (w1 w2 : World) (r : result unit) :
  send_finish es_bulk w1 = (w2, r) ->
  if len (_bulk_actions (self w1)) <? _bulk_batch_size (self w1)
  then w2 = w1 /\ r = inl tt
  else bulk_requests (trace w2) = bulk_requests (trace w1) ++ [batch w1]
       /\ _bulk_actions (self w2)
          = match r with inl _ => [] | inr _ => _bulk_actions (self w1) end.
Proof.
  unfold send_finish. unfold mbind at 1. unfold get_self at 1.
  destruct (len (_bulk_actions (self w1)) <? _bulk_batch_size (self w1)).
  - unfold ret. intros H. injection H as <- <-. auto.
  - unfold mbind at 1. rewrite call_es_bulk_run.
    unfold mbind at 1.
    destruct (_handle_outcome _ _) as [w3 [[]|e]] eqn:E; intros H;
      apply handle_outcome_frame in E; cbn [self heap trace] in E;
      destruct E as (Hs & Hh & Ht).
    + unfold mbind, get_self, put_self in H. injection H as <- <-.
      cbn [self heap trace set_bulk_actions _bulk_actions].
      rewrite Ht, bulk_requests_app. auto.
    + injection H as <- <-. rewrite Ht, Hs, bulk_requests_app. auto.
Qed.

Lemma flush_run es_bulk (w w2 : World) (r : result unit) :
  flush es_bulk w = (w2, r) ->
  bulk_requests (trace w2)
  = bulk_requests (trace w)
    ++ (if 0 <? len (_bulk_actions (self w)) then [batch w] else [])
  /\ (r = inl tt -> _bulk_actions (self w2) = []).
Proof.
  unfold flush. unfold mbind at 1. unfold get_self at 1.
  unfold mbind at 1.
  destruct (0 <? len (_bulk_actions (self w))).
  - unfold mbind at 1. rewrite call_es_bulk_run.
    destruct (_handle_outcome _ _) as [w3 [[]|e]] eqn:E; intros H;
      apply handle_outcome_frame in E; cbn [self heap trace] in E;
      destruct E as (Hs & Hh & Ht).
    + unfold mbind, get_self, put_self in H. injection H as <- <-.
      cbn [self heap trace set_bulk_actions _bulk_actions].
      rewrite Ht, bulk_requests_app. auto.
    + injection H as <- <-. rewrite Ht, bulk_requests_app.
      split; [reflexivity|discriminate].
  - unfold ret, mbind, get_self, put_self. intros H. injection H as <- <-.
    cbn [self heap trace set_bulk_actions _bulk_actions].
    rewrite app_nil_r. auto.
Qed.

Lemma len_app_one {A : Type} (l : list A) (x : A) : len (l ++ [x]) = len l + 1.
Proof. unfold len. rewrite length_app. simpl. lia. Qed.

(** A send that leaves the batch below [batch_max_actions] issues no bulk
    request, whether it returns or raises. *)
Lemma send_below_count_sends_nothing es_bulk (event : ref) (w : World) :
  len (_bulk_actions (self w)) + 1 < _bulk_batch_size (self w) ->
  bulk_requests (trace (fst (send es_bulk event w))) = bulk_requests (trace w).
Proof.
  intros Hlt. rewrite send_split. unfold mbind.
  destruct (send_prepare event w) as [w1 [[]|e]] eqn:Ep;
    apply send_prepare_frame in Ep; destruct Ep as (Ht & Hsz & _ & Ha).
  - destruct (send_finish es_bulk w1) as [w2 r] eqn:Ef.
    apply send_finish_run in Ef. rewrite Ha, Hsz, len_app_one in Ef.
    replace (_ <? _) with true in Ef by (symmetry; apply Z.ltb_lt; lia).
    destruct Ef as [-> _]. cbn [fst]. now rewrite Ht.
  - cbn [fst]. now rewrite Ht.
Qed.

(** The heap is what [send] has made of it before the bulk request. *)
Lemma send_finish_heap es_bulk (w1 w2 : World) (r : result unit) :
  send_finish es_bulk w1 = (w2, r) -> heap w2 = heap w1.
Proof.
  unfold send_finish. unfold mbind at 1. unfold get_self at 1.
  destruct (len (_bulk_actions (self w1)) <? _bulk_batch_size (self w1)).
  - unfold ret. intros H. now injection H as <- <-.
  - unfold mbind at 1. rewrite call_es_bulk_run.
    unfold mbind at 1.
    destruct (_handle_outcome _ _) as [w3 [[]|e]] eqn:E; intros H;
      apply handle_outcome_frame in E; cbn [self heap trace] in E;
      destruct E as (Hs & Hh & Ht).
    + unfold mbind, get_self, put_self in H. injection H as <- <-. exact Hh.
    + injection H as <- <-. exact Hh.
Qed.

(** C6 (amended). A [send] that returns issues a bulk request exactly when
    the number of buffered actions, the new one included, reaches
    [batch_max_actions]: below it nothing is sent and the event joins the
    batch, otherwise exactly one request is made, it carries the whole
    batch (the actions buffered before and the new one, as they are
    then) and the batch is cleared.  A [flush] that returns sends the batch when it is
    not empty and leaves it empty.  The bytes of the batch play no part. *)
Theorem send_bulk_rule es_bulk (event : ref) (w wf : World) :
  snd (send es_bulk event w) = inl tt ->
  snd (flush es_bulk wf) = inl tt ->
  let w' := fst (send es_bulk event w) in
  let wf' := fst (flush es_bulk wf) in
  (if len (_bulk_actions (self w)) + 1 <? _bulk_batch_size (self w)
   then bulk_requests (trace w') = bulk_requests (trace w)
        /\ _bulk_actions (self w') = _bulk_actions (self w) ++ [event]
   else bulk_requests (trace w')
        = bulk_requests (trace w)
          ++ [map (fun action => nth action (heap w') [])
                  (_bulk_actions (self w) ++ [event])]
        /\ _bulk_actions (self w') = [])
  /\ bulk_requests (trace wf')
     = bulk_requests (trace wf)
       ++ (if 0 <? len (_bulk_actions (self wf)) then [batch wf] else [])
  /\ _bulk_actions (self wf') = [].
Proof.
  intros Hsend Hflush w' wf'. subst w' wf'. split.
  - rewrite send_split in *. unfold mbind in *.
    destruct (send_prepare event w) as [w1 [[]|e]] eqn:Ep; [|discriminate].
    apply send_prepare_frame in Ep. destruct Ep as (Ht & Hsz & _ & Ha).
    destruct (send_finish es_bulk w1) as [w2 r] eqn:Ef.
    cbn [fst snd] in *. subst r.
    pose proof (send_finish_heap _ _ _ _ Ef) as Hh.
    apply send_finish_run in Ef. rewrite Ha, Hsz, len_app_one in Ef.
    destruct (_ <? _).
    + destruct Ef as [-> _]. rewrite Ht, Ha. auto.
    + destruct Ef as [Hb Hc]. split; [|exact Hc].
      rewrite Hb, Ht, Hh. unfold batch. now rewrite Ha.
  - destruct (flush es_bulk wf) as [w2 r] eqn:Ef. cbn [fst snd] in *.
    apply flush_run in Ef. destruct Ef as [Hb Hc]. auto.
Qed.

(** The constructor puts [batch_max_bytes] in the keyword arguments of the
    bulk helper ([max_chunk_bytes]) and nowhere else. *)
Example init_shipper :
  __init__ client_accepts (u "https://es:9200") (u "user") (u "password") [] []
           (u "generic") (u "default") [] 500 10
  = inl (shipper "generic" "default" 500 10 None).
Proof. reflexivity. Qed.

(** C6 (counterexample). A shipper with [batch_max_actions = 500] and
    [batch_max_bytes = 10] is sent one event whose message alone has
    twelve bytes: the bytes of the batch have reached [batch_max_bytes],
    [send] returns, no bulk request was issued and the batch still holds
    the event. *)
Lemma send_ignores_batch_max_bytes :
  let w := world shipper_ten_bytes [s3_event "arn:aws:s3:::b" "k" 0 "hello world!"] in
  let w' := fst (send es_accepts_all 0%nat w) in
  snd (send es_accepts_all 0%nat w) = inl tt
  /\ dict_get (_bulk_kwargs (self w')) (u "max_chunk_bytes") = Some (PInt 10)
  /\ 10 <= batch_message_bytes w'
  /\ bulk_requests (trace w') = []
  /\ _bulk_actions (self w') = [0%nat].
Proof. vm_compute. repeat split; discriminate. Qed.

(** Both branches of the rule, on a shipper with a batch of two actions:
    the first [send] stays below the bound, the second reaches it. *)
Lemma send_bulk_rule_example :
  let w := world shipper_of_two delivered_twice in
  let w1 := fst (send es_accepts_all 0%nat w) in
  let w2 := fst (send es_accepts_all 1%nat w1) in
  let wf := fst (flush es_accepts_all w1) in
  ((bulk_requests (trace w1) = bulk_requests (trace w)
    /\ _bulk_actions (self w1) = [0%nat])
   /\ bulk_requests (trace wf) = bulk_requests (trace w1) ++ [batch w1]
   /\ _bulk_actions (self wf) = [])
  /\
  ((bulk_requests (trace w2)
    = bulk_requests (trace w1)
      ++ [map (fun action => nth action (heap w2) []) [0%nat; 1%nat]]
    /\ _bulk_actions (self w2) = [])
   /\ bulk_requests (trace wf) = bulk_requests (trace w1) ++ [batch w1]
   /\ _bulk_actions (self wf) = []).
Proof.
  split.
  - exact (send_bulk_rule es_accepts_all 0%nat
             (world shipper_of_two delivered_twice)
             (fst (send es_accepts_all 0%nat (world shipper_of_two delivered_twice)))
             eq_refl eq_refl).
  - exact (send_bulk_rule es_accepts_all 1%nat
             (fst (send es_accepts_all 0%nat (world shipper_of_two delivered_twice)))
             (fst (send es_accepts_all 0%nat (world shipper_of_two delivered_twice)))
             eq_refl eq_refl).
Defined.




Example send_after_discover_dataset :
  let w := world shipper_without_index [s3_event "arn:aws:s3:::b" "k" 42 "line"] in
  let w1 := fst (discover_dataset json_loads_reference
                                  (trigger_event (sqs_record None)) w) in
  _es_index (self w1) = Some (u "logs-generic-default")
  /\ snd (send es_accepts_all 0%nat w1) = inl tt.
Proof. vm_compute. split; reflexivity. Qed.

(** C8. Two actions of one batch can carry the same [_id]: the same line
    delivered twice, or two objects whose bucket ARN and key concatenate
    to the same text.  The cluster rejects the second [create] and reports
    it under that [_id]; [_handle_outcome] then finds two actions with the
    [_id] of the error, the assertion [len(action_failed) == 1] fails, the
    replay handler is not called and the batch is not cleared. *)
Theorem handle_outcome_assertion_fails :
  (let w1 := fst (send es_create 0%nat (world shipper_of_two delivered_twice)) in
   let w2 := fst (send es_create 1%nat w1) in
   snd (send es_create 0%nat (world shipper_of_two delivered_twice)) = inl tt
   /\ snd (send es_create 1%nat w1) = inr AssertionError
   /\ map (fun a => dict_get a (u "_id")) (batch w2)
      = [Some (PStr (u "13c8a0d901-000000000042"));
         Some (PStr (u "13c8a0d901-000000000042"))]
   /\ length (bulk_requests (trace w2)) = 1%nat
   /\ length (trace w2) = 1%nat
   /\ _bulk_actions (self w2) = [0%nat; 1%nat])
  /\
  (let w1 := fst (send es_create 0%nat (world shipper_of_two colliding_objects)) in
   let w2 := fst (send es_create 1%nat w1) in
   snd (send es_create 1%nat w1) = inr AssertionError
   /\ (exists id, map (fun a => dict_get a (u "_id")) (batch w2)
                  = [Some id; Some id])
   /\ _bulk_actions (self w2) = [0%nat; 1%nat]).
Proof.
  split.
  - vm_compute. repeat split; reflexivity.
  - vm_compute. repeat split; try reflexivity. eexists. reflexivity.
Qed.

(** X6. The two [_enrich_event] of the repository agree: on a shipper
    without tags, the method of the shipper leaves the event dictionary
    and ends as the function of the handlers' utilities does when called
    with type ["logs"] and the dataset and namespace of the shipper; this
    holds also when [fields] or [message] is missing, where both raise
    after having set [data_stream]. *)
Theorem enrich_event_agrees_with_utils (w : World) (event : ref) (e : dict) :
  nth_error (heap w) event = Some e ->
  _tags (self w) = [] ->
  Es._enrich_event event w
  = (mkWorld (self w)
             (update (heap w) event
                     (fst (Utils._enrich_event e (u "logs") (_dataset (self w))
                                               (_namespace (self w)))))
             (trace w),
     snd (Utils._enrich_event e (u "logs") (_dataset (self w))
                              (_namespace (self w)))).
Proof.
  intros He Htags. unfold Es._enrich_event, Utils._enrich_event.
  rewrite (mbind_run _ _ w w (self w)) by reflexivity.
  erewrite mbind_run by (apply setitem_run; exact He).
  erewrite mbind_run
    by (apply load_run; cbn [heap]; eapply nth_error_update; exact He).
  unfold at_, key, lift. unfold mbind at 1.
  destruct (bind _ _) as [message|err]; cbn [fst snd].
  - erewrite mbind_run
      by (apply setitem_run; cbn [heap]; eapply nth_error_update; exact He).
    erewrite setitem_run
      by (cbn [heap]; rewrite update_update; eapply nth_error_update; exact He).
    cbn [self heap trace]. rewrite !update_update, Htags. reflexivity.
  - reflexivity.
Qed.

Lemma enrich_event_agrees_with_utils_example :
  let w := world shipper_without_index [s3_event "arn:aws:s3:::b" "k" 42 "line"] in
  let e := s3_event "arn:aws:s3:::b" "k" 42 "line" in
  Es._enrich_event 0%nat w
  = (mkWorld (self w)
             (update (heap w) 0%nat
                     (fst (Utils._enrich_event e (u "logs") (_dataset (self w))
                                               (_namespace (self w)))))
             (trace w),
     snd (Utils._enrich_event e (u "logs") (_dataset (self w))
                              (_namespace (self w)))).
Proof.
  exact (enrich_event_agrees_with_utils
           (world shipper_without_index [s3_event "arn:aws:s3:::b" "k" 42 "line"])
           0%nat (s3_event "arn:aws:s3:::b" "k" 42 "line") eq_refl eq_refl).
Defined.

(** X7. [flush] is idempotent: right after a [flush] that returned, a
    second [flush] returns too and changes nothing; it makes no bulk
    request and calls no replay handler. *)
Theorem flush_twice es_bulk (w w1 : World) :
  flush es_bulk w = (w1, inl tt) -> flush es_bulk w1 = (w1, inl tt).
Proof.
  intros H.
  assert (Hw1 : exists s h t, w1 = mkWorld (set_bulk_actions s []) h t).
  { unfold flush in H. unfold mbind at 1 in H. unfold get_self at 1 in H.
    unfold mbind at 1 in H.
    destruct (if 0 <? len (_bulk_actions (self w)) then _ else _)
      as [w2 [[]|e]]; [|discriminate].
    unfold mbind, get_self, put_self in H. injection H as <-. eauto. }
  destruct Hw1 as (s & h & t & ->). reflexivity.
Qed.

Lemma flush_twice_example :
  let w := fst (send es_accepts_all 0%nat (world shipper_of_two delivered_twice)) in
  let w1 := fst (flush es_accepts_all w) in
  flush es_accepts_all w1 = (w1, inl tt).
Proof.
  exact (flush_twice es_accepts_all
           (fst (send es_accepts_all 0%nat (world shipper_of_two delivered_twice)))
           (fst (flush es_accepts_all
                   (fst (send es_accepts_all 0%nat
                              (world shipper_of_two delivered_twice)))))
           eq_refl).
Defined.

(** X8. The batch stays below its bound: once [batch_max_actions] is
    positive and the shipper holds fewer actions than that, every [send]
    that returns leaves it so, and leaves the bound as it was. *)
Theorem send_keeps_batch_below_bound es_bulk (event : ref) (w w1 : World) :
  0 < _bulk_batch_size (self w) ->
  len (_bulk_actions (self w)) < _bulk_batch_size (self w) ->
  send es_bulk event w = (w1, inl tt) ->
  _bulk_batch_size (self w1) = _bulk_batch_size (self w)
  /\ len (_bulk_actions (self w1)) < _bulk_batch_size (self w1).
Proof.
  intros Hpos Hlt. rewrite send_split. unfold mbind.
  destruct (send_prepare event w) as [w0 [[]|e]] eqn:Ep; [|discriminate].
  apply send_prepare_frame in Ep. destruct Ep as (_ & Hsz & _ & Ha).
  intros Ef. pose proof Ef as Ef'. apply send_finish_run in Ef.
  destruct (len (_bulk_actions (self w0)) <? _bulk_batch_size (self w0)) eqn:E.
  - destruct Ef as [-> _]. apply Z.ltb_lt in E. split; [exact Hsz|exact E].
  - destruct Ef as [_ Hb].
    assert (Hsz1 : _bulk_batch_size (self w1) = _bulk_batch_size (self w0)).
    { unfold send_finish in Ef'. unfold mbind at 1 in Ef'.
      unfold get_self at 1 in Ef'. rewrite E in Ef'.
      unfold mbind at 1 in Ef'. rewrite call_es_bulk_run in Ef'.
      unfold mbind at 1 in Ef'.
      destruct (_handle_outcome _ _) as [w3 [[]|e]] eqn:Eh; [|discriminate].
      apply handle_outcome_frame in Eh. cbn [self heap trace] in Eh.
      destruct Eh as (Hs & _ & _).
      unfold mbind, get_self, put_self in Ef'. injection Ef' as <-.
      cbn [self set_bulk_actions _bulk_batch_size]. now rewrite Hs. }
    rewrite Hb, Hsz1, Hsz. split; [reflexivity|exact Hpos].
Qed.

Lemma send_keeps_batch_below_bound_example :
  let w := world shipper_of_two delivered_twice in
  let w1 := fst (send es_accepts_all 0%nat w) in
  _bulk_batch_size (self w1) = _bulk_batch_size (self w)
  /\ len (_bulk_actions (self w1)) < _bulk_batch_size (self w1).
Proof.
  exact (send_keeps_batch_below_bound es_accepts_all 0%nat
           (world shipper_of_two delivered_twice)
           (fst (send es_accepts_all 0%nat (world shipper_of_two delivered_twice)))
           eq_refl eq_refl eq_refl).
Defined.

(** X9. Whatever [json.loads] answers: whenever [discover_dataset]
    returns, the index of the shipper is
    [logs-<dataset>-<namespace>] for the dataset the shipper then has; a
    dataset that was configured is kept, and one that was empty has
    become one of ten names, [generic] among them.  The namespace, the
    batch, the event dictionaries and the trace are untouched. *)
Theorem discover_dataset_index (json_loads : pyval -> result pyval)
        (event : dict) (w w1 : World) :
  discover_dataset json_loads event w = (w1, inl tt) ->
  _es_index (self w1)
  = Some (u "logs-" ++ _dataset (self w1) ++ u "-" ++ _namespace (self w1))
  /\ (_dataset (self w) <> [] -> _dataset (self w1) = _dataset (self w))
  /\ (_dataset (self w) = [] ->
      In (_dataset (self w1))
         [u "generic"; u "aws.cloudtrail"; u "aws.cloudwatch_logs";
          u "aws.elb_logs"; u "aws.firewall_logs"; u "aws.lambda";
          u "aws.sns"; u "aws.s3_storage_lens"; u "aws.vpcflow"; u "aws.waf"])
  /\ _namespace (self w1) = _namespace (self w)
  /\ _bulk_actions (self w1) = _bulk_actions (self w)
  /\ heap w1 = heap w /\ trace w1 = trace w.
Proof.
  unfold discover_dataset. unfold mbind at 1. unfold get_self at 1.
  unfold mbind at 1.
  destruct (str_eqb (_dataset (self w)) []) eqn:Ed.
  - apply PyFacts.str_eqb_eq in Ed.
    match goal with
    | |- context [mbind ?m ?k w] => destruct (mbind m k w) as [w2 [[]|e]] eqn:E
    end; [|discriminate].
    assert (Hw2 : exists dataset,
               w2 = mkWorld (set_dataset (self w) dataset) (heap w) (trace w)
               /\ In dataset
                     [u "generic"; u "aws.cloudtrail"; u "aws.cloudwatch_logs";
                      u "aws.elb_logs"; u "aws.firewall_logs"; u "aws.lambda";
                      u "aws.sns"; u "aws.s3_storage_lens"; u "aws.vpcflow";
                      u "aws.waf"]).
    { unfold mbind at 1 in E. unfold lift at 1 in E.
      destruct (bind _ _) as [body|]; [|discriminate].
      unfold mbind at 1 in E. unfold lift at 1 in E.
      destruct (json_loads body) as [json_body|]; [|discriminate].
      unfold mbind at 1 in E. unfold lift at 1 in E.
      destruct (bind _ _) as [has_records|]; [|discriminate].
      unfold mbind at 1 in E.
      match type of E with
      | (let (_, _) := ?m w in _) = _ =>
        assert (Hk : exists r, m w = (w, r))
      end.
      { destruct has_records; [|unfold ret; eauto].
        unfold mbind, lift, ret.
        destruct (bind _ _) as [[]|]; eauto. }
      destruct Hk as (r & Hk). rewrite Hk in E. clear Hk.
      destruct r as [s3_object_key|]; [|discriminate].
      destruct (py_eq s3_object_key (PStr [])).
      - unfold put_self in E. injection E as <-.
        eexists. split; [reflexivity|]. left. reflexivity.
      - unfold mbind, lift, put_self in E.
        destruct (bind _ _) as [dataset|] eqn:Eb; [|discriminate].
        injection E as <-. exists dataset. split; [reflexivity|].
        repeat (apply PyFacts.bind_inl in Eb as ([] & _ & Eb);
                [injection Eb as <-; cbn; tauto|]).
        injection Eb as <-. left. reflexivity. }
    destruct Hw2 as (dataset & -> & Hin).
    unfold mbind, get_self, put_self. intros H. injection H as <-.
    cbn [self heap trace set_es_index set_dataset _es_index _dataset
         _namespace _bulk_actions].
    split; [reflexivity|]. split; [congruence|]. split; [intros _; exact Hin|].
    auto.
  - apply PyFacts.str_eqb_neq in Ed.
    unfold ret, mbind, get_self, put_self. intros H. injection H as <-.
    cbn [self heap trace set_es_index _es_index _dataset _namespace
         _bulk_actions].
    split; [reflexivity|]. split; [reflexivity|]. split; [congruence|]. auto.
Qed.

Lemma discover_dataset_index_example :
  let w := world shipper_without_dataset [] in
  let w1 := fst (discover_dataset json_loads_reference
                   (s3_notification "AWSLogs/1/CloudTrail/eu/x.json.gz") w) in
  _es_index (self w1)
  = Some (u "logs-" ++ _dataset (self w1) ++ u "-" ++ _namespace (self w1))
  /\ (_dataset (self w) <> [] -> _dataset (self w1) = _dataset (self w))
  /\ (_dataset (self w) = [] ->
      In (_dataset (self w1))
         [u "generic"; u "aws.cloudtrail"; u "aws.cloudwatch_logs";
          u "aws.elb_logs"; u "aws.firewall_logs"; u "aws.lambda";
          u "aws.sns"; u "aws.s3_storage_lens"; u "aws.vpcflow"; u "aws.waf"])
  /\ _namespace (self w1) = _namespace (self w)
  /\ _bulk_actions (self w1) = _bulk_actions (self w)
  /\ heap w1 = heap w /\ trace w1 = trace w.
Proof.
  exact (discover_dataset_index json_loads_reference
           (s3_notification "AWSLogs/1/CloudTrail/eu/x.json.gz")
           (world shipper_without_dataset [])
           (fst (discover_dataset json_loads_reference
                   (s3_notification "AWSLogs/1/CloudTrail/eu/x.json.gz")
                   (world shipper_without_dataset [])))
           eq_refl).
Defined.

Lemma discover_dataset_cloudtrail :
  _es_index (self (fst (discover_dataset json_loads_reference
                          (s3_notification "AWSLogs/1/CloudTrail/eu/x.json.gz")
                          (world shipper_without_dataset []))))
  = Some (u "logs-aws.cloudtrail-default").
Proof. vm_compute. reflexivity. Qed.

(** The identifier is computed from [fields] alone. *)
Lemma s3_object_id_dict_set (d : dict) (k : str) (v : pyval) :
  str_eqb k (u "fields") = false ->
  _s3_object_id (dict_set d k v) = _s3_object_id d.
Proof.
  intros Hk. unfold _s3_object_id.
  assert (Hf : at_ (PDict (dict_set d k v)) "fields" = at_ (PDict d) "fields").
  { unfold at_, key. cbn [py_getitem].
    now rewrite PyFacts.dict_get_set, Hk. }
  now rewrite Hf.
Qed.

Ltac eval_str_eqb :=
  repeat match goal with
         | |- context [str_eqb (u ?a) (u ?b)] =>
           let v := eval vm_compute in (str_eqb (u a) (u b)) in
           change (str_eqb (u a) (u b)) with v
         | H : context [str_eqb (u ?a) (u ?b)] |- _ =>
           let v := eval vm_compute in (str_eqb (u a) (u b)) in
           change (str_eqb (u a) (u b)) with v in H
         end.

(** X10. The action a [send] that returns has put in the batch: the
    event dictionary, enriched, with [_op_type] set to ["create"] whatever
    it was, with the [_index] and the [_id] it came with if it had them,
    and otherwise the index of the shipper and the identifier
    [_s3_object_id] computes from the event; every other entry is as the
    enrichment left it. *)
Theorem send_action_fields es_bulk (w w1 : World) (event : ref) (e : dict)
        (message : pyval) (index : str) :
  nth_error (heap w) event = Some e ->
  path (PDict e) ["fields"; "message"]%string = inl message ->
  _es_index (self w) = Some index ->
  index <> [] ->
  send es_bulk event w = (w1, inl tt) ->
  exists action : dict,
    nth_error (heap w1) event = Some action
    /\ dict_get action (u "_op_type") = Some (PStr (u "create"))
    /\ dict_get action (u "_index")
       = Some (match dict_get e (u "_index") with
               | Some i => i
               | None => PStr index
               end)
    /\ match dict_get e (u "_id") with
       | Some i => dict_get action (u "_id") = Some i
       | None => exists id, _s3_object_id e = inl id
                            /\ dict_get action (u "_id") = Some (PStr id)
       end
    /\ forall k : str,
         str_eqb (u "_op_type") k = false ->
         str_eqb (u "_index") k = false ->
         str_eqb (u "_id") k = false ->
         dict_get action k = dict_get (enriched (self w) e message) k.
Proof.
  intros He Hm Hi Hne. rewrite send_split. unfold mbind at 1.
  destruct (send_prepare event w) as [w0 [[]|err]] eqn:Ep; [|discriminate].
  intros Hf. apply send_finish_heap in Hf. rewrite Hf. clear Hf w1.
  unfold send_prepare in Ep.
  rewrite (mbind_run _ _ w w (self w)) in Ep by reflexivity.
  erewrite mbind_run in Ep by reflexivity.
  erewrite mbind_run in Ep
    by (apply enrich_event_run; [cbn [heap]; exact He|exact Hm]).
  erewrite mbind_run in Ep by reflexivity.
  cbn [self heap trace set_replay_args _es_index _dataset _namespace _tags] in Ep.
  rewrite Hi in Ep.
  replace (str_eqb index []) with false in Ep
    by (destruct index; [congruence|reflexivity]).
  erewrite mbind_run in Ep
    by (apply setitem_run; cbn [heap]; eapply nth_error_update; exact He).
  cbn [self heap trace] in Ep. rewrite update_update in Ep.
  erewrite mbind_run in Ep
    by (apply load_run; cbn [heap]; eapply nth_error_update; exact He).
  change (enriched (set_replay_args (self w) _) e message)
    with (enriched (self w) e message) in Ep.
  assert (Hkeep : forall k : str,
            str_eqb (u "data_stream") k = false ->
            str_eqb (u "event") k = false ->
            str_eqb (u "tags") k = false ->
            dict_get (enriched (self w) e message) k = dict_get e k).
  { intros k H1 H2 H3. unfold enriched.
    now rewrite !PyFacts.dict_get_set, H1, H2, H3. }
  set (e0 := enriched (self w) e message) in *.
  set (e1 := dict_set e0 (u "_op_type") (PStr (u "create"))) in *.
  set (s0 := set_replay_args (self w) _) in *.
  assert (Hstep1 : exists e2,
    ((e <- load event;;
      (if negb (dict_in (u "_id") e)
       then id <- lift (_s3_object_id e);; setitem event (u "_id") (PStr id)
       else ret tt);;
      s <- get_self;;
      put_self (set_bulk_actions s (_bulk_actions s ++ [event])))%shipper
       (mkWorld s0 (update (heap w) event e2) (trace w)) = (w0, inl tt))
    /\ dict_get e2 (u "_op_type") = Some (PStr (u "create"))
    /\ dict_get e2 (u "_index")
       = Some (match dict_get e (u "_index") with
               | Some i => i
               | None => PStr index
               end)
    /\ dict_get e2 (u "_id") = dict_get e (u "_id")
    /\ _s3_object_id e2 = _s3_object_id e
    /\ forall k : str,
         str_eqb (u "_op_type") k = false ->
         str_eqb (u "_index") k = false ->
         dict_get e2 k = dict_get e0 k).
  { unfold mbind at 1 in Ep.
    assert (Hin : dict_in (u "_index") e1 = dict_in (u "_index") e).
    { unfold dict_in, e1. rewrite PyFacts.dict_get_set.
      eval_str_eqb. cbv iota. now rewrite Hkeep by reflexivity. }
    assert (Hid1 : _s3_object_id e1 = _s3_object_id e).
    { unfold e1, e0, enriched.
      now rewrite !s3_object_id_dict_set by reflexivity. }
    rewrite Hin in Ep. unfold dict_in in Ep.
    destruct (dict_get e (u "_index")) as [i|] eqn:Ei; cbn [negb] in Ep.
    - exists e1. unfold ret in Ep. split; [exact Ep|].
      unfold e1. rewrite !PyFacts.dict_get_set. eval_str_eqb. cbv iota.
      rewrite !Hkeep by reflexivity.
      split; [reflexivity|]. split; [exact Ei|]. split; [reflexivity|].
      split; [exact Hid1|].
      intros k H1 _. now rewrite PyFacts.dict_get_set, H1.
    - erewrite setitem_run in Ep
        by (cbn [heap]; eapply nth_error_update; exact He).
      cbn [self heap trace] in Ep. rewrite update_update in Ep.
      exists (dict_set e1 (u "_index") (PStr index)).
      split; [exact Ep|].
      unfold e1. rewrite !PyFacts.dict_get_set. eval_str_eqb. cbv iota.
      rewrite !Hkeep by reflexivity.
      split; [reflexivity|]. split; [reflexivity|]. split; [reflexivity|].
      split; [rewrite s3_object_id_dict_set by reflexivity; exact Hid1|].
      intros k H1 H2. now rewrite !PyFacts.dict_get_set, H2, H1. }
  clear Ep. destruct Hstep1 as (e2 & Ep & Hop & Hindex & Hid & Hsid & Hrest).
  erewrite mbind_run in Ep
    by (apply load_run; cbn [heap]; eapply nth_error_update; exact He).
  unfold mbind at 1 in Ep. unfold dict_in in Ep. rewrite Hid in Ep.
  destruct (dict_get e (u "_id")) as [i|] eqn:Ei; cbn [negb] in Ep.
  - unfold ret, mbind, get_self, put_self in Ep. injection Ep as <-.
    cbn [heap]. exists e2.
    split; [eapply nth_error_update; exact He|].
    split; [exact Hop|]. split; [exact Hindex|]. split; [exact Hid|].
    intros k H1 H2 _. rewrite Hrest by assumption.
    unfold e0. reflexivity.
  - unfold mbind at 1 in Ep. unfold lift at 1 in Ep. rewrite Hsid in Ep.
    destruct (_s3_object_id e) as [id|err] eqn:Eid; [|discriminate].
    erewrite setitem_run in Ep
      by (cbn [heap]; eapply nth_error_update; exact He).
    cbn [self heap trace] in Ep. rewrite update_update in Ep.
    unfold mbind, get_self, put_self in Ep. injection Ep as <-.
    cbn [heap]. exists (dict_set e2 (u "_id") (PStr id)).
    split; [eapply nth_error_update; exact He|].
    rewrite !PyFacts.dict_get_set. eval_str_eqb. cbv iota.
    split; [exact Hop|]. split; [exact Hindex|].
    split; [exists id; split; reflexivity|].
    intros k H1 H2 H3. rewrite PyFacts.dict_get_set, H3. now apply Hrest.
Qed.

Lemma send_action_fields_example :
  let w := world shipper_of_two delivered_twice in
  let e := s3_event "arn:aws:s3:::b" "k" 42 "line" in
  let w1 := fst (send es_accepts_all 0%nat w) in
  exists action : dict,
    nth_error (heap w1) 0%nat = Some action
    /\ dict_get action (u "_op_type") = Some (PStr (u "create"))
    /\ dict_get action (u "_index")
       = Some (match dict_get e (u "_index") with
               | Some i => i
               | None => PStr (u "logs-generic-default")
               end)
    /\ match dict_get e (u "_id") with
       | Some i => dict_get action (u "_id") = Some i
       | None => exists id, _s3_object_id e = inl id
                            /\ dict_get action (u "_id") = Some (PStr id)
       end
    /\ forall k : str,
         str_eqb (u "_op_type") k = false ->
         str_eqb (u "_index") k = false ->
         str_eqb (u "_id") k = false ->
         dict_get action k
         = dict_get (enriched (self w) e (PStr (u "line"))) k.
Proof.
  refine (send_action_fields es_accepts_all
            (world shipper_of_two delivered_twice)
            (fst (send es_accepts_all 0%nat (world shipper_of_two delivered_twice)))
            0%nat (s3_event "arn:aws:s3:::b" "k" 42 "line") (PStr (u "line"))
            (u "logs-generic-default") eq_refl eq_refl eq_refl _ eq_refl).
  discriminate.
Defined.

(** A comprehension whose condition only reads: it leaves the world as it
    is and keeps elements for which the condition is true. *)
Lemma filter_M_reads {X : Type} (cond : X -> M bool) (f : X -> result bool)
      (w : World) :
  (forall x, cond x w = (w, f x)) ->
  forall xs w1 l, filter_M cond xs w = (w1, inl l) ->
    w1 = w /\ forall x, In x l -> In x xs /\ f x = inl true.
Proof.
  intros Hc xs. induction xs as [|x xs IH]; intros w1 l H; cbn [filter_M] in H.
  - unfold ret in H. injection H as <- <-. split; [reflexivity|intros ? []].
  - unfold mbind at 1 in H. rewrite Hc in H.
    destruct (f x) as [c|] eqn:Ef; [|discriminate].
    unfold mbind at 1 in H.
    destruct (filter_M cond xs w) as [w2 [rest|]] eqn:Er; [|discriminate].
    destruct (IH _ _ eq_refl) as [-> Hrest].
    unfold ret in H. injection H as <- <-. split; [reflexivity|].
    intros y Hy. destruct c.
    + destruct Hy as [<-|Hy]; [split; [left; reflexivity|exact Ef]|].
      destruct (Hrest y Hy). split; [right|]; assumption.
    + destruct (Hrest y Hy). split; [right|]; assumption.
Qed.

(** X11. Whenever [_handle_outcome] returns, it has called the replay
    handler once per reported error, in the order of the report, each
    time with the shipper kind ["elasticsearch"], the replay arguments of
    the shipper and an action of the batch whose [_id] equals ([==]) the
    [create._id] of the error, which for the [str] that [send] gives as
    [_id] means that the error carries that same [str]; without a replay
    handler nothing is called.  The shipper and the event dictionaries are
    as before. *)
Theorem handle_outcome_replays (errors : Z * list pyval) (w w1 : World) :
  _handle_outcome errors w = (w1, inl tt) ->
  self w1 = self w /\ heap w1 = heap w
  /\ exists actions : list dict,
       trace w1
       = trace w
         ++ match _replay_handler (self w) with
            | Some handler =>
              map (Replay handler (u "elasticsearch") (_replay_args (self w)))
                  actions
            | None => []
            end
       /\ Forall2 (fun error action =>
                     In action (batch w)
                     /\ exists id error_id,
                          at_ (PDict action) "_id" = inl id
                          /\ path error ["create"; "_id"]%string = inl error_id
                          /\ py_eq id error_id = true
                          /\ forall a, id = PStr a -> error_id = PStr a)
                  (snd errors) actions.
Proof.
  unfold _handle_outcome. generalize (snd errors) as l. clear errors.
  intros l. revert w. induction l as [|error l IH]; intros w H; cbn [for_M] in H.
  - unfold ret in H. injection H as <-. split; [reflexivity|].
    split; [reflexivity|]. exists []. split; [|constructor].
    destruct (_replay_handler (self w)); cbn [map]; now rewrite app_nil_r.
  - unfold mbind at 1 in H.
    match type of H with
    | (let (_, _) := ?body w in _) = _ =>
      destruct (body w) as [w2 [[]|]] eqn:Eb; [|discriminate]
    end.
    unfold mbind at 1 in Eb. unfold get_self at 1 in Eb.
    unfold mbind at 1 in Eb.
    match type of Eb with
    | context [filter_M ?c ?xs w] =>
      destruct (filter_M c xs w) as [w3 [failed|]] eqn:Ef; [|discriminate];
      apply (filter_M_reads c
               (fun action =>
                  bind (at_ (PDict (nth action (heap w) [])) "_id") (fun id =>
                  bind (bind (at_ error "create") (fun cr => at_ cr "_id"))
                       (fun error_id => inl (py_eq id error_id))))) in Ef;
      [|reflexivity]
    end.
    destruct Ef as [-> Hfailed].
    destruct (negb (len failed =? 1)) eqn:Elen; [discriminate|].
    apply negb_false_iff, Z.eqb_eq in Elen.
    destruct failed as [|action [|? ?]];
      try (unfold len in Elen; cbn [length] in Elen; lia).
    destruct (Hfailed action (or_introl eq_refl)) as [Hin Hid]. clear Hfailed.
    assert (Hmatch :
      In (nth action (heap w) []) (batch w)
      /\ exists id error_id,
           at_ (PDict (nth action (heap w) [])) "_id" = inl id
           /\ path error ["create"; "_id"]%string = inl error_id
           /\ py_eq id error_id = true
           /\ forall a, id = PStr a -> error_id = PStr a).
    { split; [unfold batch;
               apply (in_map (fun r : ref => nth r (heap w) [])); exact Hin|].
      apply PyFacts.bind_inl in Hid as (id & Hid & Hrest).
      apply PyFacts.bind_inl in Hrest as (error_id & Herr & Heq).
      assert (Hpy : py_eq id error_id = true) by congruence.
      exists id, error_id. split; [exact Hid|].
      split; [|split; [exact Hpy|]].
      - cbn [path]. destruct (at_ error "create"); [|discriminate].
        cbn [bind] in Herr |- *. destruct (at_ p "_id"); [|discriminate].
        exact Herr.
      - intros a ->. apply PyFacts.py_eq_str. exact Hpy. }
    destruct (_replay_handler (self w)) as [handler|] eqn:Eh.
    + unfold mbind, load, emit in Eb. cbn [hd] in Eb. injection Eb as <-.
      apply IH in H. cbn [self heap trace] in H.
      destruct H as (Hs & Hh & actions & Ht & Hall).
      rewrite Eh in Ht.
      split; [exact Hs|]. split; [exact Hh|].
      exists (nth action (heap w) [] :: actions). split.
      * rewrite Ht, <- app_assoc. reflexivity.
      * constructor; [exact Hmatch|exact Hall].
    + unfold ret in Eb. injection Eb as <-.
      apply IH in H. destruct H as (Hs & Hh & actions & Ht & Hall).
      rewrite Eh in Ht.
      split; [exact Hs|]. split; [exact Hh|].
      exists (nth action (heap w) [] :: actions). split.
      * exact Ht.
      * constructor; [exact Hmatch|exact Hall].
Qed.

Lemma handle_outcome_replays_example :
  let w := batch_of_two in
  let w1 := fst (_handle_outcome (1, [failed_create "b"]) w) in
  self w1 = self w /\ heap w1 = heap w
  /\ exists actions : list dict,
       trace w1
       = trace w
         ++ match _replay_handler (self w) with
            | Some handler =>
              map (Replay handler (u "elasticsearch") (_replay_args (self w)))
                  actions
            | None => []
            end
       /\ Forall2 (fun error action =>
                     In action (batch w)
                     /\ exists id error_id,
                          at_ (PDict action) "_id" = inl id
                          /\ path error ["create"; "_id"]%string = inl error_id
                          /\ py_eq id error_id = true
                          /\ forall a, id = PStr a -> error_id = PStr a)
                  [failed_create "b"] actions.
Proof.
  exact (handle_outcome_replays (1, [failed_create "b"]) batch_of_two
           (fst (_handle_outcome (1, [failed_create "b"]) batch_of_two))
           eq_refl).
Defined.



(** A cloud id the client cannot read: the constructor of the shipper
    raises what the constructor of the client raises. *)
Lemma init_client_rejects :
  __init__ client_rejects_cloud_id [] [] [] (u "not-a-cloud-id") (u "k")
           (u "generic") (u "default") [] 500 10485760
  = inr (Exception (u "ImproperlyConfigured")).
Proof. reflexivity. Qed.

(** X13. A [send] that raises has either made no bulk request and left
    the batch as it found it, or it has made its one bulk request, with
    the whole batch, and raised while handling the outcome: then the
    batch is not cleared, the shipper still holds every action of the
    request, the new one included, and the next [send] or [flush] sends
    them again. *)
Theorem send_raised_keeps_batch es_bulk (event : ref) (w w1 : World) (e : exn) :
  send es_bulk event w = (w1, inr e) ->
  (bulk_requests (trace w1) = bulk_requests (trace w)
   /\ _bulk_actions (self w1) = _bulk_actions (self w))
  \/ (exists request : list dict,
        bulk_requests (trace w1) = bulk_requests (trace w) ++ [request]
        /\ request = batch w1
        /\ _bulk_actions (self w1) = _bulk_actions (self w) ++ [event]).
Proof.
  rewrite send_split. unfold mbind.
  destruct (send_prepare event w) as [w0 [[]|e0]] eqn:Ep;
    pose proof Ep as Ep'; apply send_prepare_frame in Ep;
    destruct Ep as (Ht & Hsz & _ & Ha).
  - intros Ef. pose proof (send_finish_heap _ _ _ _ Ef) as Hh.
    apply send_finish_run in Ef.
    destruct (len (_bulk_actions (self w0)) <? _bulk_batch_size (self w0)).
    + destruct Ef as [_ Hr]. discriminate Hr.
    + destruct Ef as [Hb Hc]. right. exists (batch w0).
      rewrite Hb, Ht, Hc, Ha. split; [reflexivity|]. split; [|reflexivity].
      unfold batch. now rewrite Hh, Hc.
  - intros H. injection H as <- <-. left.
    rewrite Ht, Ha, app_nil_r. auto.
Qed.

Lemma send_raised_keeps_batch_example :
  let w := fst (send es_create 0%nat (world shipper_of_two delivered_twice)) in
  let w1 := fst (send es_create 1%nat w) in
  (bulk_requests (trace w1) = bulk_requests (trace w)
   /\ _bulk_actions (self w1) = _bulk_actions (self w))
  \/ (exists request : list dict,
        bulk_requests (trace w1) = bulk_requests (trace w) ++ [request]
        /\ request = batch w1
        /\ _bulk_actions (self w1) = _bulk_actions (self w) ++ [1%nat]).
Proof.
  apply (send_raised_keeps_batch es_create 1%nat
           (fst (send es_create 0%nat (world shipper_of_two delivered_twice)))
           (fst (send es_create 1%nat
                   (fst (send es_create 0%nat
                              (world shipper_of_two delivered_twice)))))
           AssertionError).
  vm_compute. reflexivity.
Defined.

End EsFacts.

(* ===================================================================== *)
(** ** Properties of storage/decorator.py *)
(* ===================================================================== *)

Module DecoratorFacts.
Import Py Decorator Scenarios.

(** *** The line splitter on one buffer *)

Lemma for_each_yield_newline (newline : bytes) (lines : list str) :
  forall ending_offset,
    Forall (fun r => item_newline r = newline)
           (fst (for_each (by_lines_yield newline) lines ending_offset)).
Proof.
  induction lines as [|line lines IH]; intros eo; cbn [for_each fst].
  - constructor.
  - unfold by_lines_yield at 1.
    destruct (utf8_encode line) as [encoded|]; cbn [fst]; [|constructor].
    specialize (IH (eo + (len encoded + len newline))).
    destruct (for_each _ lines _) as [out r]. cbn [fst] in *.
    constructor; [reflexivity|exact IH].
Qed.

Lemma by_lines_body_newline (st : Z * bytes) (it : item) :
  Forall (fun r => item_newline r = detected_newline (snd st ++ item_data it))
         (fst (by_lines_body st it)).
Proof.
  destruct st as [eo buffer]. destruct it as [[[[data s] e] nl] x].
  unfold by_lines_body. cbn [snd item_data].
  destruct (utf8_decode (buffer ++ data)) as [decoded|]; [|constructor].
  destruct (len (splitlines decoded) =? 0); [constructor|].
  destruct (utf8_encode _) as [popped|]; [|constructor].
  fold (detected_newline (buffer ++ data)).
  pose proof (for_each_yield_newline (detected_newline (buffer ++ data))
                (removelast (splitlines decoded)) eo) as H.
  destruct (for_each _ _ _) as [out [eo'|err]]; exact H.
Qed.

(** C1 (counterexample). On [a LF bb CR LF ccc] the stack does not yield
    the records [("a", 0, 2, LF)], [("bb", 2, 6, CR LF)], [("ccc", 6, 9, "")]. *)
Lemma mixed_newlines_not_per_line :
  get_by_lines json_loads "disabled" [mixed_newlines] 0
  <> ([(b "a", 0, 2, [LF], None); (b "bb", 2, 6, [CR; LF], None);
       (b "ccc", 6, 9, [], None)], None).
Proof. vm_compute. discriminate. Qed.

(** C1 (amended). With [json_content_type = disabled] and no multiline
    processor, the single chunk [a LF bb CR LF ccc] read from offset 0
    yields three records: ["a"] with offsets (0, 3) and newline CR LF,
    ["bb"] with offsets (3, 7) and newline CR LF, ["ccc"] with offsets
    (7, 10) and an empty newline.  Every line split off a buffer carries
    the one terminator detected for that buffer: CR LF when the buffer
    contains CR LF anywhere, else LF when it contains LF, else none. *)
Theorem mixed_newlines_one_terminator_per_buffer :
  get_by_lines json_loads "disabled" [mixed_newlines] 0
  = ([(b "a", 0, 3, [CR; LF], None); (b "bb", 3, 7, [CR; LF], None);
      (b "ccc", 7, 10, [], None)], None)
  /\ by_lines (reader [mixed_newlines]) (storage_of "disabled") 0 [] false
     = ([(b "a", 0, 3, [CR; LF], None); (b "bb", 3, 7, [CR; LF], None);
         (b "ccc", 7, 10, [], None)], None)
  /\ forall (st : Z * bytes) (it : item),
       Forall (fun r => item_newline r
                        = detected_newline (snd st ++ item_data it))
              (fst (by_lines_body st it)).
Proof.
  split; [vm_compute; reflexivity|].
  split; [vm_compute; reflexivity|].
  exact by_lines_body_newline.
Qed.

(** *** Offsets *)

Lemma chained_app (a c : list item) :
  forall start,
    chained start (a ++ c) <-> chained start a /\ chained (start + span a) c.
Proof.
  induction a as [|it a IH]; intros start; cbn [app chained span fold_right].
  - rewrite Z.add_0_r. tauto.
  - fold (span a). rewrite IH. split.
    + intros (Hs & He & Ha & Hc). repeat split; auto.
      replace (start + _) with (item_end it + span a) by lia. exact Hc.
    + intros ((Hs & He & Ha) & Hc). repeat split; auto.
      replace (item_end it + span a) with
        (start + (len (item_data it) + len (item_newline it) + span a)) by lia.
      exact Hc.
Qed.

Lemma span_app (a c : list item) : span (a ++ c) = span a + span c.
Proof.
  induction a as [|it a IH]; cbn [app span fold_right]; [reflexivity|].
  fold (span a) (span (a ++ c)). lia.
Qed.

(** What a loop over chained bodies yields is chained, and the offset it
    ends with is the offset it began with plus the span of its output. *)
Lemma for_each_chained {X S : Type} (offset : S -> Z) (body : S -> X -> loop S item) :
  (forall s x, chained (offset s) (fst (body s x))
               /\ match snd (body s x) with
                  | inl s' => offset s' = offset s + span (fst (body s x))
                  | inr _ => True
                  end) ->
  forall xs s,
    chained (offset s) (fst (for_each body xs s))
    /\ match snd (for_each body xs s) with
       | inl s' => offset s' = offset s + span (fst (for_each body xs s))
       | inr _ => True
       end.
Proof.
  intros Hbody xs. induction xs as [|x xs IH]; intros s; cbn [for_each].
  - cbn. split; [exact I|lia].
  - specialize (Hbody s x). destruct (body s x) as [out [s'|e]]; cbn [fst snd] in *.
    + destruct Hbody as [Hc Ho]. specialize (IH s').
      destruct (for_each body xs s') as [out' r]. cbn [fst snd] in *.
      destruct IH as [Hc' Ho']. split.
      * apply chained_app. split; [exact Hc|]. rewrite <- Ho. exact Hc'.
      * destruct r as [s''|]; [|exact I]. rewrite span_app. lia.
    + tauto.
Qed.

Lemma by_lines_yield_chained (newline : bytes) (ending_offset : Z) (line : str) :
  chained ending_offset (fst (by_lines_yield newline ending_offset line))
  /\ match snd (by_lines_yield newline ending_offset line) with
     | inl e => e = ending_offset
                    + span (fst (by_lines_yield newline ending_offset line))
     | inr _ => True
     end.
Proof.
  unfold by_lines_yield. destruct (utf8_encode line) as [encoded|]; cbn.
  - repeat split; lia.
  - tauto.
Qed.

Lemma by_lines_body_chained (st : Z * bytes) (it : item) :
  chained (fst st) (fst (by_lines_body st it))
  /\ match snd (by_lines_body st it) with
     | inl st' => fst st' = fst st + span (fst (by_lines_body st it))
     | inr _ => True
     end.
Proof.
  destruct st as [eo buffer]. destruct it as [[[[data s] e] nl] x].
  unfold by_lines_body. cbn [fst].
  destruct (utf8_decode (buffer ++ data)) as [decoded|]; [|cbn; tauto].
  destruct (len (splitlines decoded) =? 0); [cbn; split; [exact I|lia]|].
  destruct (utf8_encode _) as [popped|]; [|cbn; tauto].
  match goal with
  | |- context [for_each (by_lines_yield ?n) ?l eo] =>
    pose proof (for_each_chained (fun z : Z => z) (by_lines_yield n)
                  (by_lines_yield_chained n) l eo) as H
  end.
  cbv beta in H.
  destruct (for_each _ _ _) as [out [eo'|err]]; cbn [fst snd] in *; exact H.
Qed.

Lemma by_lines_rest_chained (st : Z * bytes) :
  chained (fst st) (by_lines_rest st).
Proof.
  destruct st as [eo buffer]. unfold by_lines_rest. cbn [fst].
  destruct (0 <? len buffer); cbn; [|exact I]. repeat split; lia.
Qed.

(** X14. For every input, also one that [by_lines] gives up on with an
    exception: the records follow each other from [range_start], each
    starting where the one before ended and ending [len(payload) +
    len(newline)] further. *)
Lemma by_lines_chained (func : GetByLinesCallable) (storage : Storage)
      (range_start : Z) (body : bytes) (is_gzipped : bool) :
  chained range_start
          (fst (by_lines func storage range_start body is_gzipped)).
Proof.
  unfold by_lines, for_gen.
  pose proof (for_each_chained fst by_lines_body by_lines_body_chained
                (fst (func storage range_start body is_gzipped))
                (range_start, [])) as [Hc Ho].
  destruct (for_each by_lines_body _ _) as [out [st|e]]; cbn [fst snd] in *.
  - destruct (snd (func storage range_start body is_gzipped)); cbn [fst].
    + exact Hc.
    + apply chained_app. split; [exact Hc|]. rewrite <- Ho.
      apply by_lines_rest_chained.
  - destruct (snd (func storage range_start body is_gzipped)); exact Hc.
Qed.

(** *** The JSON collector *)

Import JsonCollectorState.

(** *** The circuit breaker *)

Lemma for_each_silent {X S A : Type} (body : S -> X -> loop S A) :
  (forall s x, exists a, fst (body s x) = [a]) ->
  forall xs s s', for_each body xs s = ([], inl s') -> xs = [] /\ s' = s.
Proof.
  intros Hbody [|x xs] s s' H; cbn [for_each] in H.
  - injection H as <-. auto.
  - destruct (Hbody s x) as [a Ha].
    destruct (body s x) as [out [s1|e]]; cbn [fst] in Ha; subst out.
    + destruct (for_each body xs s1). discriminate.
    + discriminate.
Qed.

(** A fallback that yields nothing and ends leaves the state as it is. *)
Lemma yield_fallback_silent (st st' : t) :
  yield_fallback st = ([], inl st') -> st' = st.
Proof.
  unfold yield_fallback, _by_lines_fallback, for_gen.
  match goal with
  | |- context [for_each ?body (fst ?g) st] =>
    pose proof (for_each_silent body) as Hsilent;
    generalize dependent g
  end.
  intros g.
  destruct (for_each _ (fst g) st) as [lines r] eqn:E.
  intros H'.
  assert (Hl : lines = []).
  { destruct r, (snd g); injection H' as Hm _;
      destruct lines; try reflexivity; discriminate. }
  subst lines.
  destruct r as [s1|e].
  - apply Hsilent in E.
    + destruct E as [_ ->]. destruct (snd g); [discriminate|]. congruence.
    + intros s [[[[line a] c] nl] x]. eexists. reflexivity.
  - destruct (snd g); discriminate.
Qed.

(** A record that yields nothing was buffered after a failed parse: the
    breaker is one higher, and the circuit is broken if it is above 1000. *)
Lemma collect_body_silent (json_parser : bytes -> option pyval)
      (st st' : t) (it : item) :
  collect_body json_parser None st it = ([], inl st') ->
  is_a_json_object_circuit_breaker st'
  = is_a_json_object_circuit_breaker st + 1
  /\ (1000 < is_a_json_object_circuit_breaker st' ->
      is_a_json_object_circuit_broken st' = true).
Proof.
  destruct it as [[[[data s] e] newline] x].
  unfold collect_body.
  set (forwarded := if negb (has_an_object_start st) then _ else _).
  assert (Hf : forall out r, forwarded = (out, r) ->
                match r with
                | inl s1 => is_a_json_object_circuit_breaker s1
                            = is_a_json_object_circuit_breaker st
                            /\ (if has_an_object_start s1 then out = []
                                else out <> [])
                | inr _ => True
                end).
  { subst forwarded. intros out r.
    destruct (has_an_object_start st) eqn:Hs; cbn [negb].
    - intros H. injection H as <- <-. rewrite Hs. auto.
    - destruct (utf8_decode data) as [decoded|].
      + destruct (_ && _); cbn [has_an_object_start set_has_an_object_start negb].
        * intros H. injection H as <- <-. cbn. auto.
        * rewrite Hs. cbn [negb]. intros H. injection H as <- <-. cbn.
          rewrite Hs. split; [reflexivity|discriminate].
      + intros H. injection H as <- <-. exact I. }
  destruct forwarded as [out [s1|err]]; [|discriminate].
  specialize (Hf out (inl s1) eq_refl). cbn beta iota in Hf.
  destruct Hf as [Hb Hout].
  destruct (has_an_object_start s1) eqn:Hs1.
  2:{ intros H. injection H as -> ->. congruence. }
  subst out. cbn [app].
  unfold _collector. cbn [unfinished_line set_unfinished_line].
  destruct (json_parser _) as [v|].
  - cbn [for_each app]. destruct (is_a_json_object_circuit_broken _).
    + destruct (yield_fallback _). discriminate.
    + discriminate.
  - destruct (if is_a_json_object _ then _ else false).
    + cbn [for_each app]. destruct (is_a_json_object_circuit_broken _).
      * destruct (yield_fallback _). discriminate.
      * discriminate.
    + cbn [for_each app].
      match goal with
      | |- context [is_a_json_object_circuit_broken ?s2] =>
        set (s2' := s2)
      end.
      assert (Hb2 : is_a_json_object_circuit_breaker s2'
                    = is_a_json_object_circuit_breaker st + 1
                    /\ (1000 < is_a_json_object_circuit_breaker s2' ->
                        is_a_json_object_circuit_broken s2' = true)).
      { subst s2'. clear -Hb. destruct s1 as [? ? ? ? ? ? ? breaker].
        cbn in Hb |- *. subst breaker.
        destruct (1000 <? _) eqn:E; cbn; split; auto.
        intros Hlt. apply Z.ltb_ge in E. lia. }
      destruct (is_a_json_object_circuit_broken s2') eqn:Hbr.
      * destruct (yield_fallback s2') as [out' r] eqn:Ey.
        intros H. injection H as -> ->.
        apply yield_fallback_silent in Ey. subst st'.
        exact (conj (proj1 Hb2) (fun _ => Hbr)).
      * intros H. injection H as <-.
        split; [exact (proj1 Hb2)|].
        intros Hlt. apply (proj2 Hb2) in Hlt. discriminate.
Qed.

Lemma collect_run_silent (json_parser : bytes -> option pyval) (items : list item) :
  forall st st',
    for_each (collect_body json_parser None) items st = ([], inl st') ->
    is_a_json_object_circuit_breaker st'
    = is_a_json_object_circuit_breaker st + len items
    /\ (items <> [] -> 1000 < is_a_json_object_circuit_breaker st' ->
        is_a_json_object_circuit_broken st' = true).
Proof.
  induction items as [|it items IH]; intros st st' H; cbn [for_each] in H.
  - injection H as <-. unfold len. cbn. split; [lia|congruence].
  - destruct (collect_body json_parser None st it) as [out [s1|e]] eqn:E;
      [|discriminate].
    destruct (for_each _ items s1) as [out' r] eqn:E'.
    injection H as Hout ->. apply app_eq_nil in Hout as [-> ->].
    apply collect_body_silent in E. destruct E as [Hb Ht].
    pose proof (IH _ _ E') as [Hb' Ht'].
    split.
    + rewrite Hb', Hb. unfold len. cbn [length]. lia.
    + intros _ Hlt. destruct items as [|it' items].
      * cbn [for_each] in E'. injection E' as <-. auto.
      * apply Ht'; [discriminate|exact Hlt].
Qed.

(** A parse that fails while no object was collected yet, with the
    breaker at 1000 or more: the circuit breaks and the record's output is
    the fallback over the buffer. *)
Lemma breaker_trips (json_parser : bytes -> option pyval) (st : t)
      (data newline : bytes) (s e : Z) (x : option Z) :
  has_an_object_start st = true ->
  is_a_json_object st = false ->
  json_parser (unfinished_line st ++ (data ++ newline)) = None ->
  1000 <= is_a_json_object_circuit_breaker st ->
  let st1 := fst (_collector json_parser data newline st) in
  is_a_json_object_circuit_broken st1 = true
  /\ unfinished_line st1 = unfinished_line st ++ (data ++ newline)
  /\ collect_body json_parser None st (data, s, e, newline, x)
     = yield_fallback st1.
Proof.
  intros Hstart Hobj Hparse Hbr st1. subst st1.
  unfold collect_body. rewrite Hstart. cbn [negb]. rewrite Hstart.
  unfold _collector. cbn [unfinished_line set_unfinished_line].
  rewrite Hparse.
  cbn [is_a_json_object set_unfinished_line]. rewrite Hobj.
  cbn [is_a_json_object_circuit_breaker set_is_a_json_object_circuit_breaker
       set_unfinished_line].
  replace (1000 <? _) with true by (symmetry; apply Z.ltb_lt; lia).
  cbn [fst snd for_each app is_a_json_object_circuit_broken
       set_is_a_json_object_circuit_broken unfinished_line
       set_is_a_json_object_circuit_breaker set_unfinished_line].
  repeat split.
  destruct (yield_fallback _). reflexivity.
Qed.

(** C5 (counterexample). 1100 objects [{}] and then 2000 lines [{], every
    line ended by a carriage return alone (the records reach the collector
    with an empty newline).  Each object lowers the breaker by one, to
    -1100; the 2000 lines that follow are buffered one after the other
    without any output and without fallback, the circuit is not broken. *)
Lemma breaker_below_zero_buffers_2000_records :
  let up := fst (upstream [cr_objects_then_braces] 0) in
  for_each (collect_body json_loads None) (firstn 1100 up) (collector_start 0)
  = (cr_object_records, inl after_cr_objects)
  /\ is_a_json_object_circuit_breaker after_cr_objects = -1100
  /\ length (skipn 1100 up) = 2000%nat
  /\ for_each (collect_body json_loads None) (skipn 1100 up) after_cr_objects
     = ([], inl after_cr_braces)
  /\ is_a_json_object_circuit_broken after_cr_braces = false
  /\ unfinished_line after_cr_braces = times 2000 (b "{")
  /\ get_by_lines json_loads "ndjson" [cr_objects_then_braces] 0
     = (cr_object_records, None).
Proof.
  cbv zeta.
  split; [vm_compute; reflexivity|].
  split; [reflexivity|].
  split; [vm_compute; reflexivity|].
  split; [vm_compute; reflexivity|].
  split; [reflexivity|].
  split; [reflexivity|].
  vm_compute; reflexivity.
Qed.

(** C5 (amended). In ndjson mode without expander, a run of upstream
    records that yield nothing raises the breaker by one per record, and
    the circuit is broken as soon as the breaker is above 1000: from a
    breaker at [c], at most [1000 - c] records are buffered without output
    or fallback.  When a parse fails with the breaker at 1000 or more and no
    object collected so far, the circuit breaks and the output of the
    record is the [by_lines] fallback over the buffer.  For 2000 lines
    [{not json at all] the output is 2000 line records from offset 0,
    [is_a_json_object] stays false and the circuit is broken. *)
Theorem circuit_breaker_bound (json_parser : bytes -> option pyval)
        (st st' : t) (items : list item) :
  for_each (collect_body json_parser None) items st = ([], inl st') ->
  (is_a_json_object_circuit_breaker st'
   = is_a_json_object_circuit_breaker st + len items
   /\ (items <> [] -> is_a_json_object_circuit_broken st' = false ->
       len items <= 1000 - is_a_json_object_circuit_breaker st))
  /\ (forall (s0 : t) (data newline : bytes) (s e : Z) (x : option Z),
        has_an_object_start s0 = true ->
        is_a_json_object s0 = false ->
        json_parser (unfinished_line s0 ++ (data ++ newline)) = None ->
        1000 <= is_a_json_object_circuit_breaker s0 ->
        is_a_json_object_circuit_broken
          (fst (_collector json_parser data newline s0)) = true
        /\ collect_body json_parser None s0 (data, s, e, newline, x)
           = yield_fallback (fst (_collector json_parser data newline s0)))
  /\ get_by_lines json_loads "ndjson" [not_json_2000] 0
     = (not_json_records 2000, None)
  /\ collector_run json_loads [not_json_2000] 0
     = (not_json_records 2000, inl not_json_final)
  /\ is_a_json_object not_json_final = false
  /\ is_a_json_object_circuit_broken not_json_final = true.
Proof.
  intros H. split; [|split; [|split; [|split; [|split]]]].
  - apply collect_run_silent in H. destruct H as [Hb Ht].
    split; [exact Hb|]. intros Hne Hbr.
    destruct (Z.ltb_spec 1000 (is_a_json_object_circuit_breaker st')) as [Hlt|Hle].
    + rewrite (Ht Hne Hlt) in Hbr. discriminate.
    + lia.
  - intros s0 data newline s e x H1 H2 H3 H4.
    pose proof (breaker_trips json_parser s0 data newline s e x H1 H2 H3 H4)
      as (Ha & _ & Hc).
    split; assumption.
  - vm_compute. reflexivity.
  - vm_compute. reflexivity.
  - reflexivity.
  - reflexivity.
Qed.

Lemma circuit_breaker_bound_example :
  let st := collector_start 0 in
  let items := firstn 3 (not_json_records 2000) in
  let st' := JsonCollectorState.mk (storage_of "ndjson") 0 0
               (times 3 (not_json ++ [LF])) true false false 3 in
  (is_a_json_object_circuit_breaker st'
   = is_a_json_object_circuit_breaker st + len items
   /\ (items <> [] -> is_a_json_object_circuit_broken st' = false ->
       len items <= 1000 - is_a_json_object_circuit_breaker st))
  /\ (forall (s0 : t) (data newline : bytes) (s e : Z) (x : option Z),
        has_an_object_start s0 = true ->
        is_a_json_object s0 = false ->
        json_loads (unfinished_line s0 ++ (data ++ newline)) = None ->
        1000 <= is_a_json_object_circuit_breaker s0 ->
        is_a_json_object_circuit_broken
          (fst (_collector json_loads data newline s0)) = true
        /\ collect_body json_loads None s0 (data, s, e, newline, x)
           = yield_fallback (fst (_collector json_loads data newline s0)))
  /\ get_by_lines json_loads "ndjson" [not_json_2000] 0
     = (not_json_records 2000, None)
  /\ collector_run json_loads [not_json_2000] 0
     = (not_json_records 2000, inl not_json_final)
  /\ is_a_json_object not_json_final = false
  /\ is_a_json_object_circuit_broken not_json_final = true.
Proof.
  exact (circuit_breaker_bound json_loads (collector_start 0) _
           (firstn 3 (not_json_records 2000)) eq_refl).
Defined.

(** *** Stages that hand records on *)

(** A loop that yields one value per value of its iterator, and keeps no
    state, yields the image of the iterator and ends as it does. *)
Lemma for_each_map {X A : Type} (body : unit -> X -> loop unit A) (f : X -> A) :
  (forall x, body tt x = ([f x], inl tt)) ->
  forall xs, for_each body xs tt = (map f xs, inl tt).
Proof.
  intros Hbody xs.
  induction xs as [|x xs IH]; cbn [for_each map]; [reflexivity|].
  now rewrite Hbody, IH.
Qed.

Lemma gen_of_loop_map {X A : Type} (body : unit -> X -> loop unit A) (f : X -> A)
      (it : gen X) :
  (forall x, body tt x = ([f x], inl tt)) ->
  gen_of_loop (for_gen body it tt) = (map f (fst it), snd it).
Proof.
  intros Hbody. unfold for_gen. rewrite (for_each_map body f Hbody).
  destruct it as [xs [e|]]; reflexivity.
Qed.

Lemma map_id_on {A : Type} (f : A -> A) (l : list A) :
  Forall (fun x => f x = x) l -> map f l = l.
Proof.
  induction 1 as [|x l Hx _ IH]; cbn [map]; [reflexivity|].
  now rewrite Hx, IH.
Qed.

(** Every record of [by_lines] has [None] as its last component. *)
Lemma for_each_yield_none (newline : bytes) (lines : list str) :
  forall ending_offset,
    Forall (fun r : item => snd r = None)
           (fst (for_each (by_lines_yield newline) lines ending_offset)).
Proof.
  induction lines as [|line lines IH]; intros eo; cbn [for_each fst].
  - constructor.
  - unfold by_lines_yield at 1.
    destruct (utf8_encode line) as [encoded|]; cbn [fst]; [|constructor].
    specialize (IH (eo + (len encoded + len newline))).
    destruct (for_each _ lines _) as [out r]. cbn [fst] in *.
    constructor; [reflexivity|exact IH].
Qed.

Lemma by_lines_body_none (st : Z * bytes) (it : item) :
  Forall (fun r : item => snd r = None) (fst (by_lines_body st it)).
Proof.
  destruct st as [eo buffer]. destruct it as [[[[data s] e] nl] x].
  unfold by_lines_body.
  destruct (utf8_decode (buffer ++ data)) as [decoded|]; [|constructor].
  destruct (len (splitlines decoded) =? 0); [constructor|].
  destruct (utf8_encode _) as [popped|]; [|constructor].
  match goal with
  | |- context [for_each (by_lines_yield ?n) ?l eo] =>
    pose proof (for_each_yield_none n l eo) as H
  end.
  destruct (for_each _ _ _) as [out [eo'|err]]; exact H.
Qed.

Lemma for_each_forall {X S A : Type} (P : A -> Prop) (body : S -> X -> loop S A) :
  (forall s x, Forall P (fst (body s x))) ->
  forall xs s, Forall P (fst (for_each body xs s)).
Proof.
  intros Hbody xs. induction xs as [|x xs IH]; intros s; cbn [for_each].
  - constructor.
  - specialize (Hbody s x). destruct (body s x) as [out [s'|e]]; cbn [fst] in *.
    + specialize (IH s'). destruct (for_each body xs s') as [out' r].
      cbn [fst] in *. apply Forall_app. auto.
    + exact Hbody.
Qed.

Lemma by_lines_none (func : GetByLinesCallable) (storage : Storage)
      (range_start : Z) (body : bytes) (is_gzipped : bool) :
  Forall (fun r : item => snd r = None)
         (fst (by_lines func storage range_start body is_gzipped)).
Proof.
  unfold by_lines, for_gen.
  pose proof (for_each_forall _ by_lines_body by_lines_body_none
                (fst (func storage range_start body is_gzipped))
                (range_start, [])) as H.
  destruct (for_each by_lines_body _ _) as [out [[eo buffer]|e]];
    cbn [fst] in *.
  - destruct (snd (func storage range_start body is_gzipped)); cbn [fst].
    + exact H.
    + apply Forall_app. split; [exact H|].
      unfold by_lines_rest. destruct (0 <? len buffer); repeat constructor.
  - destruct (snd (func storage range_start body is_gzipped)); exact H.
Qed.

(** [by_lines] reads the data of what its iterator yields and how the
    iterator ends, nothing else. *)
Lemma by_lines_reads_data (func func' : GetByLinesCallable) (storage : Storage)
      (range_start : Z) (body : bytes) (is_gzipped : bool) :
  map item_data (fst (func storage range_start body is_gzipped))
  = map item_data (fst (func' storage range_start body is_gzipped)) ->
  snd (func storage range_start body is_gzipped)
  = snd (func' storage range_start body is_gzipped) ->
  by_lines func storage range_start body is_gzipped
  = by_lines func' storage range_start body is_gzipped.
Proof.
  intros Hd He. unfold by_lines, for_gen. cbv zeta. rewrite He.
  assert (Hloop : forall xs ys st,
             map item_data xs = map item_data ys ->
             for_each by_lines_body xs st = for_each by_lines_body ys st).
  { induction xs as [|x xs IH]; intros [|y ys] st H; cbn [map] in H;
      try discriminate; [reflexivity|].
    injection H as Hx Hxs. cbn [for_each].
    assert (Hb : by_lines_body st x = by_lines_body st y).
    { destruct st as [eo buffer].
      destruct x as [[[[d ?] ?] ?] ?], y as [[[[d' ?] ?] ?] ?].
      cbn [item_data] in Hx. subst d'. reflexivity. }
    rewrite Hb. destruct (by_lines_body st y) as [out [st'|e]]; [|reflexivity].
    now rewrite (IH ys st' Hxs). }
  now rewrite (Hloop _ _ _ Hd).
Qed.

(** X15. With [json_content_type] set to [disabled] and no multiline
    processor, the stack of decorators over a storage whose object is not
    gzipped is the line splitter alone: [json_collector], [multi_line]
    and [inflate] hand on what they get, whatever the reader yields, and
    also when it raises. *)
Theorem disabled_stack_is_by_lines
        (json_parser : bytes -> option pyval) (gzip_chunks : bytes -> Z -> gen bytes)
        (func : GetByLinesCallable) (storage : Storage)
        (range_start : Z) (body : bytes) :
  json_content_type storage = u "disabled" ->
  multiline_processor storage = None ->
  json_collector json_parser (multi_line (by_lines (inflate gzip_chunks func)))
                 storage range_start body false
  = by_lines func storage range_start body false.
Proof.
  intros Hj Hm. unfold json_collector. rewrite Hj, Hm.
  replace (str_eqb (u "disabled") (u "disabled")) with true by reflexivity.
  cbn [orb].
  rewrite (gen_of_loop_map _
             (fun it : item =>
                let '(data, starting_offset, ending_offset, newline, _) := it in
                (data, starting_offset, ending_offset, newline, None)))
    by (intros [[[[? ?] ?] ?] ?]; reflexivity).
  unfold multi_line. rewrite Hm.
  rewrite (gen_of_loop_map _ (fun it : item => it))
    by (intros [[[[? ?] ?] ?] ?]; reflexivity).
  rewrite map_id.
  cbn [fst snd].
  rewrite map_id_on.
  2:{ eapply Forall_impl; [|apply by_lines_none].
      intros [[[[? ?] ?] ?] x] H. cbn [snd] in H. now subst x. }
  rewrite <- surjective_pairing.
  apply by_lines_reads_data.
  - unfold inflate.
    rewrite (gen_of_loop_map _
               (fun it : item =>
                  let '(data, _, _, _, _) := it in (data, 0, 0, [], None)))
      by (intros [[[[? ?] ?] ?] ?]; reflexivity).
    cbn [fst]. rewrite map_map. apply map_ext.
    intros [[[[? ?] ?] ?] ?]. reflexivity.
  - unfold inflate.
    rewrite (gen_of_loop_map _
               (fun it : item =>
                  let '(data, _, _, _, _) := it in (data, 0, 0, [], None)))
      by (intros [[[[? ?] ?] ?] ?]; reflexivity).
    reflexivity.
Qed.

Lemma disabled_stack_is_by_lines_example :
  json_collector json_loads
                 (multi_line (by_lines (inflate no_gzip (reader [mixed_newlines]))))
                 (storage_of "disabled") 0 [] false
  = by_lines (reader [mixed_newlines]) (storage_of "disabled") 0 [] false.
Proof.
  exact (disabled_stack_is_by_lines json_loads no_gzip (reader [mixed_newlines])
           (storage_of "disabled") 0 [] eq_refl eq_refl).
Defined.

(** *** UTF-8, character by character *)

Lemma byte_val_range (x : byte) : 0 <= byte_val x < 256.
Proof.
  unfold byte_val. pose proof (Byte.to_N_bounded x). lia.
Qed.

Lemma byte_of_val (x : byte) : byte_of (byte_val x) = x.
Proof.
  unfold byte_of, byte_val. rewrite N2Z.id, Byte.of_to_N. reflexivity.
Qed.

Lemma byte_val_of (z : Z) : 0 <= z < 256 -> byte_val (byte_of z) = z.
Proof.
  intros H. unfold byte_of, byte_val.
  destruct (Byte.of_N (Z.to_N z)) as [x|] eqn:E.
  - apply Byte.to_of_N in E. rewrite E. lia.
  - apply Byte.of_N_None_iff in E. lia.
Qed.

Lemma utf8_decode_cons (b0 : byte) (r0 : bytes) :
  utf8_decode (b0 :: r0)
  = let v0 := byte_val b0 in
    if v0 <? 0x80 then option_map (cons v0) (utf8_decode r0)
    else if in_range 0xC2 0xDF b0 then
      match r0 with
      | b1 :: r1 =>
        if is_cont b1
        then option_map (cons ((v0 - 0xC0) * 64 + cont_val b1)) (utf8_decode r1)
        else None
      | _ => None
      end
    else if in_range 0xE0 0xEF b0 then
      match r0 with
      | b1 :: b2 :: r2 =>
        if in_range (if v0 =? 0xE0 then 0xA0 else 0x80)
                    (if v0 =? 0xED then 0x9F else 0xBF) b1 && is_cont b2
        then option_map
               (cons ((v0 - 0xE0) * 4096 + cont_val b1 * 64 + cont_val b2))
               (utf8_decode r2)
        else None
      | _ => None
      end
    else if in_range 0xF0 0xF4 b0 then
      match r0 with
      | b1 :: b2 :: b3 :: r3 =>
        if in_range (if v0 =? 0xF0 then 0x90 else 0x80)
                    (if v0 =? 0xF4 then 0x8F else 0xBF) b1
           && is_cont b2 && is_cont b3
        then option_map
               (cons ((v0 - 0xF0) * 262144 + cont_val b1 * 4096
                      + cont_val b2 * 64 + cont_val b3))
               (utf8_decode r3)
        else None
      | _ => None
      end
    else None.
Proof. reflexivity. Qed.

Ltac bools :=
  repeat match goal with
         | H : _ && _ = true |- _ => apply andb_true_iff in H; destruct H
         | H : (_ <=? _) = true |- _ => apply Z.leb_le in H
         | H : (_ <? _) = true |- _ => apply Z.ltb_lt in H
         | H : (_ <? _) = false |- _ => apply Z.ltb_ge in H
         | H : (_ =? _) = true |- _ => apply Z.eqb_eq in H
         | H : (_ =? _) = false |- _ => apply Z.eqb_neq in H
         end.

Lemma encodes_1 (b0 : byte) :
  (byte_val b0 <? 0x80) = true -> encodes [b0] (byte_val b0).
Proof.
  intros H. pose proof (byte_val_range b0) as R. split; [|split].
  - unfold utf8_encode_cp.
    replace (byte_val b0 <? 0) with false by (symmetry; apply Z.ltb_ge; lia).
    rewrite H, byte_of_val. reflexivity.
  - intros rest. cbn [app]. rewrite utf8_decode_cons. cbv zeta. now rewrite H.
  - left. bools. rewrite byte_of_val. split; [lia|reflexivity].
Qed.

Lemma encodes_2 (b0 b1 : byte) :
  (byte_val b0 <? 0x80) = false ->
  in_range 0xC2 0xDF b0 = true -> is_cont b1 = true ->
  encodes [b0; b1] ((byte_val b0 - 0xC0) * 64 + cont_val b1).
Proof.
  intros H0 H1 H2. split; [|split].
  - unfold in_range, is_cont, cont_val in *. bools.
    set (c := (byte_val b0 - 192) * 64 + (byte_val b1 - 128)).
    assert (Hq : c / 64 = byte_val b0 - 192 /\ c mod 64 = byte_val b1 - 128).
    { subst c. split.
      - rewrite Z.div_add_l by lia. rewrite Z.div_small by lia. lia.
      - rewrite Z.add_comm, Z.mod_add by lia. apply Z.mod_small. lia. }
    destruct Hq as [Hq Hr].
    unfold utf8_encode_cp.
    replace (c <? 0) with false by (symmetry; apply Z.ltb_ge; subst c; lia).
    replace (c <? 128) with false by (symmetry; apply Z.ltb_ge; subst c; lia).
    replace (c <? 2048) with true by (symmetry; apply Z.ltb_lt; subst c; lia).
    rewrite Hq, Hr.
    replace (192 + (byte_val b0 - 192)) with (byte_val b0) by lia.
    replace (128 + (byte_val b1 - 128)) with (byte_val b1) by lia.
    now rewrite !byte_of_val.
  - intros rest. cbn [app]. rewrite utf8_decode_cons. cbv zeta.
    now rewrite H0, H1, H2.
  - right. unfold in_range, is_cont, cont_val in *. bools.
    split; [lia|]. repeat constructor; lia.
Qed.

Ltac side c := symmetry; first [apply Z.ltb_ge | apply Z.ltb_lt]; subst c; lia.

Lemma encodes_3 (b0 b1 b2 : byte) :
  (byte_val b0 <? 0x80) = false ->
  in_range 0xC2 0xDF b0 = false ->
  in_range 0xE0 0xEF b0 = true ->
  in_range (if byte_val b0 =? 0xE0 then 0xA0 else 0x80)
           (if byte_val b0 =? 0xED then 0x9F else 0xBF) b1 = true ->
  is_cont b2 = true ->
  encodes [b0; b1; b2]
          ((byte_val b0 - 0xE0) * 4096 + cont_val b1 * 64 + cont_val b2).
Proof.
  intros H0 H1 H2 H3 H4. split; [|split].
  - unfold in_range, is_cont, cont_val in *.
    set (v0 := byte_val b0) in *. set (v1 := byte_val b1) in *.
    set (v2 := byte_val b2) in *.
    clear H1. bools.
    assert (Hv1 : 128 <= v1 <= 191
                  /\ (v0 = 224 -> 160 <= v1) /\ (v0 = 237 -> v1 <= 159)).
    { destruct (v0 =? 224) eqn:E0, (v0 =? 237) eqn:E1; bools; lia. }
    set (c := (v0 - 224) * 4096 + (v1 - 128) * 64 + (v2 - 128)).
    assert (Hq : c / 4096 = v0 - 224 /\ (c / 64) mod 64 = v1 - 128
                 /\ c mod 64 = v2 - 128).
    { subst c. repeat split; Z.to_euclidean_division_equations; lia. }
    destruct Hq as (Hq & Hm & Hr).
    unfold utf8_encode_cp.
    replace (c <? 0) with false by side c.
    replace (c <? 128) with false by side c.
    replace (c <? 2048) with false by side c.
    replace ((55296 <=? c) && (c <=? 57343)) with false.
    2:{ symmetry. apply andb_false_iff.
        destruct (Z.leb_spec 55296 c); [right|left; reflexivity].
        apply Z.leb_gt. subst c. lia. }
    replace (c <? 65536) with true by side c.
    rewrite Hq, Hm, Hr.
    replace (224 + (v0 - 224)) with v0 by lia.
    replace (128 + (v1 - 128)) with v1 by lia.
    replace (128 + (v2 - 128)) with v2 by lia.
    subst v0 v1 v2. now rewrite !byte_of_val.
  - intros rest. cbn [app]. rewrite utf8_decode_cons. cbv zeta.
    now rewrite H0, H1, H2, H3, H4.
  - right. unfold in_range, is_cont, cont_val in *. clear H1. bools.
    assert (128 <= byte_val b1 /\ (byte_val b0 = 224 -> 160 <= byte_val b1))
      by (destruct (byte_val b0 =? 224) eqn:E0; bools; lia).
    split; [lia|]. repeat constructor; lia.
Qed.

Lemma encodes_4 (b0 b1 b2 b3 : byte) :
  (byte_val b0 <? 0x80) = false ->
  in_range 0xC2 0xDF b0 = false ->
  in_range 0xE0 0xEF b0 = false ->
  in_range 0xF0 0xF4 b0 = true ->
  in_range (if byte_val b0 =? 0xF0 then 0x90 else 0x80)
           (if byte_val b0 =? 0xF4 then 0x8F else 0xBF) b1 = true ->
  is_cont b2 = true -> is_cont b3 = true ->
  encodes [b0; b1; b2; b3]
          ((byte_val b0 - 0xF0) * 262144 + cont_val b1 * 4096
           + cont_val b2 * 64 + cont_val b3).
Proof.
  intros H0 H1 H2 H3 H4 H5 H6. split; [|split].
  - unfold in_range, is_cont, cont_val in *.
    set (v0 := byte_val b0) in *. set (v1 := byte_val b1) in *.
    set (v2 := byte_val b2) in *. set (v3 := byte_val b3) in *.
    clear H1 H2. bools.
    assert (Hv1 : 128 <= v1 <= 191
                  /\ (v0 = 240 -> 144 <= v1) /\ (v0 = 244 -> v1 <= 143)).
    { destruct (v0 =? 240) eqn:E0, (v0 =? 244) eqn:E1; bools; lia. }
    set (c := (v0 - 240) * 262144 + (v1 - 128) * 4096 + (v2 - 128) * 64
              + (v3 - 128)).
    assert (Hq : c / 262144 = v0 - 240 /\ (c / 4096) mod 64 = v1 - 128
                 /\ (c / 64) mod 64 = v2 - 128 /\ c mod 64 = v3 - 128).
    { subst c. repeat split; Z.to_euclidean_division_equations; lia. }
    destruct Hq as (Hq & Hm1 & Hm2 & Hr).
    unfold utf8_encode_cp.
    replace (c <? 0) with false by side c.
    replace (c <? 128) with false by side c.
    replace (c <? 2048) with false by side c.
    replace ((55296 <=? c) && (c <=? 57343)) with false.
    2:{ symmetry. apply andb_false_iff. right. apply Z.leb_gt. subst c. lia. }
    replace (c <? 65536) with false by side c.
    replace (c <? 1114112) with true by side c.
    rewrite Hq, Hm1, Hm2, Hr.
    replace (240 + (v0 - 240)) with v0 by lia.
    replace (128 + (v1 - 128)) with v1 by lia.
    replace (128 + (v2 - 128)) with v2 by lia.
    replace (128 + (v3 - 128)) with v3 by lia.
    subst v0 v1 v2 v3. now rewrite !byte_of_val.
  - intros rest. cbn [app]. rewrite utf8_decode_cons. cbv zeta.
    rewrite H0, H1, H2, H3, H4, H5, H6. reflexivity.
  - right. unfold in_range, is_cont, cont_val in *. clear H1 H2. bools.
    assert (128 <= byte_val b1 /\ (byte_val b0 = 240 -> 144 <= byte_val b1))
      by (destruct (byte_val b0 =? 240) eqn:E0; bools; lia).
    split; [lia|]. repeat constructor; lia.
Qed.
(** Bytes that decode are the UTF-8 form of what they decode to. *)
Lemma utf8_decode_Utf8 (n : nat) :
  forall (l : bytes) (s : str),
    (length l <= n)%nat -> utf8_decode l = Some s -> Utf8 l s.
Proof.
  induction n as [|n IH]; intros l s Hn H.
  - destruct l; [|cbn in Hn; lia]. cbn in H. injection H as <-. constructor.
  - destruct l as [|b0 r0]; [cbn in H; injection H as <-; constructor|].
    rewrite utf8_decode_cons in H. cbv zeta in H. cbn [length] in Hn.
    destruct (byte_val b0 <? 0x80) eqn:H0.
    { destruct (utf8_decode r0) as [s0|] eqn:E; [|discriminate].
      cbn in H. injection H as <-.
      apply (Utf8_cons [b0]); [apply encodes_1; exact H0|].
      apply IH; [lia|exact E]. }
    destruct (in_range 0xC2 0xDF b0) eqn:H1.
    { destruct r0 as [|b1 r1]; [discriminate|].
      destruct (is_cont b1) eqn:H2; [|discriminate].
      destruct (utf8_decode r1) as [s0|] eqn:E; [|discriminate].
      cbn in H. injection H as <-.
      apply (Utf8_cons [b0; b1]); [apply encodes_2; assumption|].
      apply IH; [cbn [length] in Hn; lia|exact E]. }
    destruct (in_range 0xE0 0xEF b0) eqn:H2.
    { destruct r0 as [|b1 [|b2 r2]]; try discriminate.
      destruct (in_range _ _ b1) eqn:H3; [|discriminate].
      destruct (is_cont b2) eqn:H4; [|discriminate].
      cbn [andb] in H.
      destruct (utf8_decode r2) as [s0|] eqn:E; [|discriminate].
      cbn in H. injection H as <-.
      apply (Utf8_cons [b0; b1; b2]); [apply encodes_3; assumption|].
      apply IH; [cbn [length] in Hn; lia|exact E]. }
    destruct (in_range 0xF0 0xF4 b0) eqn:H3; [|discriminate].
    destruct r0 as [|b1 [|b2 [|b3 r3]]]; try discriminate.
    destruct (in_range _ _ b1) eqn:H4; [|discriminate].
    destruct (is_cont b2) eqn:H5; [|discriminate].
    destruct (is_cont b3) eqn:H6; [|discriminate].
    cbn [andb] in H.
    destruct (utf8_decode r3) as [s0|] eqn:E; [|discriminate].
    cbn in H. injection H as <-.
    apply (Utf8_cons [b0; b1; b2; b3]); [apply encodes_4; assumption|].
    apply IH; [cbn [length] in Hn; lia|exact E].
Qed.

Lemma Utf8_decode (l : bytes) (s : str) :
  Utf8 l s -> forall rest, utf8_decode (l ++ rest)
                           = option_map (app s) (utf8_decode rest).
Proof.
  induction 1 as [|bs c l s (_ & Hd & _) _ IH]; intros rest.
  - cbn. now destruct (utf8_decode rest).
  - rewrite <- app_assoc, Hd, IH. now destruct (utf8_decode rest).
Qed.

Lemma Utf8_encode (l : bytes) (s : str) : Utf8 l s -> utf8_encode s = Some l.
Proof.
  induction 1 as [|bs c l s (He & _) _ IH]; [reflexivity|].
  cbn [utf8_encode]. now rewrite He, IH.
Qed.

Lemma Utf8_app (l1 l2 : bytes) (s1 s2 : str) :
  Utf8 l1 s1 -> Utf8 l2 s2 -> Utf8 (l1 ++ l2) (s1 ++ s2).
Proof.
  induction 1 as [|bs c l s He _ IH]; intros H2; [exact H2|].
  rewrite <- app_assoc. cbn [app]. constructor; auto.
Qed.

(** The form of a character is not empty. *)
Lemma encodes_not_nil (c : Z) : ~ encodes [] c.
Proof.
  intros (_ & Hd & _). specialize (Hd []). cbn in Hd. discriminate.
Qed.
(** *** Lines of bytes *)

Lemma byte_eqb_spec (x y : byte) : byte_eqb x y = true <-> x = y.
Proof.
  unfold byte_eqb. split; [apply Byte.byte_dec_bl|apply Byte.byte_dec_lb].
Qed.

Lemma byte_eqb_neq (x y : byte) : byte_eqb x y = false <-> x <> y.
Proof.
  destruct (byte_eqb x y) eqn:E.
  - apply byte_eqb_spec in E. split; [discriminate|congruence].
  - split; [|reflexivity]. intros _ H. apply byte_eqb_spec in H. congruence.
Qed.

Lemma lines_lf_nil (l : bytes) : lines_lf l = [] -> l = [].
Proof.
  destruct l as [|x r]; [reflexivity|]. cbn [lines_lf].
  destruct (byte_eqb x LF); [discriminate|].
  destruct (lines_lf r); discriminate.
Qed.

Lemma lines_lf_no_lf (l : bytes) : Forall (fun p => ~ In LF p) (lines_lf l).
Proof.
  induction l as [|x r IH]; cbn [lines_lf]; [constructor|].
  destruct (byte_eqb x LF) eqn:E.
  - constructor; [intros []|exact IH].
  - apply byte_eqb_neq in E.
    destruct (lines_lf r) as [|a ls].
    + constructor; [|constructor]. intros [H|[]]. congruence.
    + inversion IH as [|? ? Ha Hls]; subst.
      constructor; [|exact Hls]. intros [H|H]; [congruence|auto].
Qed.

Lemma last_in_or_default {A : Type} (P : A -> Prop) (l : list A) (d : A) :
  P d -> Forall P l -> P (last l d).
Proof.
  intros Hd H. induction H as [|x l Hx Hl IH]; [exact Hd|].
  destruct l; [exact Hx|exact IH].
Qed.

Lemma endswith_lf_cons (x : byte) (r : bytes) :
  r <> [] -> endswith (x :: r) [LF] = endswith r [LF].
Proof.
  intros Hr. cbn [endswith bytes_eqb].
  destruct r as [|y r']; [congruence|].
  now rewrite andb_false_r.
Qed.

(** The lines of a buffer, each followed by a line feed but the last,
    which is followed by one when the buffer ends with one, make up the
    buffer. *)
Lemma lines_lf_content (l : bytes) :
  concat (map (fun x => x ++ [LF]) (removelast (lines_lf l)))
  ++ last (lines_lf l) [] ++ (if endswith l [LF] then [LF] else [])
  = l.
Proof.
  induction l as [|x r IH]; [reflexivity|].
  cbn [lines_lf]. destruct (byte_eqb x LF) eqn:E.
  - apply byte_eqb_spec in E. subst x.
    destruct r as [|y r']; [reflexivity|].
    rewrite endswith_lf_cons by discriminate.
    destruct (lines_lf (y :: r')) as [|a ls] eqn:El;
      [apply lines_lf_nil in El; discriminate|].
    change (removelast ([] :: a :: ls)) with ([] :: removelast (a :: ls)).
    change (last ([] :: a :: ls) []) with (last (a :: ls) []).
    cbn [map concat app]. now rewrite IH.
  - destruct r as [|y r'].
    + cbn. now rewrite E.
    + rewrite endswith_lf_cons by discriminate.
      destruct (lines_lf (y :: r')) as [|a ls] eqn:El;
        [apply lines_lf_nil in El; discriminate|].
      destruct ls as [|a' ls].
      * cbn [removelast map concat last app] in IH |- *. now rewrite IH.
      * change (removelast ((x :: a) :: a' :: ls))
          with ((x :: a) :: removelast (a' :: ls)).
        change (removelast (a :: a' :: ls))
          with (a :: removelast (a' :: ls)) in IH.
        change (last ((x :: a) :: a' :: ls) []) with (last (a' :: ls) []).
        change (last (a :: a' :: ls) []) with (last (a' :: ls) []) in IH.
        cbn [map concat app] in IH |- *. rewrite <- app_assoc in IH.
        rewrite <- app_assoc. cbn [app]. now rewrite IH.
Qed.

Lemma contains_lf (l : bytes) : contains l [LF] = true <-> In LF l.
Proof.
  induction l as [|x r IH]; cbn [contains startswith In].
  - split; [discriminate|intros []].
  - replace (startswith r []) with true by (destruct r; reflexivity).
    rewrite andb_true_r, orb_true_iff, IH.
    split; intros [H|H]; auto.
    + left. symmetry. now apply byte_eqb_spec.
    + left. apply byte_eqb_spec. now symmetry.
Qed.

Lemma contains_crlf (l : bytes) : ~ In CR l -> contains l [CR; LF] = false.
Proof.
  induction l as [|x r IH]; intros H; cbn [contains startswith]; [reflexivity|].
  rewrite IH by (intros H'; apply H; right; exact H').
  replace (byte_eqb CR x) with false; [reflexivity|].
  symmetry. apply byte_eqb_neq. intros <-. apply H. left. reflexivity.
Qed.

Lemma lines_lf_single (l : bytes) : l <> [] -> ~ In LF l -> lines_lf l = [l].
Proof.
  induction l as [|x r IH]; intros Hne Hn; [congruence|].
  cbn [lines_lf].
  replace (byte_eqb x LF) with false
    by (symmetry; apply byte_eqb_neq; intros ->; apply Hn; left; reflexivity).
  destruct r as [|y r']; [reflexivity|].
  rewrite IH; [reflexivity|discriminate|].
  intros H. apply Hn. right. exact H.
Qed.

Lemma endswith_nil (l : bytes) : endswith l [] = true.
Proof.
  induction l as [|x r IH]; [reflexivity|].
  cbn [endswith bytes_eqb]. exact IH.
Qed.

Lemma endswith_in (l : bytes) (x : byte) : endswith l [x] = true -> In x l.
Proof.
  induction l as [|y r IH]; cbn [endswith bytes_eqb]; [discriminate|].
  intros H. apply orb_true_iff in H as [H|H]; [|right; auto].
  apply andb_true_iff in H as [H _]. left. now apply byte_eqb_spec.
Qed.

Lemma endswith_last (p : bytes) (x : byte) : endswith (p ++ [x]) [x] = true.
Proof.
  induction p as [|y p IH]; cbn [app endswith bytes_eqb].
  - replace (byte_eqb x x) with true by (symmetry; now apply byte_eqb_spec).
    reflexivity.
  - rewrite IH. apply orb_true_r.
Qed.

Lemma rstrip_none (p chars : bytes) :
  Forall (fun x => mem_byte x chars = false) p -> rstrip p chars = p.
Proof.
  induction 1 as [|x p Hx _ IH]; [reflexivity|].
  cbn [rstrip]. rewrite IH, Hx. destruct p; reflexivity.
Qed.

Lemma rstrip_last (p : bytes) (x : byte) :
  ~ In x p -> rstrip (p ++ [x]) [x] = p.
Proof.
  assert (Hx : mem_byte x [x] = true).
  { cbn. replace (byte_eqb x x) with true
      by (symmetry; now apply byte_eqb_spec). reflexivity. }
  induction p as [|y p IH]; intros Hn; cbn [app rstrip].
  - now rewrite Hx.
  - rewrite IH by (intros H; apply Hn; right; exact H).
    destruct p; [|reflexivity].
    replace (mem_byte y [x]) with false; [reflexivity|].
    symmetry. cbn. rewrite orb_false_r. apply byte_eqb_neq.
    intros ->. apply Hn. left. reflexivity.
Qed.
(** *** Text whose only line boundary is the line feed *)

Lemma lf_text_iff (l : bytes) :
  lf_text l = true <-> exists s, Utf8 l s /\ lf_only s = true.
Proof.
  unfold lf_text. split.
  - destruct (utf8_decode l) as [s|] eqn:E; [|discriminate].
    intros H. exists s. split; [|exact H].
    eapply utf8_decode_Utf8; [apply Nat.le_refl|exact E].
  - intros (s & Hu & Hs).
    pose proof (Utf8_decode l s Hu []) as Hd.
    rewrite app_nil_r in Hd. cbn in Hd. rewrite app_nil_r in Hd.
    now rewrite Hd.
Qed.

Lemma lf_only_app (s t : str) :
  lf_only (s ++ t) = lf_only s && lf_only t.
Proof. unfold lf_only. apply forallb_app. Qed.

Lemma lf_text_app (l m : bytes) :
  lf_text l = true -> lf_text m = true -> lf_text (l ++ m) = true.
Proof.
  rewrite !lf_text_iff. intros (s & Hl & Hs) (t & Hm & Ht).
  exists (s ++ t). split; [now apply Utf8_app|].
  now rewrite lf_only_app, Hs, Ht.
Qed.

Lemma encodes_lf : encodes [LF] 0x0A.
Proof. exact (encodes_1 LF eq_refl). Qed.

(** An ASCII byte of the UTF-8 form of a text is a character of it. *)
Lemma Utf8_ascii (l : bytes) (s : str) (x : byte) :
  Utf8 l s -> byte_val x < 128 -> In x l -> In (byte_val x) s.
Proof.
  intros H Hx. induction H as [|bs c l s (_ & _ & Hb) _ IH]; [intros []|].
  intros Hin. apply in_app_or in Hin as [Hin|Hin]; [left|right; auto].
  destruct Hb as [[Hc ->]|[_ Hb]].
  - destruct Hin as [<-|[]]. symmetry. apply byte_val_of. lia.
  - rewrite Forall_forall in Hb. specialize (Hb x Hin). lia.
Qed.

Lemma lf_only_in (s : str) (c : Z) :
  lf_only s = true -> In c s -> is_linebreak c = true -> c = 0x0A.
Proof.
  unfold lf_only. rewrite forallb_forall. intros H Hin Hc.
  specialize (H c Hin). rewrite Hc in H. cbn [negb orb] in H.
  now apply Z.eqb_eq.
Qed.

Lemma lf_text_no_cr (l : bytes) : lf_text l = true -> ~ In CR l.
Proof.
  rewrite lf_text_iff. intros (s & Hu & Hs) Hin.
  apply (Utf8_ascii l s CR Hu) in Hin; [|reflexivity].
  apply (lf_only_in s _ Hs) in Hin; [discriminate|reflexivity].
Qed.

Lemma lines_lf_app_no_lf (bs l : bytes) :
  bs <> [] -> ~ In LF bs ->
  lines_lf (bs ++ l)
  = match lines_lf l with
    | [] => [bs]
    | a :: ls => (bs ++ a) :: ls
    end.
Proof.
  induction bs as [|x bs IH]; intros Hne Hn; [congruence|].
  cbn [app lines_lf].
  replace (byte_eqb x LF) with false
    by (symmetry; apply byte_eqb_neq; intros ->; apply Hn; left; reflexivity).
  destruct bs as [|y bs].
  - cbn [app]. destruct (lines_lf l); reflexivity.
  - rewrite IH; [|discriminate|intros H; apply Hn; right; exact H].
    destruct (lines_lf l); reflexivity.
Qed.

(** The lines [splitlines] finds in the text are, in UTF-8, the lines of
    the bytes. *)
Lemma Utf8_lines (l : bytes) (s : str) :
  Utf8 l s -> lf_only s = true -> Forall2 Utf8 (lines_lf l) (splitlines s).
Proof.
  induction 1 as [|bs c l s He Hu IH]; intros Hs; [constructor|].
  change (lf_only (c :: s))
    with ((negb (is_linebreak c) || (c =? 0x0A)) && lf_only s) in Hs.
  apply andb_true_iff in Hs as [Hc Hs]. specialize (IH Hs).
  destruct (is_linebreak c) eqn:Eb.
  - cbn [negb orb] in Hc. apply Z.eqb_eq in Hc. subst c.
    assert (Hbs : bs = [LF]).
    { destruct He as (_ & _ & [[_ ->]|[Hge _]]); [reflexivity|lia]. }
    subst bs. cbn [app lines_lf].
    replace (byte_eqb LF LF) with true by reflexivity.
    change (splitlines (0x0A :: s))
      with (match s with
            | c' :: r' =>
              if (0x0A =? 0x0D) && (c' =? 0x0A) then [] :: splitlines r'
              else [] :: splitlines s
            | [] => [[]]
            end).
    destruct s as [|c' r'].
    + inversion Hu as [|bs' ? ? ? ? ?]; subst. constructor; constructor.
    + cbn [Z.eqb andb]. constructor; [constructor|exact IH].
  - assert (Hne : bs <> []).
    { intros ->. exact (encodes_not_nil c He). }
    assert (Hn : ~ In LF bs).
    { intros Hin. destruct He as (_ & _ & [[Hc' ->]|[_ Hb]]).
      - destruct Hin as [Hin|[]].
        assert (c = 0x0A).
        { rewrite <- (byte_val_of c) by lia. now rewrite Hin. }
        subst c. discriminate.
      - rewrite Forall_forall in Hb. specialize (Hb LF Hin).
        cbn in Hb. lia. }
    rewrite lines_lf_app_no_lf by assumption.
    cbn [splitlines]. rewrite Eb.
    inversion IH as [|a ln ls lns Ha Hls E1 E2].
    + constructor; [|constructor].
      rewrite <- (app_nil_r bs). constructor; [exact He|constructor].
    + constructor; [|exact Hls]. constructor; assumption.
Qed.

Lemma splitlines_lf_only (s : str) :
  lf_only s = true -> Forall (fun x => lf_only x = true) (splitlines s).
Proof.
  induction s as [|c r IH]; intros Hs; [constructor|].
  change (lf_only (c :: r))
    with ((negb (is_linebreak c) || (c =? 0x0A)) && lf_only r) in Hs.
  apply andb_true_iff in Hs as [Hc Hs]. specialize (IH Hs).
  cbn [splitlines]. destruct (is_linebreak c) eqn:Eb.
  - cbn [negb orb] in Hc. apply Z.eqb_eq in Hc. subst c.
    destruct r as [|c' r']; [repeat constructor|].
    cbn [Z.eqb andb]. constructor; [reflexivity|exact IH].
  - destruct (splitlines r) as [|ln lns].
    + constructor; [|constructor].
      change (lf_only [c])
        with ((negb (is_linebreak c) || (c =? 0x0A)) && true).
      now rewrite Eb.
    + inversion IH; subst. constructor; [|assumption].
      change (lf_only (c :: ln))
        with ((negb (is_linebreak c) || (c =? 0x0A)) && lf_only ln).
      rewrite Eb. assumption.
Qed.

Lemma Forall2_last {A B : Type} (R : A -> B -> Prop) (xs : list A) (ys : list B)
      (dx : A) (dy : B) :
  R dx dy -> Forall2 R xs ys -> R (last xs dx) (last ys dy).
Proof.
  intros Hd H. induction H as [|x y xs ys Hxy Hrest IH]; [exact Hd|].
  destruct Hrest; [exact Hxy|exact IH].
Qed.

Lemma Forall2_removelast {A B : Type} (R : A -> B -> Prop) (xs : list A)
      (ys : list B) :
  Forall2 R xs ys -> Forall2 R (removelast xs) (removelast ys).
Proof.
  intros H. induction H as [|x y xs ys Hxy Hrest IH]; [constructor|].
  destruct Hrest as [|x' y' xs' ys' Hxy' Hrest']; [constructor|].
  change (Forall2 R (x :: removelast (x' :: xs')) (y :: removelast (y' :: ys'))).
  constructor; [exact Hxy|exact IH].
Qed.
(** *** The line splitter accounts for every byte *)

Lemma content_app (a c : list item) : content (a ++ c) = content a ++ content c.
Proof. unfold content. apply flat_map_app. Qed.

Lemma span_content (items : list item) : span items = len (content items).
Proof.
  induction items as [|it items IH]; [reflexivity|].
  cbn [span fold_right content flat_map]. fold (span items) (content items).
  unfold len in *. rewrite !length_app. lia.
Qed.

(** The lines yielded from one buffer. *)
Lemma for_each_yield_lines (newline : bytes) (ls : list bytes) (lines : list str) :
  Forall2 Utf8 ls lines ->
  forall ending_offset,
  exists out,
    for_each (by_lines_yield newline) lines ending_offset
    = (out, inl (ending_offset + span out))
    /\ content out = concat (map (fun x => x ++ newline) ls).
Proof.
  induction 1 as [|x line ls lines Hx _ IH]; intros eo.
  - exists []. split; [cbn; now rewrite Z.add_0_r|reflexivity].
  - cbn [for_each]. unfold by_lines_yield at 1.
    rewrite (Utf8_encode _ _ Hx).
    destruct (IH (eo + (len x + len newline))) as (out & -> & Hc).
    exists ((x, eo, eo + (len x + len newline), newline, None) :: out).
    split.
    + cbn [app span fold_right item_data item_newline]. fold (span out).
      do 2 f_equal. lia.
    + cbn [content flat_map map concat item_data item_newline].
      fold (content out). now rewrite Hc.
Qed.

(** One pass of the loop of [by_lines] over a chunk of such text, the
    buffer being such text too: what is yielded and what stays in the
    buffer make up the buffer and the chunk. *)
Lemma by_lines_body_lf (ending_offset : Z) (unfinished_line : bytes) (it : item) :
  lf_text unfinished_line = true ->
  lf_text (item_data it) = true ->
  exists out unfinished_line',
    by_lines_body (ending_offset, unfinished_line) it
    = (out, inl (ending_offset + span out, unfinished_line'))
    /\ content out ++ unfinished_line' = unfinished_line ++ item_data it
    /\ lf_text unfinished_line' = true
    /\ exists p, ~ In LF p
                 /\ (unfinished_line' = p \/ unfinished_line' = p ++ [LF]).
Proof.
  destruct it as [[[[data a] c] d] e]. cbn [item_data].
  intros Hu Hd. pose proof (lf_text_app _ _ Hu Hd) as Hl.
  set (l := unfinished_line ++ data) in *.
  pose proof (lf_text_no_cr l Hl) as Hcr.
  pose proof Hl as Hl'. apply lf_text_iff in Hl' as (s & Hs & Hlf).
  pose proof (Utf8_decode l s Hs []) as Hdec.
  rewrite app_nil_r in Hdec. cbn in Hdec. rewrite app_nil_r in Hdec.
  pose proof (Utf8_lines l s Hs Hlf) as F2.
  unfold by_lines_body. fold l. rewrite Hdec.
  destruct (lines_lf l) as [|x0 ls0] eqn:El.
  { inversion F2 as [E1|]; subst. apply lines_lf_nil in El.
    exists [], l. cbn [len length Z.of_nat Z.eqb span fold_right content flat_map app].
    rewrite Z.add_0_r. split; [reflexivity|]. split; [reflexivity|].
    split; [exact Hl|]. exists []. rewrite El. split; [intros []|now left]. }
  rewrite <- El in F2.
  replace (len (splitlines s) =? 0) with false.
  2:{ symmetry. apply Z.eqb_neq. rewrite El in F2.
      inversion F2; subst. unfold len. cbn [length]. lia. }
  rewrite (contains_crlf l Hcr).
  pose proof (Forall2_last Utf8 _ _ [] [] Utf8_nil F2) as Hlast.
  rewrite (Utf8_encode _ _ Hlast).
  pose proof (Forall2_removelast Utf8 _ _ F2) as Hinit.
  set (newline := if contains l [LF] then [LF] else []).
  destruct (for_each_yield_lines newline _ _ Hinit ending_offset)
    as (out & -> & Hc).
  exists out. eexists. split; [reflexivity|].
  assert (Hp : ~ In LF (last (lines_lf l) [])).
  { apply last_in_or_default; [intros []|apply lines_lf_no_lf]. }
  assert (Hpt : lf_text (last (lines_lf l) []) = true).
  { apply lf_text_iff. eexists. split; [exact Hlast|].
    apply (last_in_or_default (fun x => lf_only x = true));
      [reflexivity|apply splitlines_lf_only; exact Hlf]. }
  assert (Hplf : lf_text (last (lines_lf l) [] ++ [LF]) = true).
  { apply lf_text_app; [exact Hpt|].
    apply lf_text_iff. exists [0x0A]. split; [|reflexivity].
    change [LF] with ([LF] ++ []). constructor; [exact encodes_lf|constructor]. }
  rewrite Hc. subst newline.
  destruct (contains l [LF]) eqn:Ec.
  - split; [|split].
    + pose proof (lines_lf_content l) as Hcont.
      destruct (endswith l [LF]);
        [exact Hcont|rewrite app_nil_r in Hcont; exact Hcont].
    + destruct (endswith l [LF]); assumption.
    + exists (last (lines_lf l) []). split; [exact Hp|].
      destruct (endswith l [LF]); auto.
  - assert (Hn : ~ In LF l).
    { intros H. apply contains_lf in H. congruence. }
    assert (Hne : l <> []) by (intros E; rewrite E in El; discriminate).
    rewrite (lines_lf_single l Hne Hn), endswith_nil.
    cbn [removelast map concat last app]. rewrite app_nil_r.
    split; [reflexivity|]. split; [exact Hl|].
    exists l. auto.
Qed.
Lemma for_each_by_lines_lf (items : list item) :
  Forall (fun it => lf_text (item_data it) = true) items ->
  forall (ending_offset : Z) (unfinished_line : bytes),
    lf_text unfinished_line = true ->
    (exists p, ~ In LF p
               /\ (unfinished_line = p \/ unfinished_line = p ++ [LF])) ->
    exists out unfinished_line',
      for_each by_lines_body items (ending_offset, unfinished_line)
      = (out, inl (ending_offset + span out, unfinished_line'))
      /\ content out ++ unfinished_line'
         = unfinished_line ++ concat (map item_data items)
      /\ lf_text unfinished_line' = true
      /\ exists p, ~ In LF p
                   /\ (unfinished_line' = p \/ unfinished_line' = p ++ [LF]).
Proof.
  induction 1 as [|it items Hit _ IH]; intros eo unf Hu Hshape.
  - exists [], unf. cbn [for_each span fold_right content flat_map map concat app].
    rewrite Z.add_0_r, app_nil_r. auto.
  - cbn [for_each].
    destruct (by_lines_body_lf eo unf it Hu Hit)
      as (out1 & unf1 & -> & Hc1 & Hu1 & Hs1).
    destruct (IH (eo + span out1) unf1 Hu1 Hs1)
      as (out2 & unf2 & -> & Hc2 & Hu2 & Hs2).
    exists (out1 ++ out2), unf2. split; [|split; [|split; assumption]].
    + rewrite span_app, Z.add_assoc. reflexivity.
    + rewrite content_app, <- app_assoc, Hc2, app_assoc, Hc1.
      cbn [map concat]. now rewrite app_assoc.
Qed.

(** What is left in the buffer when the iterator is exhausted goes out
    whole, as one record. *)
Lemma by_lines_rest_lf (ending_offset : Z) (unfinished_line : bytes) :
  ~ In CR unfinished_line ->
  (exists p, ~ In LF p
             /\ (unfinished_line = p \/ unfinished_line = p ++ [LF])) ->
  content (by_lines_rest (ending_offset, unfinished_line)) = unfinished_line.
Proof.
  intros Hcr (p & Hp & Hshape). unfold by_lines_rest.
  destruct (0 <? len unfinished_line) eqn:E.
  2:{ apply Z.ltb_ge in E. destruct unfinished_line; [reflexivity|].
      unfold len in E. cbn [length] in E. lia. }
  assert (Hcrlf : endswith unfinished_line [CR; LF] = false).
  { clear -Hcr. induction unfinished_line as [|x r IH]; [reflexivity|].
    cbn [endswith bytes_eqb].
    rewrite IH by (intros H; apply Hcr; right; exact H).
    replace (byte_eqb x CR) with false; [reflexivity|].
    symmetry. apply byte_eqb_neq. intros ->. apply Hcr. left. reflexivity. }
  rewrite Hcrlf. destruct Hshape as [->| ->].
  - replace (endswith p [LF]) with false.
    2:{ symmetry. destruct (endswith p [LF]) eqn:Ee; [|reflexivity].
        apply endswith_in in Ee. contradiction. }
    rewrite rstrip_none by (apply Forall_forall; reflexivity).
    cbn [content flat_map item_data item_newline]. now rewrite !app_nil_r.
  - rewrite endswith_last, rstrip_last by exact Hp.
    cbn [content flat_map item_data item_newline]. now rewrite app_nil_r.
Qed.

Lemma chained_last (items : list item) :
  forall start d, chained start items -> items <> [] ->
                  item_end (last items d) = start + span items.
Proof.
  induction items as [|it items IH]; intros start d Hc Hne; [congruence|].
  cbn [chained] in Hc. destruct Hc as (Hs & He & Hrest).
  cbn [span fold_right]. fold (span items).
  destruct items as [|it' items'].
  - cbn [last span fold_right]. lia.
  - change (last (it :: it' :: items') d) with (last (it' :: items') d).
    rewrite (IH (item_end it) d Hrest) by discriminate. lia.
Qed.

(** X16. Over chunks that are each UTF-8 text in which the line feed is
    the only line boundary, [by_lines] returns, and its records account
    for every byte read: the payloads, each followed by its newline, make
    up the chunks put end to end; the records follow each other from
    [range_start], so that the lengths of payloads and newlines add up to
    the length of the stream and the last record ends at [range_start]
    plus that length. *)
Theorem by_lines_accounts_for_every_byte (chunks : list bytes) (storage : Storage)
        (range_start : Z) (body : bytes) (is_gzipped : bool) :
  Forall (fun chunk => lf_text chunk = true) chunks ->
  exists out : list item,
    by_lines (reader chunks) storage range_start body is_gzipped = (out, None)
    /\ content out = concat chunks
    /\ chained range_start out
    /\ span out = len (concat chunks)
    /\ forall d, out <> [] ->
                 item_end (last out d) = range_start + len (concat chunks).
Proof.
  intros Hchunks.
  assert (Hitems : Forall (fun it => lf_text (item_data it) = true)
                          (map (fun c : bytes => (c, 0, 0, [], None) : item) chunks)).
  { apply Forall_map. exact Hchunks. }
  destruct (for_each_by_lines_lf _ Hitems range_start [] eq_refl)
    as (out & unf & Hrun & Hc & Hu & Hshape).
  { exists []. split; [intros []|now left]. }
  rewrite map_map in Hc. cbn [item_data app] in Hc. rewrite map_id in Hc.
  assert (Hall : content (out ++ by_lines_rest (range_start + span out, unf))
                 = concat chunks).
  { rewrite content_app, by_lines_rest_lf; [exact Hc| |exact Hshape].
    apply lf_text_no_cr. exact Hu. }
  assert (Hchain : chained range_start
                           (out ++ by_lines_rest (range_start + span out, unf))).
  { pose proof (for_each_chained (@fst Z bytes) by_lines_body
                  by_lines_body_chained
                  (map (fun c : bytes => (c, 0, 0, [], None) : item) chunks)
                  (@pair Z bytes range_start [])) as [H1 H2].
    rewrite Hrun in H1, H2. cbn [fst snd] in H1, H2.
    apply chained_app. split; [exact H1|].
    apply (by_lines_rest_chained (range_start + span out, unf)). }
  exists (out ++ by_lines_rest (range_start + span out, unf)).
  split; [|split; [exact Hall|split; [exact Hchain|split]]].
  - unfold by_lines, for_gen.
    change (fst (reader chunks storage range_start body is_gzipped))
      with (map (fun c : bytes => (c, 0, 0, [], None) : item) chunks).
    change (snd (reader chunks storage range_start body is_gzipped))
      with (@None exn).
    now rewrite Hrun.
  - now rewrite span_content, Hall.
  - intros d Hne. rewrite (chained_last _ _ d Hchain Hne).
    now rewrite span_content, Hall.
Qed.

Lemma by_lines_accounts_for_every_byte_example :
  exists out : list item,
    by_lines (reader [two_objects; not_json]) (storage_of "disabled") 0 [] false
    = (out, None)
    /\ content out = concat [two_objects; not_json]
    /\ chained 0 out
    /\ span out = len (concat [two_objects; not_json])
    /\ forall d, out <> [] ->
                 item_end (last out d) = 0 + len (concat [two_objects; not_json]).
Proof.
  apply (by_lines_accounts_for_every_byte [two_objects; not_json]
           (storage_of "disabled") 0 [] false).
  repeat constructor.
Defined.

(** X17. [by_lines] decodes its buffer at every chunk: a first chunk
    that is not UTF-8 by itself, as when the reader cuts the stream
    inside a character, makes it raise UnicodeDecodeError before anything
    is yielded, whatever the chunks that follow hold. *)
Theorem by_lines_first_chunk_must_decode (chunk : bytes) (chunks : list bytes)
        (storage : Storage) (range_start : Z) (body : bytes) (is_gzipped : bool) :
  utf8_decode chunk = None ->
  by_lines (reader (chunk :: chunks)) storage range_start body is_gzipped
  = ([], Some UnicodeDecodeError).
Proof.
  intros H. unfold by_lines, for_gen.
  change (fst (reader (chunk :: chunks) storage range_start body is_gzipped))
    with ((chunk, 0, 0, [], None)
          :: map (fun c : bytes => (c, 0, 0, [], None) : item) chunks).
  cbn [for_each]. unfold by_lines_body at 1. cbn [app]. rewrite H.
  reflexivity.
Qed.

Lemma by_lines_first_chunk_must_decode_example :
  by_lines (reader [[xc3]; [xa9; LF]]) (storage_of "disabled") 0 [] false
  = ([], Some UnicodeDecodeError).
Proof.
  exact (by_lines_first_chunk_must_decode [xc3] [[xa9; LF]]
           (storage_of "disabled") 0 [] false eq_refl).
Defined.

(** The two bytes of the example, in one chunk, are a line. *)
Lemma by_lines_whole_character :
  by_lines (reader [[xc3; xa9; LF]]) (storage_of "disabled") 0 [] false
  = ([([xc3; xa9], 0, 3, [LF], None)], None).
Proof. vm_compute. reflexivity. Qed.

(** *** multi_line with a processor *)

Lemma for_each_multiline (body : Z -> bytes * Z * bytes -> loop Z item) :
  (forall eo d n nl,
      body eo (d, n, nl) = ([(d, eo, eo + n, nl, None)], inl (eo + n))) ->
  forall (ms : list (bytes * Z * bytes)) (ending_offset : Z),
  exists out e',
    for_each body ms ending_offset = (out, inl e')
    /\ map (fun it => (item_data it, item_end it - item_start it, item_newline it))
           out = ms
    /\ follow ending_offset out
    /\ Forall (fun it : item => snd it = None) out.
Proof.
  intros Hbody ms. induction ms as [|[[d n] nl] ms IH]; intros eo.
  - exists [], eo. cbn. repeat split; eauto.
  - cbn [for_each]. rewrite Hbody.
    destruct (IH (eo + n)) as (out & e' & -> & Hm & Hf & Hn).
    exists ((d, eo, eo + n, nl, None) :: out), e'.
    split; [reflexivity|].
    split; [cbn [map item_data item_end item_start item_newline];
            rewrite Hm; do 3 f_equal; lia|].
    split; [cbn [follow item_start item_end]; auto|].
    constructor; [reflexivity|exact Hn].
Qed.

(** X18. With a multiline processor, [multi_line] feeds it the payloads
    and newlines of the stage below and nothing else, and yields what it
    collects, in order, with offsets of its own: the first record starts
    at [range_start], each record starts where the one before ended and
    spans the length the processor reported for it.  The offsets of the
    stage below play no part; an exception of the processor ends the
    stream after the records collected before it. *)
Theorem multi_line_offsets (collect : ProtocolMultiline) (func : GetByLinesCallable)
        (storage : Storage) (range_start : Z) (body : bytes) (is_gzipped : bool) :
  multiline_processor storage = Some collect ->
  let below := func storage range_start body is_gzipped in
  let collected :=
    collect (map (fun it => (item_data it, item_newline it)) (fst below),
             snd below) in
  let out := multi_line func storage range_start body is_gzipped in
  snd out = snd collected
  /\ map (fun it => (item_data it, item_end it - item_start it, item_newline it))
         (fst out) = fst collected
  /\ follow range_start (fst out)
  /\ Forall (fun it : item => snd it = None) (fst out).
Proof.
  intros Hm below collected out. subst out. unfold multi_line. rewrite Hm.
  match goal with
  | |- context [collect ?feed] =>
    assert (Hfeed : feed
                    = (map (fun it => (item_data it, item_newline it)) (fst below),
                       snd below));
      [|rewrite Hfeed; clear Hfeed]
  end.
  { subst below. destruct (func storage range_start body is_gzipped) as [items e].
    cbn [fst snd]. f_equal. apply map_ext. intros [[[[? ?] ?] ?] ?]. reflexivity. }
  change (collect _) with collected.
  unfold for_gen.
  match goal with
  | |- context [@for_each ?X ?S ?A ?body ?ms ?s] =>
    change (@for_each X S A body ms s) with (@for_each X S item body ms s)
  end.
  match goal with
  | |- context [for_each ?body _ _] =>
    destruct (for_each_multiline body ltac:(intros; reflexivity)
                                 (fst collected) range_start)
      as (res & e' & -> & Hmap & Hf & Hn)
  end.
  destruct (snd collected) as [e|]; cbn [gen_of_loop fst snd]; auto.
Qed.

Lemma multi_line_offsets_example :
  let storage := storage_with_multiline every_line_an_event in
  let func := by_lines (reader [mixed_newlines]) in
  let below := func storage 5 [] false in
  let collected :=
    every_line_an_event
      (map (fun it => (item_data it, item_newline it)) (fst below), snd below) in
  let out := multi_line func storage 5 [] false in
  snd out = snd collected
  /\ map (fun it => (item_data it, item_end it - item_start it, item_newline it))
         (fst out) = fst collected
  /\ follow 5 (fst out)
  /\ Forall (fun it : item => snd it = None) (fst out).
Proof.
  exact (multi_line_offsets every_line_an_event (by_lines (reader [mixed_newlines]))
           (storage_with_multiline every_line_an_event) 5 [] false eq_refl).
Defined.

(** *** The other modes of the JSON collector *)

(** The fallback over an empty buffer yields nothing. *)
Lemma yield_fallback_empty (st : t) :
  unfinished_line st = [] -> yield_fallback st = ([], inl st).
Proof.
  intros H. unfold yield_fallback, _by_lines_fallback, for_gen, by_lines.
  rewrite H. reflexivity.
Qed.

Lemma last_cons_default {A : Type} (l : list A) :
  forall x d : A, last (x :: l) d = last l x.
Proof.
  induction l as [|a l IH]; intros x d; [reflexivity|].
  change (last (x :: a :: l) d) with (last (a :: l) d).
  now rewrite (IH a d), (IH a x).
Qed.

(** X19. In [single] mode without expander (and without multiline
    processor) the collector does not parse: when the stage below is
    exhausted it yields one record, the payloads of that stage joined by
    the newline of its first record, from the start of the first record
    to the end of the last; the fallback adds nothing.  On a stage below
    that yields nothing it raises IndexError, and an exception of that
    stage is raised before anything is yielded. *)
Theorem single_mode_one_record (json_parser : bytes -> option pyval)
        (func : GetByLinesCallable) (storage : Storage)
        (range_start : Z) (body : bytes) (is_gzipped : bool) :
  json_content_type storage = u "single" ->
  multiline_processor storage = None ->
  event_list_from_field_expander storage = None ->
  json_collector json_parser func storage range_start body is_gzipped
  = match func storage range_start body is_gzipped with
    | (_, Some e) => ([], Some e)
    | ([], None) => ([], Some IndexError)
    | (first :: rest, None) =>
      ([(join (item_newline first) (map item_data (first :: rest)),
         item_start first, item_end (last rest first), item_newline first,
         None)], None)
    end.
Proof.
  intros Hj Hm He. unfold json_collector. rewrite Hj, Hm, He.
  replace (str_eqb (u "single") (u "disabled")) with false by reflexivity.
  replace (str_eqb (u "single") (u "single")) with true by reflexivity.
  cbn [orb andb is_some negb].
  destruct (func storage range_start body is_gzipped) as [single [e|]];
    [destruct single; reflexivity|].
  destruct single as [|first rest]; [reflexivity|].
  destruct first as [[[[d0 s0] e0] nl0] x0].
  cbn [item_newline item_start item_data].
  rewrite <- (last_cons_default rest (d0, s0, e0, nl0, x0) ([], 0, 0, [], None)).
  match goal with
  | |- context [last ?l ?d] => destruct (last l d) as [[[[dl sl] el] nll] xl]
  end.
  cbn [item_end].
  cbn [is_a_json_object set_ending_offset init negb].
  rewrite yield_fallback_empty by reflexivity.
  rewrite app_nil_r. reflexivity.
Qed.

Lemma single_mode_one_record_example :
  json_collector json_loads (by_lines (reader [two_objects]))
                 (storage_of "single") 0 [] false
  = match by_lines (reader [two_objects]) (storage_of "single") 0 [] false with
    | (_, Some e) => ([], Some e)
    | ([], None) => ([], Some IndexError)
    | (first :: rest, None) =>
      ([(join (item_newline first) (map item_data (first :: rest)),
         item_start first, item_end (last rest first), item_newline first,
         None)], None)
    end.
Proof.
  exact (single_mode_one_record json_loads (by_lines (reader [two_objects]))
           (storage_of "single") 0 [] false eq_refl eq_refl eq_refl).
Defined.

Lemma collect_body_plain (json_parser : bytes -> option pyval)
      (expander : option ExpandEventListFromField) (st : t) (it : item) :
  has_an_object_start st = false ->
  plain_line (item_data it) = true ->
  collect_body json_parser expander st it
  = ([(item_data it, item_start it, item_end it, item_newline it, None)],
     inl (_handle_offset (len (item_data it) + len (item_newline it)) st)).
Proof.
  destruct it as [[[[data s] e] newline] x].
  cbn [item_data item_start item_end item_newline].
  intros Hs Hp. unfold plain_line in Hp. unfold collect_body.
  rewrite Hs. cbn [negb].
  destruct (utf8_decode data) as [decoded|]; [|discriminate].
  apply negb_true_iff in Hp. rewrite Hp, Hs. cbn [negb].
  replace (has_an_object_start (_handle_offset (len data + len newline) st))
    with false by (symmetry; exact Hs).
  reflexivity.
Qed.

Lemma for_each_collect_plain (json_parser : bytes -> option pyval)
      (expander : option ExpandEventListFromField) (items : list item) :
  Forall (fun it => plain_line (item_data it) = true) items ->
  forall st,
    has_an_object_start st = false ->
    exists st',
      for_each (collect_body json_parser expander) items st
      = (map (fun it => (item_data it, item_start it, item_end it,
                         item_newline it, None)) items,
         inl st')
      /\ has_an_object_start st' = false
      /\ unfinished_line st' = unfinished_line st
      /\ is_a_json_object st' = is_a_json_object st.
Proof.
  induction 1 as [|it items Hit _ IH]; intros st Hs.
  - exists st. cbn [for_each map]. auto.
  - cbn [for_each]. rewrite collect_body_plain by assumption.
    destruct (IH (_handle_offset (len (item_data it) + len (item_newline it)) st) Hs)
      as (st' & -> & Hs' & Hu & Hj).
    exists st'. cbn [map app]. auto.
Qed.

(** X20. In [ndjson] mode (no multiline processor) the collector is
    transparent on text that never starts an object: when every payload
    of the stage below decodes as UTF-8 and, its leading white space
    removed, is empty or starts with something else than an opening
    brace, the records are handed on with their payloads, offsets and
    newlines, the parser is never called, the fallback at the end adds
    nothing, and the stream ends as the stage below ends. *)
Theorem ndjson_forwards_plain_lines (json_parser : bytes -> option pyval)
        (func : GetByLinesCallable) (storage : Storage)
        (range_start : Z) (body : bytes) (is_gzipped : bool) :
  json_content_type storage = u "ndjson" ->
  multiline_processor storage = None ->
  Forall (fun it => plain_line (item_data it) = true)
         (fst (func storage range_start body is_gzipped)) ->
  json_collector json_parser func storage range_start body is_gzipped
  = (map (fun it => (item_data it, item_start it, item_end it,
                     item_newline it, None))
         (fst (func storage range_start body is_gzipped)),
     snd (func storage range_start body is_gzipped)).
Proof.
  intros Hj Hm Hplain. unfold json_collector. rewrite Hj, Hm.
  replace (str_eqb (u "ndjson") (u "disabled")) with false by reflexivity.
  replace (str_eqb (u "ndjson") (u "single")) with false by reflexivity.
  cbn [orb andb is_some]. unfold for_gen.
  destruct (for_each_collect_plain json_parser
              (event_list_from_field_expander storage) _ Hplain
              (set_ending_offset (init storage) range_start) eq_refl)
    as (st' & -> & Hs' & Hu & Ho).
  destruct (snd (func storage range_start body is_gzipped)) as [e|];
    [reflexivity|].
  cbn [is_a_json_object set_ending_offset init] in Ho. rewrite Ho.
  cbn [negb]. rewrite yield_fallback_empty by (rewrite Hu; reflexivity).
  now rewrite app_nil_r.
Qed.

Lemma ndjson_forwards_plain_lines_example :
  json_collector json_loads (by_lines (reader [mixed_newlines]))
                 (storage_of "ndjson") 0 [] false
  = (map (fun it => (item_data it, item_start it, item_end it,
                     item_newline it, None))
         (fst (by_lines (reader [mixed_newlines]) (storage_of "ndjson") 0 [] false)),
     snd (by_lines (reader [mixed_newlines]) (storage_of "ndjson") 0 [] false)).
Proof.
  apply (ndjson_forwards_plain_lines json_loads (by_lines (reader [mixed_newlines]))
           (storage_of "ndjson") 0 [] false eq_refl eq_refl).
  vm_compute. repeat constructor.
Defined.

(** *** The fallback *)

Lemma fallback_loop_chained (items : list item) :
  forall st : t,
    let r := for_each (fun (s : t) (it : item) =>
                         let '(line, _, _, newline, _) := it in
                         let s := _handle_offset (len line + len newline) s in
                         let s := set_unfinished_line s [] in
                         let s := set_has_an_object_start s false in
                         ([(line, newline, s)], inl s))
                      items st in
    let out := map (fun x : bytes * bytes * t =>
                      let '(line, newline, s) := x in
                      (line, starting_offset s, ending_offset s, newline, None))
                   (fst r) in
    chained (ending_offset st) out
    /\ map (fun it : item => (item_data it, item_newline it)) out
       = map (fun it : item => (item_data it, item_newline it)) items
    /\ exists st', snd r = inl st'
                   /\ ending_offset st' = ending_offset st + span out
                   /\ match items with
                      | [] => st' = st
                      | _ :: _ => unfinished_line st' = []
                                  /\ has_an_object_start st' = false
                      end.
Proof.
  induction items as [|[[[[line a] c] newline] x] items IH]; intros st.
  - cbn. split; [exact I|]. split; [reflexivity|].
    exists st. split; [reflexivity|]. split; [lia|reflexivity].
  - cbn [for_each]. cbv zeta.
    set (s1 := set_has_an_object_start
                 (set_unfinished_line
                    (_handle_offset (len line + len newline) st) []) false).
    specialize (IH s1). cbv zeta in IH.
    destruct (for_each _ items s1) as [out' r'].
    cbn [fst snd] in IH |- *.
    destruct IH as (Hc & Hm & st' & Hr & He & Hu).
    cbn [app map]. split; [|split].
    + cbn [chained item_start item_end item_data item_newline].
      split; [reflexivity|]. split; [cbn; lia|exact Hc].
    + cbn [item_data item_newline]. now rewrite Hm.
    + exists st'. split; [exact Hr|]. split.
      * rewrite He. cbn [span fold_right item_data item_newline].
        match goal with |- context [fold_right ?f 0 ?l] => fold (span l) end.
        cbn. lia.
      * destruct items as [|it items]; [subst st'; split; reflexivity|exact Hu].
Qed.

Lemma chained_unique (a c : list item) :
  forall start,
    chained start a -> chained start c ->
    map (fun it : item => (item_data it, item_newline it)) a
    = map (fun it : item => (item_data it, item_newline it)) c ->
    Forall (fun it : item => snd it = None) a ->
    Forall (fun it : item => snd it = None) c ->
    a = c.
Proof.
  revert c. induction a as [|x a IH]; intros c start Ha Hc Hm Hna Hnc;
    destruct c as [|y c]; try discriminate; [reflexivity|].
  cbn [map] in Hm. injection Hm as Hd Hn Hm.
  cbn [chained] in Ha, Hc.
  destruct Ha as (Hxs & Hxe & Ha), Hc as (Hys & Hye & Hc).
  inversion Hna as [|? ? Hx Hna']; inversion Hnc as [|? ? Hy Hnc']; subst.
  assert (Hxy : x = y).
  { destruct x as [[[[xd xs] xe] xn] xx], y as [[[[yd ys] ye] yn] yx].
    cbn [item_data item_newline item_start item_end snd] in *.
    subst. reflexivity. }
  subst y. f_equal. exact (IH c (item_end x) Ha Hc Hm Hna' Hnc').
Qed.

(** X21. The fallback yields the records of [by_lines] over the buffer
    of the state, started at the ending offset of the state: the offsets
    it reads from the state at each line, which [_handle_offset] moves by
    the length of the line and of its newline, are the offsets [by_lines]
    computed and the loop discards.  When it ends, the state has moved by
    the bytes of the records, its buffer is empty and it no longer waits
    for the end of an object. *)
Theorem fallback_is_by_lines (st : t) :
  let lines :=
    by_lines (fun _ range_start body _ => ([(body, 0, range_start, [], None)], None))
             (storage st) (ending_offset st) (unfinished_line st) false in
  fst (yield_fallback st) = fst lines
  /\ match snd (yield_fallback st), snd lines with
     | inl st', None =>
       ending_offset st' = ending_offset st + span (fst lines)
       /\ (fst lines <> [] ->
           unfinished_line st' = [] /\ has_an_object_start st' = false)
     | inr e, Some e' => e = e'
     | _, _ => False
     end.
Proof.
  intros lines. unfold yield_fallback, _by_lines_fallback, for_gen.
  fold lines.
  pose proof (fallback_loop_chained (fst lines) st) as H. cbv zeta in H.
  destruct (for_each _ (fst lines) st) as [out r]. cbn [fst snd] in H.
  destruct H as (Hc & Hm & st' & -> & He & Hu).
  assert (Hchain : chained (ending_offset st) (fst lines)).
  { subst lines. unfold by_lines, for_gen. cbn [fst snd].
    match goal with
    | |- context [for_each by_lines_body ?items ?s] =>
      pose proof (for_each_chained (@fst Z bytes) by_lines_body
                    by_lines_body_chained items s) as [H1 H2];
        destruct (for_each by_lines_body items s) as [out1 [s1|e1]]
    end; cbn [fst snd] in *; [|exact H1].
    apply chained_app. split; [exact H1|]. rewrite <- H2.
    apply by_lines_rest_chained. }
  assert (Hout : map (fun x : bytes * bytes * t =>
                        let '(line, newline, s) := x in
                        (line, starting_offset s, ending_offset s, newline,
                         None) : item) out = fst lines).
  { apply (chained_unique _ _ (ending_offset st) Hc Hchain Hm).
    - apply Forall_forall. intros it Hin. apply in_map_iff in Hin.
      destruct Hin as ([[line newline] s] & <- & _). reflexivity.
    - apply by_lines_none. }
  destruct (snd lines) as [e|]; cbn [fst snd].
  - split; [exact Hout|reflexivity].
  - split; [exact Hout|]. rewrite <- Hout. split; [exact He|].
    rewrite Hout. intros Hne. destruct (fst lines); [congruence|exact Hu].
Qed.

(** *** inflate *)

(** X22. [inflate] gives no offsets: whether the object is gzipped or
    not, and whatever the gzip reader gives, every record it yields has
    both offsets 0, an empty newline and no expanded offset.  When the
    object is not gzipped the payloads are those of the reader, in order,
    and the stream ends as the reader ends. *)
Theorem inflate_records (gzip_chunks : bytes -> Z -> gen bytes)
        (func : GetByLinesCallable) (storage : Storage)
        (range_start : Z) (body : bytes) (is_gzipped : bool) :
  let below := func storage range_start body is_gzipped in
  let out := inflate gzip_chunks func storage range_start body is_gzipped in
  Forall (fun it : item => it = (item_data it, 0, 0, [], None)) (fst out)
  /\ (is_gzipped = false ->
      map item_data (fst out) = map item_data (fst below)
      /\ snd out = snd below).
Proof.
  intros below out. subst out. unfold inflate. fold below.
  split.
  - unfold for_gen.
    assert (H : Forall (fun it : item => it = (item_data it, 0, 0, [], None))
                       (fst (for_each
                               (fun (_ : unit) (it : item) =>
                                  let '(data, _, _, _, _) := it in
                                  if is_gzipped
                                  then
                                    let '(chunks, e) := gzip_chunks data range_start in
                                    (map (fun inflated_chunk : bytes =>
                                            (inflated_chunk, 0, 0, [], None)) chunks,
                                     match e with
                                     | Some e => inr e
                                     | None => inl tt
                                     end)
                                  else ([(data, 0, 0, [], None)], inl tt))
                               (fst below) tt))).
    { apply for_each_forall. intros [] [[[[data ?] ?] ?] ?].
      destruct is_gzipped.
      - destruct (gzip_chunks data range_start) as [chunks e]. cbn [fst].
        apply Forall_forall. intros it Hin. apply in_map_iff in Hin.
        destruct Hin as (c & <- & _). reflexivity.
      - repeat constructor. }
    destruct (for_each _ (fst below) tt) as [out [[]|e]]; cbn [fst] in H;
      destruct (snd below); exact H.
  - intros ->.
    rewrite (gen_of_loop_map _
               (fun it : item =>
                  let '(data, _, _, _, _) := it in (data, 0, 0, [], None)))
      by (intros [[[[? ?] ?] ?] ?]; reflexivity).
    cbn [fst snd]. split; [|reflexivity].
    rewrite map_map. apply map_ext. intros [[[[? ?] ?] ?] ?]. reflexivity.
Qed.

Lemma inflate_records_example :
  let below := reader [two_objects] (storage_of "disabled") 0 [] false in
  let out := inflate no_gzip (reader [two_objects]) (storage_of "disabled")
                     0 [] false in
  Forall (fun it : item => it = (item_data it, 0, 0, [], None)) (fst out)
  /\ map item_data (fst out) = map item_data (fst below)
  /\ snd out = snd below.
Proof.
  destruct (inflate_records no_gzip (reader [two_objects])
              (storage_of "disabled") 0 [] false) as [Hoffsets Hplain].
  split; [exact Hoffsets|exact (Hplain eq_refl)].
Defined.

(** *** One object per line *)

Lemma collect_body_object (json_parser : bytes -> option pyval)
      (st : t) (it : item) :
  unfinished_line st = [] ->
  is_a_json_object_circuit_broken st = false ->
  starts_object (item_data it) = true ->
  is_some (json_parser (item_data it ++ item_newline it)) = true ->
  exists st',
    collect_body json_parser None st it
    = ([(strip (strip (item_data it ++ item_newline it) [CR; LF]) [LF],
         ending_offset st,
         ending_offset st + len (item_data it ++ item_newline it),
         item_newline it, None)], inl st')
    /\ unfinished_line st' = []
    /\ is_a_json_object_circuit_broken st' = false
    /\ is_a_json_object st' = true
    /\ ending_offset st'
       = ending_offset st + len (item_data it ++ item_newline it).
Proof.
  destruct it as [[[[data s] e] newline] x].
  cbn [item_data item_newline].
  intros Hu Hb Hs Hp. unfold starts_object in Hs.
  destruct (json_parser (data ++ newline)) as [obj|] eqn:Ep; [|discriminate].
  destruct st as [sto so eo ul has obj_seen broken breaker].
  cbn [unfinished_line is_a_json_object_circuit_broken ending_offset] in *.
  subst ul broken.
  assert (Hc : forall has',
    _collector json_parser data newline
               (mk sto so eo [] has' obj_seen false breaker)
    = (set_is_a_json_object
         (set_is_a_json_object_circuit_breaker
            (mk sto eo (eo + len (data ++ newline)) [] has' obj_seen false breaker)
            (if negb (len newline =? 0)
             then breaker - (count (data ++ newline) newline - 1)
             else breaker - 1))
         true,
       [(strip (strip (data ++ newline) [CR; LF]) [LF], Some obj)])).
  { intros has'. unfold _collector.
    cbn [unfinished_line set_unfinished_line app]. rewrite Ep.
    destruct (negb (len newline =? 0)); reflexivity. }
  unfold collect_body. cbn [has_an_object_start].
  destruct has; cbn [negb].
  - cbn [has_an_object_start]. rewrite Hc. cbn [for_each app].
    cbn [is_a_json_object_circuit_broken set_is_a_json_object
         set_is_a_json_object_circuit_breaker].
    eexists. split; [reflexivity|]. cbn. auto.
  - destruct (utf8_decode data) as [decoded|]; [|discriminate].
    rewrite Hs. cbn [has_an_object_start set_has_an_object_start negb].
    unfold set_has_an_object_start.
    cbn [storage starting_offset ending_offset unfinished_line is_a_json_object
         is_a_json_object_circuit_broken is_a_json_object_circuit_breaker].
    rewrite Hc. cbn [for_each app].
    cbn [is_a_json_object_circuit_broken set_is_a_json_object
         set_is_a_json_object_circuit_breaker].
    eexists. split; [reflexivity|]. cbn. auto.
Qed.

Lemma for_each_collect_objects (json_parser : bytes -> option pyval)
      (items : list item) :
  Forall (fun it => starts_object (item_data it) = true
                    /\ is_some (json_parser (item_data it ++ item_newline it))
                       = true) items ->
  forall st,
    unfinished_line st = [] ->
    is_a_json_object_circuit_broken st = false ->
    exists st',
      for_each (collect_body json_parser None) items st
      = (one_object_per_line (ending_offset st) items, inl st')
      /\ unfinished_line st' = []
      /\ match items with
         | [] => st' = st
         | _ :: _ => is_a_json_object st' = true
         end.
Proof.
  induction 1 as [|it items [Hs Hp] _ IH]; intros st Hu Hb.
  - exists st. cbn [for_each one_object_per_line]. auto.
  - cbn [for_each one_object_per_line].
    destruct (collect_body_object json_parser st it Hu Hb Hs Hp)
      as (st1 & -> & Hu1 & Hb1 & Hj1 & He1).
    destruct (IH st1 Hu1 Hb1) as (st' & -> & Hu' & Hlast).
    exists st'. rewrite He1. split; [reflexivity|]. split; [exact Hu'|].
    destruct items; [subst st'; exact Hj1|exact Hlast].
Qed.

(** C4. In ndjson mode without expander the two lines
    [{"x":1} LF {"y":2} LF] yield two records, the objects [{"x":1}] and
    [{"y":2}] with offsets (0, 8) and (8, 16), and the collector ends the
    run with [is_a_json_object] set and an empty buffer; the same object
    written over two lines is one record that spans both.  Whatever the
    parser and the stage below: when every record of that stage starts an
    object and is accepted by the parser with its newline, the collector
    yields one record per line, the buffer without its surrounding CR and
    LF, spanning the length of the buffer from the end of the record
    before, and no fallback.  In every state that waits for the end of an
    object, a buffer the parser accepts is emitted at once:
    [is_a_json_object] is set, the record spans the length of the
    accumulated buffer from the previous ending offset, the buffer is
    reset, and the payload is the buffer without its surrounding CR and
    LF. *)
Theorem ndjson_objects_are_emitted (json_parser : bytes -> option pyval)
        (st : t) (data newline : bytes) (s e : Z) (x : option Z) (v : pyval) :
  json_parser (unfinished_line st ++ (data ++ newline)) = Some v ->
  has_an_object_start st = true ->
  is_a_json_object_circuit_broken st = false ->
  let buffer := unfinished_line st ++ (data ++ newline) in
  let st' := fst (_collector json_parser data newline st) in
  (get_by_lines json_loads "ndjson" [two_objects] 0
   = ([(object_x, 0, 8, [LF], None); (object_y, 8, 16, [LF], None)], None)
   /\ json_loads object_x = Some (PDict [(u "x", PInt 1)])
   /\ json_loads object_y = Some (PDict [(u "y", PInt 2)]))
  /\ (exists final,
        collector_run json_loads [two_objects] 0
        = ([(object_x, 0, 8, [LF], None); (object_y, 8, 16, [LF], None)],
           inl final)
        /\ is_a_json_object final = true
        /\ unfinished_line final = [])
  /\ get_by_lines json_loads "ndjson" [object_over_two_lines] 0
     = ([(b "{" ++ [DQ] ++ b "x" ++ [DQ] ++ b ":" ++ [LF] ++ b "1}",
          0, 9, [LF], None)], None)
  /\ (forall (func : GetByLinesCallable) (storage : Storage)
             (range_start : Z) (body : bytes) (is_gzipped : bool),
         json_content_type storage = u "ndjson" ->
         multiline_processor storage = None ->
         event_list_from_field_expander storage = None ->
         Forall (fun it =>
                   starts_object (item_data it) = true
                   /\ is_some (json_parser (item_data it ++ item_newline it))
                      = true)
                (fst (func storage range_start body is_gzipped)) ->
         json_collector json_parser func storage range_start body is_gzipped
         = (one_object_per_line range_start
                                (fst (func storage range_start body is_gzipped)),
            snd (func storage range_start body is_gzipped)))
  /\ snd (_collector json_parser data newline st)
     = [(strip (strip buffer [CR; LF]) [LF], Some v)]
  /\ is_a_json_object st' = true
  /\ unfinished_line st' = []
  /\ starting_offset st' = ending_offset st
  /\ ending_offset st' = ending_offset st + len buffer
  /\ collect_body json_parser None st (data, s, e, newline, x)
     = ([(strip (strip buffer [CR; LF]) [LF], ending_offset st,
          ending_offset st + len buffer, newline, None)], inl st').
Proof.
  intros Hparse Hstart Hbroken buffer st'. subst buffer st'.
  split; [repeat split; vm_compute; reflexivity|].
  split; [eexists; split; [vm_compute; reflexivity|split; reflexivity]|].
  split; [vm_compute; reflexivity|].
  split.
  { intros func storage range_start body is_gzipped Hj Hm He Hobjects.
    unfold json_collector. rewrite Hj, Hm, He.
    replace (str_eqb (u "ndjson") (u "disabled")) with false by reflexivity.
    replace (str_eqb (u "ndjson") (u "single")) with false by reflexivity.
    cbn [orb andb is_some]. unfold for_gen.
    destruct (for_each_collect_objects json_parser _ Hobjects
                (set_ending_offset (init storage) range_start)
                eq_refl eq_refl)
      as (final & -> & Hu & Hlast).
    cbn [ending_offset set_ending_offset init].
    destruct (snd (func storage range_start body is_gzipped)) as [err|];
      [reflexivity|].
    destruct (fst (func storage range_start body is_gzipped)) as [|it items].
    - subst final. cbn [is_a_json_object set_ending_offset init negb].
      rewrite yield_fallback_empty by reflexivity. reflexivity.
    - rewrite Hlast. reflexivity. }
  assert (Hc : _collector json_parser data newline st
               = (fst (_collector json_parser data newline st),
                  [(strip (strip (unfinished_line st ++ (data ++ newline))
                                 [CR; LF]) [LF], Some v)])).
  { unfold _collector. cbn [unfinished_line set_unfinished_line].
    rewrite Hparse. reflexivity. }
  assert (Hst : let st' := fst (_collector json_parser data newline st) in
                is_a_json_object st' = true /\ unfinished_line st' = []
                /\ starting_offset st' = ending_offset st
                /\ ending_offset st'
                   = ending_offset st
                     + len (unfinished_line st ++ (data ++ newline))
                /\ is_a_json_object_circuit_broken st' = false).
  { unfold _collector. cbn [unfinished_line set_unfinished_line].
    rewrite Hparse. destruct (negb (len newline =? 0)); cbn; auto. }
  cbv zeta in Hst. destruct Hst as (H1 & H2 & H3 & H4 & H5).
  rewrite Hc at 1. cbn [snd]. repeat split; auto.
  unfold collect_body. rewrite Hstart. cbn [negb].
  rewrite Hstart. rewrite Hc. cbn [for_each app].
  rewrite H5, H3, H4. reflexivity.
Qed.

Lemma ndjson_objects_are_emitted_example :
  let st := set_has_an_object_start (init (storage_of "ndjson")) true in
  let buffer := object_x ++ [LF] in
  let st' := fst (_collector json_loads object_x [LF] st) in
  (get_by_lines json_loads "ndjson" [two_objects] 0
   = ([(object_x, 0, 8, [LF], None); (object_y, 8, 16, [LF], None)], None)
   /\ json_loads object_x = Some (PDict [(u "x", PInt 1)])
   /\ json_loads object_y = Some (PDict [(u "y", PInt 2)]))
  /\ (exists final,
        collector_run json_loads [two_objects] 0
        = ([(object_x, 0, 8, [LF], None); (object_y, 8, 16, [LF], None)],
           inl final)
        /\ is_a_json_object final = true
        /\ unfinished_line final = [])
  /\ get_by_lines json_loads "ndjson" [object_over_two_lines] 0
     = ([(b "{" ++ [DQ] ++ b "x" ++ [DQ] ++ b ":" ++ [LF] ++ b "1}",
          0, 9, [LF], None)], None)
  /\ (forall (func : GetByLinesCallable) (storage : Storage)
             (range_start : Z) (body : bytes) (is_gzipped : bool),
         json_content_type storage = u "ndjson" ->
         multiline_processor storage = None ->
         event_list_from_field_expander storage = None ->
         Forall (fun it =>
                   starts_object (item_data it) = true
                   /\ is_some (json_loads (item_data it ++ item_newline it))
                      = true)
                (fst (func storage range_start body is_gzipped)) ->
         json_collector json_loads func storage range_start body is_gzipped
         = (one_object_per_line range_start
                                (fst (func storage range_start body is_gzipped)),
            snd (func storage range_start body is_gzipped)))
  /\ snd (_collector json_loads object_x [LF] st)
     = [(strip (strip buffer [CR; LF]) [LF], Some (PDict [(u "x", PInt 1)]))]
  /\ is_a_json_object st' = true
  /\ unfinished_line st' = []
  /\ starting_offset st' = 0
  /\ ending_offset st' = 0 + len buffer
  /\ collect_body json_loads None st (object_x, 0, 8, [LF], None)
     = ([(strip (strip buffer [CR; LF]) [LF], 0, 0 + len buffer, [LF], None)],
        inl st').
Proof.
  exact (ndjson_objects_are_emitted json_loads
           (set_has_an_object_start (init (storage_of "ndjson")) true)
           object_x [LF] 0 8 None (PDict [(u "x", PInt 1)])
           eq_refl eq_refl eq_refl).
Defined.


(** The chunk [a CR b]: [splitlines] breaks it at the CR, for which
    [by_lines] has no terminator. *)
Lemma carriage_return_sum_below_stream :
  let chunk := b "a" ++ [CR] ++ b "b" in
  let out := by_lines (reader [chunk]) (storage_of "disabled") 0 [] false in
  out = ([(b "a", 0, 1, [], None); (b "b", 1, 2, [], None)], None)
  /\ span (fst out) = 2
  /\ len (concat [chunk]) = 3.
Proof. vm_compute. repeat split; reflexivity. Qed.




End DecoratorFacts.
